(** * EQ500X mount driver: mechanical coordinates and goto convergence

    A shallow embedding of [libindi/drivers/telescope/eq500x.cpp].

    Conventions of the embedding.
    - C [int] and [long] values are integers in [Z]; [/] and [%] are the
      truncating [Z.quot] and [Z.rem]; a [static_cast <int>] of a [long] is the
      two's-complement wrap [to_int].
    - C [double] values are the rationals in [Q] that binary64 holds.  The
      comparisons, [std::fmod], [std::abs], [std::max] and [std::lround] are
      exact; [+], [-], [*], [/] and the conversion of a [long] round their
      exact result to the nearest binary64 number, ties to even ([C.b64]).
      Overflow, infinities and NaN are not modelled.
    - Reading an array past its end is undefined behaviour: an outcome of its
      own, [Undefined].
    - Texts are [string]s; a C string ends at its first NUL character.
    - A function returning [char const *] returns [option string] ([None] is the
      null pointer); a mutating method returns the updated object next to its
      C return value. *)

From Stdlib Require Import ZArith QArith Qround Qabs Qminmax Qpower.
From Stdlib Require Import Bool List Lia Lqa.
From Stdlib Require Import Ascii String DecimalString.
Import ListNotations.

Local Open Scope Z_scope.

(** ** C arithmetic *)

Module C.

(** [static_cast <int>] of a wider integer (32-bit two's-complement wrap). *)
Definition to_int (z : Z) : Z := (z + 2147483648) mod 4294967296 - 2147483648.

(** The nearest integer, a halfway case going to the even one. *)
Definition round_even (x : Q) : Z :=
  let f := Qfloor x in
  match Qcompare (x - inject_Z f) (1 # 2) with
  | Lt => f
  | Gt => f + 1
  | Eq => if Z.even f then f else f + 1
  end.

(** The binary exponent of a non-zero [x]: [2^e <= |x| < 2^(e+1)]. *)
Definition exponent (x : Q) : Z :=
  let e := Z.log2 (Z.abs (Qnum x)) - Z.log2 (Zpos (Qden x)) in
  if Qle_bool (2 ^ e) (Qabs x) then e else e - 1.

(** Rounding to binary64, to nearest, ties to even: 53 significant bits, the
    exponent not below -1022 (below it the spacing stays [2^-1074]). *)
Definition b64 (x : Q) : Q :=
  if Qeq_bool x 0 then 0
  else
    let ulp := (2 ^ (Z.max (exponent x) (-1022) - 52))%Q in
    (inject_Z (round_even (x / ulp)) * ulp)%Q.

#[global] Arguments b64 : simpl never.

(** [+], [-], [*] and [/] on doubles, and [static_cast <double>] of a
    [long]. *)
Definition dadd (x y : Q) : Q := b64 (x + y).

Definition dsub (x y : Q) : Q := b64 (x - y).

Definition dmul (x y : Q) : Q := b64 (x * y).

Definition ddiv (x y : Q) : Q := b64 (x / y).

Definition of_long (n : Z) : Q := b64 (inject_Z n).

(** [std::fmod(x, y)]: [x - trunc(x/y) * y], the sign follows [x]. *)
Definition Qtrunc (q : Q) : Z := Z.quot (Qnum q) (Zpos (Qden q)).

Definition fmod (x y : Q) : Q := (x - inject_Z (Qtrunc (x / y)) * y)%Q.

(** [std::lround]: nearest integer, halfway cases away from zero. *)
Definition lround (q : Q) : Z :=
  if Qle_bool 0 q then Qfloor (q + (1 # 2)) else Qceiling (q - (1 # 2)).

(** [std::abs] and [std::max] on doubles. *)
Definition fabs (q : Q) : Q := Qabs q.

Definition fmax (a b : Q) : Q := if Qle_bool b a then a else b.

(** [a <= b] and [a < b] on doubles, as booleans. *)
Definition dle (a b : Q) : bool := Qle_bool a b.

Definition dlt (a b : Q) : bool := negb (Qle_bool b a).

(** [isspace] and [isdigit] in the C locale. *)
Definition isspace (c : ascii) : bool :=
  let n := nat_of_ascii c in
  (Nat.eqb n 32 || (Nat.leb 9 n && Nat.leb n 13))%bool.

Definition isdigit (c : ascii) : bool :=
  let n := nat_of_ascii c in (Nat.leb 48 n && Nat.leb n 57)%bool.

Definition digit_value (c : ascii) : Z := Z.of_nat (nat_of_ascii c) - 48.

(** The character whose code is ['0' + n], ['a' + n], ... *)
Definition char_of (code : Z) : ascii := ascii_of_nat (Z.to_nat code).

Definition code_of (c : ascii) : Z := Z.of_nat (nat_of_ascii c).

(** [printf("%02d", n)]: decimal, zero-padded on the left to two characters,
    the minus sign of a negative value counting as one of them. *)
Definition decimal (n : Z) : string :=
  NilZero.string_of_uint (N.to_uint (Z.to_N (Z.abs n))).

Definition fmt_02d (n : Z) : string :=
  let d := decimal n in
  if n <? 0 then String "-" d
  else if (String.length d <? 2)%nat then String "0" d else d.

(** The C string held in a buffer: the characters before the first NUL. *)
Fixpoint cstr (s : string) : string :=
  match s with
  | EmptyString => EmptyString
  | String c s' => if Ascii.eqb c zero then EmptyString else String c (cstr s')
  end.

(** Leading decimal digits of a text, accumulated left to right, reading at
    most [width] characters; returns the value, the number of digits read and
    the rest of the text. *)
Fixpoint scan_digits (width : nat) (acc : Z) (n : nat) (s : string)
  : Z * nat * string :=
  match width, s with
  | S w, String c s' =>
      if isdigit c then scan_digits w (acc * 10 + digit_value c) (S n) s'
      else (acc, n, s)
  | _, _ => (acc, n, s)
  end.

Fixpoint skip_space (s : string) : string :=
  match s with
  | String c s' => if isspace c then skip_space s' else s
  | EmptyString => s
  end.

(** An optional sign: whether one was read, whether it was ['-'], and the
    rest of the text. *)
Definition scan_sign (s : string) : bool * bool * string :=
  match s with
  | String c r =>
      if Ascii.eqb c "-" then (true, true, r)
      else if Ascii.eqb c "+" then (true, false, r)
      else (false, false, s)
  | EmptyString => (false, false, s)
  end.

(** [atoi]: optional white space, optional sign, decimal digits; [0] when no
    digit is there. *)
Definition atoi (s : string) : Z :=
  let '(_, neg, s2) := scan_sign (skip_space (cstr s)) in
  let '(v, _, _) := scan_digits (String.length s2) 0 0%nat s2 in
  if neg then - v else v.

(** One [%2d] conversion of [sscanf]: white space is skipped, then at most two
    characters are read, an optional sign and decimal digits.  [None] is a
    matching failure (no digit) or the end of the input. *)
Definition scan_2d (s : string) : option (Z * string) :=
  let '(signed, neg, s2) := scan_sign (skip_space s) in
  let '(v, n, rest) := scan_digits (if signed then 1 else 2) 0 0%nat s2 in
  match n with
  | O => None
  | _ => Some (if neg then - v else v, rest)
  end.

(** A literal [':'] of the format. *)
Definition scan_colon (s : string) : option string :=
  match s with
  | String c r => if Ascii.eqb c ":" then Some r else None
  | EmptyString => None
  end.

(** [sscanf(buf, "%02d:%02d:%02d", &h, &m, &s)] with [h], [m], [s] initialised
    to [0]: the number of conversions made and the three variables.  (The
    count is [EOF] when the text ends before the first conversion; it is
    reported as [-1].) *)
Definition sscanf_3 (buf : string) : Z * (Z * Z * Z) :=
  match scan_2d (cstr buf) with
  | None =>
      (match skip_space (cstr buf) with EmptyString => -1 | _ => 0 end, (0, 0, 0))
  | Some (h, r1) =>
      match scan_colon r1 with
      | None => (1, (h, 0, 0))
      | Some r2 =>
          match scan_2d r2 with
          | None => (1, (h, 0, 0))
          | Some (m, r3) =>
              match scan_colon r3 with
              | None => (2, (h, m, 0))
              | Some r4 =>
                  match scan_2d r4 with
                  | None => (2, (h, m, 0))
                  | Some (s, _) => (3, (h, m, s))
                  end
              end
          end
      end
  end.

End C.

(** ** Constants *)

Definition ONEDEGREE : Q := 1.
Definition ARCMINUTE : Q := C.ddiv ONEDEGREE 60.
Definition ARCSECOND : Q := C.ddiv ONEDEGREE 3600.

(** The minimum detectable movement in RA and DEC, in degrees. *)
Definition RA_GRANULARITY : Q :=
  C.ddiv (C.of_long (C.lround (C.dmul (C.dmul 15 ARCSECOND) 3600))) 3600.
Definition DEC_GRANULARITY : Q :=
  C.ddiv (C.of_long (C.lround (C.dmul (C.dmul 1 ARCSECOND) 3600))) 3600.

(** The number of loops expected to achieve convergence on each slew rate. *)
Definition MAX_CONVERGENCE_LOOPS : Z := 144.

(** ** Mechanical coordinates *)

(** Modelled from the spec: the enumeration [INDI::Telescope::TelescopePierSide]
    is declared in [inditelescope.h], which is not part of the sources at hand;
    the spec gives its three values. *)
Inductive TelescopePierSide : Type :=
| PIER_UNKNOWN
| PIER_WEST
| PIER_EAST.

Definition pier_eqb (a b : TelescopePierSide) : bool :=
  match a, b with
  | PIER_UNKNOWN, PIER_UNKNOWN | PIER_WEST, PIER_WEST | PIER_EAST, PIER_EAST => true
  | _, _ => false
  end.

(** Modelled from the spec: the class [EQ500X::MechanicalPoint] is declared in
    [eq500x.h], which is not part of the sources at hand.  Its three members
    are the ones the methods of [eq500x.cpp] read and write: the RA in seconds
    of time and the DEC in seconds of arc, both [long], and the pier side. *)
Record MechanicalPoint : Type := mkPoint {
  _RAm : Z;
  _DECm : Z;
  _pierSide : TelescopePierSide
}.

Definition set_RAm (p : MechanicalPoint) (v : Z) : MechanicalPoint :=
  mkPoint v (_DECm p) (_pierSide p).

Definition set_DECm (p : MechanicalPoint) (v : Z) : MechanicalPoint :=
  mkPoint (_RAm p) v (_pierSide p).

(** [MechanicalPoint::setPierSide]. *)
Definition setPierSide (p : MechanicalPoint) (side : TelescopePierSide)
  : MechanicalPoint :=
  mkPoint (_RAm p) (_DECm p) side.

(** [double MechanicalPoint::RAm() const] and [DECm() const]. *)
Definition RAm (p : MechanicalPoint) : Q := C.ddiv (C.of_long (_RAm p)) 3600.

Definition DECm (p : MechanicalPoint) : Q := C.ddiv (C.of_long (_DECm p)) 3600.

(** [double MechanicalPoint::RAm(double const value)]: the updated point (the
    value returned is [RAm] of it). *)
Definition RAm_set (p : MechanicalPoint) (value : Q) : MechanicalPoint :=
  set_RAm p (C.lround (C.dmul (C.fmod (C.dadd value 24) 24) 3600)).

(** [double MechanicalPoint::DECm(double const value)]. *)
Definition DECm_set (p : MechanicalPoint) (value : Q) : MechanicalPoint :=
  set_DECm p (C.lround (C.dmul (C.fmod (C.dadd value 256) 256) 3600)).

(** [snprintf] into a buffer of [buf_length] bytes, followed by the test
    [(0 < written && written < (int) buf_length) ? buf : 0]. *)
Definition snprintf_result (out : string) (buf_length : Z) : option string :=
  let written := Z.of_nat (String.length out) in
  if (0 <? written) && (written <? C.to_int buf_length) then Some out else None.

(** [char const * MechanicalPoint::toStringRA(char *buf, size_t buf_length) const] *)
Definition toStringRA (p : MechanicalPoint) (buf_length : Z) : option string :=
  let hours :=
    Z.rem ((if pier_eqb (_pierSide p) PIER_WEST then 12 else 0) + 24
           + C.to_int (Z.quot (_RAm p) 3600)) 24 in
  let minutes := Z.rem (C.to_int (Z.quot (_RAm p) 60)) 60 in
  let seconds := Z.rem (C.to_int (_RAm p)) 60 in
  snprintf_result
    (C.fmt_02d hours ++ ":" ++ C.fmt_02d minutes ++ ":" ++ C.fmt_02d seconds)
    buf_length.

(** [sizeof(MechanicalPoint_RA_Format-1)]: the operand is a pointer, so this is
    the size of a pointer, 8 on the 64-bit targets of the driver. *)
Definition sizeof_RA_Format_ptr : Z := 8.

(** [bool MechanicalPoint::parseStringRA(char const *buf, size_t buf_length)]:
    [true] is the error value. *)
Definition parseStringRA (p : MechanicalPoint) (buf : string) (buf_length : Z)
  : bool * MechanicalPoint :=
  if buf_length <? sizeof_RA_Format_ptr then (true, p)
  else
    let '(n, (hours, minutes, seconds)) := C.sscanf_3 buf in
    if n =? 3 then
      (false,
       set_RAm p
         (Z.rem ((if pier_eqb (_pierSide p) PIER_WEST then -12 * 3600 else 0)
                 + 24 * 3600 + Z.rem hours 24 * 3600 + minutes * 60 + seconds)
                (24 * 3600)))
    else (true, p).

(** The value in seconds of arc that [toStringDEC] prints. *)
Definition DEC_value (p : MechanicalPoint) : Z :=
  if pier_eqb (_pierSide p) PIER_EAST then 90 * 3600 - _DECm p
  else _DECm p - 90 * 3600.

Definition DEC_degrees (p : MechanicalPoint) : Z :=
  Z.rem (C.to_int (Z.quot (DEC_value p) 3600)) 256.

Definition DEC_minutes (p : MechanicalPoint) : Z :=
  Z.rem (C.to_int (Z.quot (Z.abs (DEC_value p)) 60)) 60.

Definition DEC_seconds (p : MechanicalPoint) : Z :=
  Z.rem (C.to_int (Z.abs (DEC_value p))) 60.

(** The [switch] of [toStringDEC] on [std::abs(degrees)/10]. *)
Definition high_digit_switch (tens : Z) : option ascii :=
  match tens with
  | 10 => Some ":"%char | 11 => Some ";"%char | 12 => Some "<"%char
  | 13 => Some "="%char | 14 => Some ">"%char | 15 => Some "?"%char
  | 16 => Some "@"%char | 17 => Some "A"%char | 18 => Some "B"%char
  | 19 => Some "C"%char | 20 => Some "D"%char | 21 => Some "E"%char
  | 22 => Some "F"%char | 23 => Some "G"%char | 24 => Some "H"%char
  | 25 => Some "I"%char
  | _ => None
  end.

Definition high_digit (degrees : Z) : option ascii :=
  if (-100 <? degrees) && (degrees <? 100)
  then Some (C.char_of (48 + Z.quot (Z.abs degrees) 10))
  else high_digit_switch (Z.quot (Z.abs degrees) 10).

(** The part of [toStringDEC] that follows the computation of [degrees],
    [minutes] and [seconds]: range check, digits and [snprintf]. *)
Definition formatDEC (degrees minutes seconds : Z) (buf_length : Z)
  : option string :=
  if (degrees <? -255) || (255 <? degrees) then None
  else
    match high_digit degrees with
    | None => None
    | Some high =>
        let low_digit := C.char_of (48 + Z.rem (Z.abs degrees) 10) in
        snprintf_result
          (String (if 0 <=? degrees then "+"%char else "-"%char)
             (String high
                (String low_digit
                   (":" ++ C.fmt_02d minutes ++ ":" ++ C.fmt_02d seconds))))
          buf_length
    end.

(** [char const * MechanicalPoint::toStringDEC(char *buf, size_t buf_length) const] *)
Definition toStringDEC (p : MechanicalPoint) (buf_length : Z) : option string :=
  formatDEC (DEC_degrees p) (DEC_minutes p) (DEC_seconds p) buf_length.

(** [sizeof(MechanicalPoint_DEC_Format)]: the nine characters of ["+DD:MM:SS"]
    and the terminator. *)
Definition sizeof_DEC_Format : Z := 10.

(** [strncpy(b, buf, n)] into a zero-initialised array of [n] bytes: the
    characters of the C string [buf], at most [n] of them, padded with NUL. *)
Fixpoint strncpy (n : nat) (buf : string) : string :=
  match n with
  | O => EmptyString
  | S n' =>
      match buf with
      | EmptyString => String zero (strncpy n' EmptyString)
      | String c r =>
          if Ascii.eqb c zero then String zero (strncpy n' EmptyString)
          else String c (strncpy n' r)
      end
  end.

(** The byte [b[i]] of a buffer. *)
Definition byte_at (b : string) (i : nat) : ascii :=
  match String.get i b with
  | Some c => c
  | None => zero
  end.

(** The [switch] of [parseStringDEC] on the high digit: the two characters
    that replace the sign and the high digit. *)
Definition hundreds_switch (c : ascii) : ascii * ascii :=
  match C.code_of c with
  | 58 => ("1", "0") | 59 => ("1", "1") | 60 => ("1", "2") | 61 => ("1", "3")
  | 62 => ("1", "4") | 63 => ("1", "5") | 64 => ("1", "6") | 65 => ("1", "7")
  | 66 => ("1", "8") | 67 => ("1", "9") | 68 => ("2", "0") | 69 => ("2", "1")
  | 70 => ("2", "2") | 71 => ("2", "3") | 72 => ("2", "4") | 73 => ("2", "5")
  | _ => ("0", c)
  end%char.

(** [bool MechanicalPoint::parseStringDEC(char const *buf, size_t buf_length)]:
    [true] is the error value.  The structure [_DecValues] laid over the copy
    [b] has [degrees] at bytes 0-3, [minutes] at bytes 4-6 and [seconds] at
    bytes 7-9; the last byte of each is set to NUL before [atoi] reads them. *)
Definition parseStringDEC (p : MechanicalPoint) (buf : string) (buf_length : Z)
  : bool * MechanicalPoint :=
  if buf_length <? sizeof_DEC_Format - 1 then (true, p)
  else
    let b := strncpy (Z.to_nat sizeof_DEC_Format) buf in
    let d1 := C.code_of (byte_at b 1) in
    if (d1 <? 48) || (73 <? d1) then (true, p)
    else
      let sgn := if Ascii.eqb (byte_at b 0) "-" then -1 else 1 in
      let '(h, t) := hundreds_switch (byte_at b 1) in
      let degrees := String h (String t (String (byte_at b 2) EmptyString)) in
      let minutes := String (byte_at b 4) (String (byte_at b 5) EmptyString) in
      let seconds := String (byte_at b 7) (String (byte_at b 8) EmptyString) in
      let orientation := if pier_eqb (_pierSide p) PIER_EAST then -1 else 1 in
      (false,
       set_DECm p
         (90 * 3600
          + orientation * sgn
            * (C.atoi degrees * 3600 + C.atoi minutes * 60 + C.atoi seconds))).

(** [double MechanicalPoint::RA_degrees_to(MechanicalPoint const &b) const]:
    the wrapped difference in seconds of time, then the result in degrees. *)
Definition RA_delta_ticks (a b : MechanicalPoint) : Z :=
  let delta := _RAm b - _RAm a in
  let delta := if 12 * 3600 <? delta then delta - 24 * 3600 else delta in
  let delta := if delta <? -12 * 3600 then delta + 24 * 3600 else delta in
  delta.

Definition RA_degrees_to (a b : MechanicalPoint) : Q :=
  C.ddiv (C.of_long (RA_delta_ticks a b * 15)) 3600.

(** [double MechanicalPoint::DEC_degrees_to(MechanicalPoint const &b) const] *)
Definition DEC_degrees_to (a b : MechanicalPoint) : Q :=
  C.ddiv (C.of_long (_DECm b - _DECm a)) 3600.

(** [bool MechanicalPoint::operator !=] and [operator ==]. *)
Definition point_neq (a b : MechanicalPoint) : bool :=
  negb (pier_eqb (_pierSide a) (_pierSide b))
  || C.dle RA_GRANULARITY (C.fabs (RA_degrees_to a b))
  || C.dle DEC_GRANULARITY (C.fabs (DEC_degrees_to a b)).

Definition point_eq (a b : MechanicalPoint) : bool := negb (point_neq a b).

Local Open Scope string_scope.
Local Open Scope Z_scope.

(** ** Slew rates *)

(** [struct _adjustment]: RA/DEC deltas are adjusted at [slew_rate] down to
    [epsilon] degrees when smaller than [distance] degrees. *)
Record _adjustment : Type := mkAdjustment {
  slew_rate : string;
  epsilon : Q;
  distance : Q;
  polling_interval : Z
}.

(** The literal [0.7] is the binary64 number nearest to 7/10. *)
Definition adjustments : list _adjustment :=
  [ mkAdjustment ":RG#" (C.dmul 1 ARCSECOND)
      (C.dmul (C.b64 (7 # 10)) ARCMINUTE) 100;
    mkAdjustment ":RC#" (C.dmul (C.b64 (7 # 10)) ARCMINUTE)
      (C.dmul 10 ARCMINUTE) 200;
    mkAdjustment ":RM#" (C.dmul 10 ARCMINUTE) (C.dmul 5 ONEDEGREE) 500;
    mkAdjustment ":RS#" (C.dmul 5 ONEDEGREE) (C.dmul 10 ONEDEGREE) 500;
    mkAdjustment ":RS#" (C.dmul 10 ONEDEGREE) (C.dmul 360 ONEDEGREE) 1000 ].

(** [adjustments[i]]; a pointer into the table is the index of its entry. *)
Definition adjustment_at (i : nat) : _adjustment :=
  nth i adjustments (mkAdjustment "" 0 0 0).

(** The loop of the constructor [EQ500X::EQ500X]:
    [for (i = 0; i < n-1; i++) assert(adjustments[i+1].epsilon <= adjustments[i].distance)];
    [true] when no assertion fails. *)
Fixpoint sanitize_from (i count : nat) : bool :=
  match count with
  | O => true
  | S count' =>
      C.dle (epsilon (adjustment_at (S i))) (distance (adjustment_at i))
      && sanitize_from (S i) count'
  end.

Definition constructor_asserts : bool :=
  sanitize_from 0 (List.length adjustments - 1).

(** [sizeof(adjustments)]: five entries of 32 bytes each (a pointer, two
    doubles, an [int] and its padding) on the 64-bit targets of the driver.
    It is the bound of the loops below, which count entries with it. *)
Definition sizeof_adjustments : nat := 160.

(** How a loop that chooses a slew rate ends: with a pointer to an entry, with
    the null pointer, or by reading [adjustments[i]] past the end of the
    table, which is undefined behaviour. *)
Inductive loop_end : Type :=
| Found (i : nat)
| Null
| PastTheTable.

(** The loops of [ReadScopeStatus] that choose a slew rate from a distance:
    [for (i = 0; i < sizeof(adjustments) && nullptr == adjust; i++)
       if (abs_delta <= adjustments[i].distance) adjust = &adjustments[i];]
    [count] is the number of turns left and [i] the index. *)
Fixpoint choose_from (abs_delta : Q) (i count : nat) : loop_end :=
  match count with
  | O => Null
  | S count' =>
      match nth_error adjustments i with
      | None => PastTheTable
      | Some a =>
          if C.dle abs_delta (distance a) then Found i
          else choose_from abs_delta (S i) count'
      end
  end.

Definition choose_loop (abs_delta : Q) : loop_end :=
  choose_from abs_delta 0 sizeof_adjustments.

(** ** Pier side *)

(** The hour angle computed by [EQ500X::Goto]. *)
Definition Goto_HA (LST ra : Q) : Q :=
  C.fmod (C.dadd (C.dsub LST ra) 12) 12.

(** The orientation of the mount in HA quadrants, as [Goto] deduces it. *)
Definition pier_of_HA (HA : Q) : TelescopePierSide :=
  if (C.dlt (-12) HA && C.dle HA (-6)) || (C.dle 0 HA && C.dlt HA 6)
  then PIER_WEST else PIER_EAST.

Definition Goto_pierSide (LST ra : Q) : TelescopePierSide :=
  pier_of_HA (Goto_HA LST ra).

(** ** The driver *)

(** Modelled from the spec: the enumeration of [TrackState] is declared in
    [inditelescope.h], which is not part of the sources at hand.  The driver
    uses [SCOPE_SLEWING] and [SCOPE_TRACKING]; the spec names an idle state
    besides. *)
Inductive TelescopeStatus : Type :=
| SCOPE_IDLE
| SCOPE_SLEWING
| SCOPE_TRACKING.

(** Modelled from the spec: the members of the class [EQ500X] are declared in
    [eq500x.h], which is not part of the sources at hand.  The record holds the
    members that [Goto] and [ReadScopeStatus] use, and the function-local
    statics of [ReadScopeStatus] ([previous_adjustment] and the four movement
    markers), which live as long as the driver does. *)
Record Driver : Type := mkDriver {
  TrackState : TelescopeStatus;
  countdown : Z;
  POLLMS : Z;
  currentPosition : MechanicalPoint;
  targetPosition : MechanicalPoint;
  previous_adjustment : option nat;
  east : bool;
  west : bool;
  north : bool;
  south : bool
}.

(** What the surroundings of one call answer: whether the driver is connected,
    whether a write to the serial port succeeds, the replies of the mount to
    [":GR#"] and [":GD#"] ([None] when [getCommandString] fails), and for
    [Goto] the local sidereal time, whether the coordinate property is busy,
    whether [abortSlew] succeeds and whether [setTargetPosition] reports an
    error.  The driver is not simulating. *)
Record Environment : Type := mkEnv {
  isConnected : bool;
  write_ok : bool;
  reply_GR : option string;
  reply_GD : option string;
  getLST : Q;
  EqNP_busy : bool;
  abortSlew_ok : bool;
  setTargetPosition_error : bool
}.

(** [bool EQ500X::getCurrentPosition(MechanicalPoint &p)]: [true] is the error
    value, and [p] is then left as it was. *)
Definition getCurrentPosition (env : Environment) (p : MechanicalPoint)
  : bool * MechanicalPoint :=
  match reply_GR env with
  | None => (true, p)
  | Some b =>
      match parseStringRA p b 64 with
      | (true, _) => (true, p)
      | (false, result) =>
          match reply_GD env with
          | None => (true, p)
          | Some b' =>
              match parseStringDEC result b' 64 with
              | (true, _) => (true, p)
              | (false, result') => (false, result')
              end
          end
      end
  end.

(** The assertions of [ReadScopeStatus], by the line they stand on. *)
Inductive assertion : Type :=
| assert_ra_adjust      (* assert(nullptr != ra_adjust) *)
| assert_dec_adjust     (* assert(nullptr != dec_adjust) *)
| assert_go_east_west   (* assert(!(go_east && go_west)) *)
| assert_go_south_north (* assert(!(go_south && go_north)) *)
| assert_flags.         (* assert(!(east && west) && !(north && south)) *)

(** The undefined behaviour of [ReadScopeStatus], by the line it stands on. *)
Inductive undefined : Type :=
| ra_adjust_past_the_table    (* adjustments[i] in the loop for ra_adjust *)
| dec_adjust_past_the_table.  (* adjustments[i] in the loop for dec_adjust *)

(** The end of one call: it returns, with the new state of the driver and the
    commands handed to [sendCmd] in order, or an assertion fails, or the
    behaviour is undefined. *)
Inductive outcome : Type :=
| Returned (result : bool) (d : Driver) (sent : list string)
| AssertionFailed (a : assertion)
| Undefined (u : undefined).

(** The requirement of one axis: [go_east = epsilon <= delta] and
    [go_west = delta <= -epsilon] (likewise south and north). *)
Definition go_forth (axis_epsilon delta : Q) : bool := C.dle axis_epsilon delta.

Definition go_back (axis_epsilon delta : Q) : bool :=
  C.dle delta (- axis_epsilon).

(** The adjustment of one axis in [ReadScopeStatus].  The two blocks of the
    source, for RA (east, west) and for DEC (south, north), are the same text up
    to the names; [forth] is the marker [east] or [south], [back] is [west] or
    [north], and the four tokens are the stop and start commands of the axis.
    The result is [None] when the assertion of the block fails, else the
    command string and the two markers. *)
Definition adjust_axis (Q_forth Q_back M_forth M_back : string)
    (axis_epsilon delta : Q) (CmdString : string) (forth back : bool)
  : option (string * bool * bool) :=
  let go_f := go_forth axis_epsilon delta in
  let go_b := go_back axis_epsilon delta in
  if go_f && go_b then None
  else
    let '(CmdString, forth) :=
      if forth && (negb go_f || go_b) then (CmdString ++ Q_forth, false)
      else (CmdString, forth) in
    let '(CmdString, back) :=
      if back && (negb go_b || go_f) then (CmdString ++ Q_back, false)
      else (CmdString, back) in
    let '(CmdString, forth) :=
      if go_f && negb forth then (CmdString ++ M_forth, true)
      else (CmdString, forth) in
    let '(CmdString, back) :=
      if go_b && negb back then (CmdString ++ M_back, true)
      else (CmdString, back) in
    Some (CmdString, forth, back).

(** [adjustment < previous_adjustment] on pointers; the null pointer is below
    every entry of the table. *)
Definition below_previous (adjustment : nat) (previous : option nat) : bool :=
  match previous with
  | None => false
  | Some q => (adjustment <? q)%nat
  end.

Definition same_adjustment (previous : option nat) (adjustment : nat) : bool :=
  match previous with
  | None => false
  | Some q => (q =? adjustment)%nat
  end.

(** The label [slew_failure] of [ReadScopeStatus]. *)
Definition slew_failure (d : Driver) (sent : list string) : outcome :=
  Returned false
    (mkDriver SCOPE_TRACKING (countdown d) 1000 (currentPosition d)
       (targetPosition d) (previous_adjustment d)
       (east d) (west d) (north d) (south d))
    (sent ++ [":Q#"])%list.

(** The body of [if (TrackState == SCOPE_SLEWING)] in [ReadScopeStatus]. *)
Definition slewing (env : Environment) (d : Driver) : outcome :=
  let ra_delta := RA_degrees_to (currentPosition d) (targetPosition d) in
  let dec_delta := DEC_degrees_to (currentPosition d) (targetPosition d) in
  let abs_ra_delta := C.fabs ra_delta in
  let abs_dec_delta := C.fabs dec_delta in
  if C.dle RA_GRANULARITY abs_ra_delta || C.dle DEC_GRANULARITY abs_dec_delta
  then
    match choose_loop abs_ra_delta with
    | PastTheTable => Undefined ra_adjust_past_the_table
    | Null => AssertionFailed assert_ra_adjust
    | Found ra_adjust =>
    match choose_loop abs_dec_delta with
    | PastTheTable => Undefined dec_adjust_past_the_table
    | Null => AssertionFailed assert_dec_adjust
    | Found dec_adjust =>
      let adjustment :=
        if (ra_adjust <? dec_adjust)%nat then dec_adjust else ra_adjust in
      let changed := negb (same_adjustment (previous_adjustment d) adjustment) in
      let CmdString :=
        if changed then slew_rate (adjustment_at adjustment) else "" in
      let countdown0 :=
        if changed && below_previous adjustment (previous_adjustment d)
        then MAX_CONVERGENCE_LOOPS else countdown d in
      let previous := if changed then Some adjustment else previous_adjustment d in
      match
        (if (ra_adjust =? adjustment)%nat
         then adjust_axis ":Qe#" ":Qw#" ":Me#" ":Mw#"
                (C.fmax (epsilon (adjustment_at adjustment)) RA_GRANULARITY)
                ra_delta CmdString (east d) (west d)
         else Some (CmdString, east d, west d))
      with
      | None => AssertionFailed assert_go_east_west
      | Some (CmdString, east', west') =>
      match
        (if (dec_adjust =? adjustment)%nat
         then adjust_axis ":Qs#" ":Qn#" ":Ms#" ":Mn#"
                (C.fmax (epsilon (adjustment_at adjustment)) DEC_GRANULARITY)
                dec_delta CmdString (south d) (north d)
         else Some (CmdString, south d, north d))
      with
      | None => AssertionFailed assert_go_south_north
      | Some (CmdString, south', north') =>
        if (east' && west') || (north' && south')
        then AssertionFailed assert_flags
        else
          let d1 := mkDriver (TrackState d) countdown0 (POLLMS d)
                      (currentPosition d) (targetPosition d) previous
                      east' west' north' south' in
          let sent := match CmdString with EmptyString => [] | _ => [CmdString] end in
          if negb (String.eqb CmdString "") && negb (write_ok env)
          then Returned false d1 sent     (* slewError(-1); return false *)
          else if negb east' && negb west' && negb north' && negb south'
          then Returned true d1 sent      (* intermediate adjustment complete *)
          else
            let d2 := mkDriver (TrackState d) (countdown0 - 1) (POLLMS d)
                        (currentPosition d) (targetPosition d) previous
                        east' west' north' south' in
            if (countdown0 - 1 <=? 0)%Z then slew_failure d2 sent
            else
              Returned true
                (mkDriver (TrackState d) (countdown0 - 1)
                   (polling_interval (adjustment_at adjustment))
                   (currentPosition d) (targetPosition d) previous
                   east' west' north' south')
                sent
      end
      end
    end
    end
  else
    Returned true
      (mkDriver SCOPE_TRACKING (countdown d) 1000 (currentPosition d)
         (targetPosition d) (previous_adjustment d)
         (east d) (west d) (north d) (south d))
      [":Q#:RG#"].

(** [bool EQ500X::ReadScopeStatus()] *)
Definition ReadScopeStatus (env : Environment) (d : Driver) : outcome :=
  if negb (isConnected env) then Returned false d []
  else
    match getCurrentPosition env (currentPosition d) with
    | (true, _) => Returned false d []
    | (false, p) =>
        let d0 := mkDriver (TrackState d) (countdown d) (POLLMS d) p
                    (targetPosition d) (previous_adjustment d)
                    (east d) (west d) (north d) (south d) in
        match TrackState d with
        | SCOPE_SLEWING => slewing env d0
        | _ => Returned true d0 []
        end
    end.

(** [bool EQ500X::Goto(double ra, double dec)]: the result and the new state.
    The pier side given to the target is the one just stored in the telescope
    by [INDI::Telescope::setPierSide]. *)
Definition Goto (env : Environment) (d : Driver) (ra dec : Q) : bool * Driver :=
  let target := DECm_set (RAm_set (targetPosition d) ra) dec in
  let target := setPierSide target (Goto_pierSide (getLST env) ra) in
  let d1 := mkDriver (TrackState d) (countdown d) (POLLMS d) (currentPosition d)
              target (previous_adjustment d)
              (east d) (west d) (north d) (south d) in
  if EqNP_busy env && negb (abortSlew_ok env) then (false, d1)
  else if setTargetPosition_error env then (false, d1)
  else
    (true,
     mkDriver SCOPE_SLEWING MAX_CONVERGENCE_LOOPS (POLLMS d) (currentPosition d)
       target (previous_adjustment d)
       (east d) (west d) (north d) (south d)).


(** ** Further operations of the driver *)

(** [MechanicalPoint::MechanicalPoint(double ra, double dec)]: the two setters
    applied to a point that holds the default member initialisers of the
    class, which stand in [eq500x.h]; [init] is that point. *)
Definition MechanicalPoint_of (init : MechanicalPoint) (ra dec : Q)
  : MechanicalPoint :=
  DECm_set (RAm_set init ra) dec.

(** [bool MechanicalPoint::atParkingPosition() const]: the point is the pole,
    [MechanicalPoint(0,90)]. *)
Definition atParkingPosition (init p : MechanicalPoint) : bool :=
  point_eq p (MechanicalPoint_of init 0 90).

(** The command that [EQ500X::setTargetPosition] writes with
    [snprintf(CmdString, sizeof(CmdString), ":Sr%s#:Sd%s#", ...)] into
    [CmdString], an array of 26 bytes, from the texts that [toStringRA] writes
    in [bufRA[9]] and [toStringDEC] in [bufDEC[10]].  [None] when one of the
    two returns the null pointer, which [%s] cannot print. *)
Definition setTargetPosition_command (p : MechanicalPoint) : option string :=
  match toStringRA p 9, toStringDEC p 10 with
  | Some ra, Some dec =>
      Some (substring 0 25 (":Sr" ++ ra ++ "#:Sd" ++ dec ++ "#"))
  | _, _ => None
  end.

(** [bool EQ500X::setTargetPosition(MechanicalPoint const &p)], not
    simulating: the result ([true] is the error value) and the command sent.
    [sent_ok] tells whether the write succeeds and [reply] is what [getReply]
    reads for the two bytes asked, [None] when it fails. *)
Definition setTargetPosition (sent_ok : bool) (reply : option string)
    (p : MechanicalPoint) : option (bool * string) :=
  match setTargetPosition_command p with
  | None => None
  | Some CmdString =>
      Some
        (if sent_ok then
           match reply with
           | Some buf =>
               negb (Ascii.eqb (byte_at buf 0) "1" && Ascii.eqb (byte_at buf 1) "1")
           | None => true
           end
         else true,
         CmdString)
  end.

(** [bool EQ500X::Sync(double ra, double dec)], not simulating: the value
    returned and the new state.  [reply_CM] is the answer of the mount to
    [":CM#"], [None] when [getCommandString] fails; the other arguments are
    those of [setTargetPosition].  [None] when [setTargetPosition] has no
    command to print. *)
Definition Sync (init : MechanicalPoint) (sent_ok : bool)
    (reply reply_CM : option string) (d : Driver) (ra dec : Q)
  : option (bool * Driver) :=
  match setTargetPosition sent_ok reply (MechanicalPoint_of init ra dec) with
  | None => None
  | Some (true, _) => Some (true, d)
  | Some (false, _) =>
      match reply_CM with
      | None => Some (true, d)
      | Some b =>
          if String.eqb (C.cstr b) "No name" then Some (true, d)
          else
            let target := RAm_set (targetPosition d) ra in
            let current := RAm_set (currentPosition d) (RAm target) in
            let target := DECm_set target dec in
            let current := DECm_set current (DECm target) in
            Some (false,
                  mkDriver (TrackState d) (countdown d) (POLLMS d)
                    current target (previous_adjustment d)
                    (east d) (west d) (north d) (south d))
      end
  end.

(** [bool EQ500X::checkConnection()], not simulating: the position is read
    twice, and only a failure of the second reading is one of the check.
    [first] and [second] are the surroundings of the two readings. *)
Definition checkConnection (PortFD : Z) (first second : Environment)
    (d : Driver) : bool * Driver :=
  if PortFD <=? 0 then (false, d)
  else
    let p1 := snd (getCurrentPosition first (currentPosition d)) in
    let '(error, p2) := getCurrentPosition second p1 in
    (negb error,
     mkDriver (TrackState d) (countdown d) (POLLMS d) p2 (targetPosition d)
       (previous_adjustment d) (east d) (west d) (north d) (south d)).


(** * Vocabulary of the properties *)

(** The hour angles for which the mount is west of the pier: (-12,-6] and
    [0,6). *)
Definition west_quadrants (HA : Q) : Prop :=
  ((-12 < HA /\ HA <= -6) \/ (0 <= HA /\ HA < 6))%Q.

(** The RA ticks are within one turn of 24 hours. *)
Definition RA_normalized (p : MechanicalPoint) : Prop :=
  0 <= _RAm p < 24 * 3600.

(** The RA ticks that [parseStringRA] stores for three numbers read. *)
Definition RA_ticks_of (side : TelescopePierSide) (hours minutes seconds : Z) : Z :=
  Z.rem ((if pier_eqb side PIER_WEST then -12 * 3600 else 0)
         + 24 * 3600 + Z.rem hours 24 * 3600 + minutes * 60 + seconds)
        (24 * 3600).

(** The DEC ticks that [parseStringDEC] stores for the copy [b] of the text. *)
Definition DEC_ticks_of (side : TelescopePierSide) (b : string) : Z :=
  let sgn := if Ascii.eqb (byte_at b 0) "-" then -1 else 1 in
  let '(h, t) := hundreds_switch (byte_at b 1) in
  let degrees := String h (String t (String (byte_at b 2) EmptyString)) in
  let minutes := String (byte_at b 4) (String (byte_at b 5) EmptyString) in
  let seconds := String (byte_at b 7) (String (byte_at b 8) EmptyString) in
  let orientation := if pier_eqb side PIER_EAST then -1 else 1 in
  90 * 3600
  + orientation * sgn
    * (C.atoi degrees * 3600 + C.atoi minutes * 60 + C.atoi seconds).

(** The [n] integers from [lo] on. *)
Definition Z_range (lo : Z) (n : nat) : list Z :=
  map (fun k => lo + Z.of_nat k) (seq 0 n).

(** The DEC value is in the range of an [int]. *)
Definition DEC_in_range (p : MechanicalPoint) : Prop :=
  Z.abs (DEC_value p) < 2147483648.

(** The high digit that [toStringDEC] writes for a magnitude of degrees. *)
Definition high_digit_of (a : Z) : ascii :=
  if a <? 100 then C.char_of (48 + a ÷ 10) else C.char_of (58 + (a ÷ 10 - 10)).

(** The pattern the specification names for the RA text, in its own words:
    the exact two-digit triplet ["HH:MM:SS"]. *)
Definition is_HH_MM_SS (s : string) : bool :=
  match s with
  | String h1 (String h2 (String c1 (String m1 (String m2 (String c2
      (String s1 (String s2 EmptyString))))))) =>
      C.isdigit h1 && C.isdigit h2 && Ascii.eqb c1 ":"
      && C.isdigit m1 && C.isdigit m2 && Ascii.eqb c2 ":"
      && C.isdigit s1 && C.isdigit s2
  | _ => false
  end.

(** The number written by two decimal digits. *)
Definition two_digits (a b : ascii) : Z :=
  C.digit_value a * 10 + C.digit_value b.

(** The two characters written for a magnitude of degrees are read back as
    that magnitude. *)
Definition degrees_read_back (a : Z) : bool :=
  let high := high_digit_of a in
  let low := C.char_of (48 + Z.rem a 10) in
  let '(h, t) := hundreds_switch high in
  negb (Ascii.eqb high zero) && negb (Ascii.eqb low zero)
  && (48 <=? C.code_of high) && (C.code_of high <=? 73)
  && (C.atoi (String h (String t (String low EmptyString))) =? a).

(** The movement markers never ask for two opposite directions. *)
Definition exclusive (d : Driver) : Prop :=
  east d && west d = false /\ north d && south d = false.

(** The statics of [ReadScopeStatus] when the driver starts. *)
Definition statics_initial (d : Driver) : Prop :=
  previous_adjustment d = None /\
  east d = false /\ west d = false /\ north d = false /\ south d = false.

(** The states of the driver after any number of calls of [Goto] and
    [ReadScopeStatus], whatever the surroundings answer. *)
Inductive reachable : Driver -> Prop :=
| reachable_start (d : Driver) :
    statics_initial d -> reachable d
| reachable_Goto (env : Environment) (d : Driver) (ra dec : Q) :
    reachable d -> reachable (snd (Goto env d ra dec))
| reachable_ReadScopeStatus (env : Environment) (d d' : Driver)
    (result : bool) (sent : list string) :
    reachable d -> ReadScopeStatus env d = Returned result d' sent ->
    reachable d'.

(** What one call of [ReadScopeStatus] guarantees about the three assertions
    on directions. *)
Definition directions_safe (o : outcome) : Prop :=
  match o with
  | AssertionFailed assert_go_east_west => False
  | AssertionFailed assert_go_south_north => False
  | AssertionFailed assert_flags => False
  | AssertionFailed _ => True
  | Undefined _ => True
  | Returned _ d' _ => exclusive d'
  end.

(** The driver as it starts: tracking, statics cleared, both positions at the
    pole. *)
Definition driver_start : Driver :=
  mkDriver SCOPE_TRACKING 0 1000
    (mkPoint 0 (90 * 3600) PIER_EAST) (mkPoint 0 (90 * 3600) PIER_EAST)
    None false false false false.

(** Surroundings in which the mount answers the two given texts and every
    command goes through. *)
Definition mount_replies (ra dec : string) : Environment :=
  mkEnv true true (Some ra) (Some dec) 0 false true false.

(** The mount is not at the target: the test of [ReadScopeStatus]. *)
Definition away (cur tgt : MechanicalPoint) : bool :=
  C.dle RA_GRANULARITY (C.fabs (RA_degrees_to cur tgt))
  || C.dle DEC_GRANULARITY (C.fabs (DEC_degrees_to cur tgt)).

(** The slew rate that the loop chooses for a distance, when it ends with
    one. *)
Definition choose_adjustment (abs_delta : Q) : option nat :=
  match choose_loop abs_delta with
  | Found i => Some i
  | Null | PastTheTable => None
  end.

(** The driving rate for two distances: the higher of the two entries. *)
Definition driving (ra_adjust dec_adjust : nat) : nat :=
  if (ra_adjust <? dec_adjust)%nat then dec_adjust else ra_adjust.

(** [n] successive calls of [ReadScopeStatus] in the same surroundings: the
    last state, and for each call its result and the commands it sent.
    [None] when an assertion fails or the behaviour is undefined on the way. *)
Fixpoint poll (n : nat) (env : Environment) (d : Driver)
  : option (Driver * list (bool * list string)) :=
  match n with
  | O => Some (d, [])
  | S n' =>
      match ReadScopeStatus env d with
      | AssertionFailed _ => None
      | Undefined _ => None
      | Returned result d' sent =>
          match poll n' env d' with
          | None => None
          | Some (d'', log) => Some (d'', (result, sent) :: log)
          end
      end
  end.

(** A call that returns [true], leaves the driver slewing and sends no
    stop-all command. *)
Definition quiet (entry : bool * list string) : Prop :=
  fst entry = true /\ ~ In ":Q#" (snd entry).

(** The driver is slewing to [tgt] and the mount answers [cur], for which the
    slew rates [i] and [j] are chosen. *)
Definition holding (env : Environment) (cur tgt : MechanicalPoint)
    (i j : nat) (d : Driver) : Prop :=
  TrackState d = SCOPE_SLEWING /\
  exclusive d /\
  getCurrentPosition env (currentPosition d) = (false, cur) /\
  targetPosition d = tgt /\
  (countdown d = MAX_CONVERGENCE_LOOPS
   \/ previous_adjustment d = Some (driving i j)).

(** The hours, minutes and seconds that [toStringRA] prints. *)
Definition RA_hours (p : MechanicalPoint) : Z :=
  Z.rem ((if pier_eqb (_pierSide p) PIER_WEST then 12 else 0) + 24
         + C.to_int (Z.quot (_RAm p) 3600)) 24.

Definition RA_minutes (p : MechanicalPoint) : Z :=
  Z.rem (C.to_int (Z.quot (_RAm p) 60)) 60.

Definition RA_seconds (p : MechanicalPoint) : Z :=
  Z.rem (C.to_int (_RAm p)) 60.

(** While the driver is slewing, the countdown is between 1 and its maximum. *)
Definition countdown_bounded (d : Driver) : Prop :=
  TrackState d = SCOPE_SLEWING -> 1 <= countdown d <= MAX_CONVERGENCE_LOOPS.

(** A command that [strcat] builds within [CmdString[32]]: not empty and of
    at most 20 characters. *)
Definition fits_CmdString (c : string) : Prop :=
  (0 < String.length c <= 20)%nat.

(** * Properties *)

(** ** Comparisons of doubles *)

Lemma dle_spec (a b : Q) : C.dle a b = true <-> (a <= b)%Q.
Proof. unfold C.dle. apply Qle_bool_iff. Qed.

Lemma dle_false (a b : Q) : C.dle a b = false <-> (b < a)%Q.
Proof.
  unfold C.dle. split; intro H.
  - apply Qnot_le_lt. intro Hle. apply Qle_bool_iff in Hle. congruence.
  - destruct (Qle_bool a b) eqn:E; [ | reflexivity ].
    apply Qle_bool_iff in E. exfalso. exact (Qlt_not_le _ _ H E).
Qed.

Lemma dlt_spec (a b : Q) : C.dlt a b = true <-> (a < b)%Q.
Proof.
  unfold C.dlt. rewrite negb_true_iff. apply (dle_false b a).
Qed.

Lemma dlt_false (a b : Q) : C.dlt a b = false <-> (b <= a)%Q.
Proof.
  unfold C.dlt. rewrite negb_false_iff. apply (dle_spec b a).
Qed.

(** ** Remainders and rounding of doubles *)

Lemma Qtrunc_nonneg (q : Q) : (0 <= q)%Q -> C.Qtrunc q = Qfloor q.
Proof.
  destruct q as [num den]. unfold Qle, C.Qtrunc, Qfloor. simpl. intro H.
  apply Z.quot_div_nonneg; lia.
Qed.

Lemma Qfloor_unique (q : Q) (k : Z) :
  (inject_Z k <= q)%Q -> (q < inject_Z (k + 1))%Q -> Qfloor q = k.
Proof.
  intros Hlo Hhi.
  pose proof (Qfloor_le q) as H1. pose proof (Qlt_floor q) as H2.
  assert (Ha : (inject_Z k < inject_Z (Qfloor q + 1))%Q) by lra.
  assert (Hb : (inject_Z (Qfloor q) < inject_Z (k + 1))%Q) by lra.
  rewrite <- Zlt_Qlt in Ha, Hb. lia.
Qed.

Lemma fmod_nonneg (x y : Q) :
  (0 <= x)%Q -> (0 < y)%Q -> (0 <= C.fmod x y /\ C.fmod x y < y)%Q.
Proof.
  intros Hx Hy. unfold C.fmod.
  assert (Hq : (0 <= x / y)%Q).
  { apply Qle_shift_div_l; [ exact Hy | lra ]. }
  rewrite (Qtrunc_nonneg _ Hq).
  pose proof (Qfloor_le (x / y)) as H1. pose proof (Qlt_floor (x / y)) as H2.
  rewrite inject_Z_plus in H2. change (inject_Z 1) with 1%Q in H2.
  set (k := inject_Z (Qfloor (x / y))) in *.
  assert (Hxy : (x / y * y == x)%Q) by (field; intro Hz; rewrite Hz in Hy; discriminate Hy).
  assert (H3 : (k * y <= x / y * y)%Q) by (apply Qmult_le_compat_r; lra).
  assert (H4 : (x / y * y < (k + 1) * y)%Q) by (apply Qmult_lt_compat_r; lra).
  rewrite Hxy in H3, H4. split; lra.
Qed.


Lemma fmod_once (x y : Q) :
  (0 < y)%Q -> (y <= x)%Q -> (x < 2 * y)%Q -> (C.fmod x y == x - y)%Q.
Proof.
  intros Hy Hlo Hhi. unfold C.fmod.
  assert (Hq : (0 <= x / y)%Q) by (apply Qle_shift_div_l; lra).
  rewrite (Qtrunc_nonneg _ Hq).
  rewrite (Qfloor_unique (x / y) 1); [ change (inject_Z 1) with 1%Q; lra | | ].
  - change (inject_Z 1) with 1%Q. apply Qle_shift_div_l; lra.
  - change (inject_Z (1 + 1)) with 2%Q. apply Qlt_shift_div_r; lra.
Qed.

Lemma lround_between (q : Q) (lo hi : Z) :
  0 <= lo -> (inject_Z lo <= q)%Q -> (q <= inject_Z hi)%Q ->
  lo <= C.lround q <= hi.
Proof.
  intros Hlo0 Hlo Hhi.
  assert (H0 : (0 <= q)%Q).
  { apply Qle_trans with (inject_Z lo); [ | exact Hlo ].
    change 0%Q with (inject_Z 0). now rewrite <- Zle_Qle. }
  unfold C.lround.
  replace (Qle_bool 0 q) with true by (symmetry; now apply Qle_bool_iff).
  pose proof (Qfloor_le (q + (1 # 2))) as H1.
  pose proof (Qlt_floor (q + (1 # 2))) as H2.
  assert (Ha : (inject_Z lo < inject_Z (Qfloor (q + (1 # 2)) + 1))%Q) by lra.
  assert (Hb : (inject_Z (Qfloor (q + (1 # 2))) < inject_Z (hi + 1))%Q).
  { rewrite inject_Z_plus. change (inject_Z 1) with 1%Q. lra. }
  rewrite <- Zlt_Qlt in Ha, Hb. lia.
Qed.

(** ** Rounding to binary64 *)

Lemma inject_Z_succ (z : Z) : (inject_Z (z + 1) == inject_Z z + 1)%Q.
Proof. rewrite inject_Z_plus. reflexivity. Qed.

Lemma inject_Z_pred (z : Z) : (inject_Z (z - 1) == inject_Z z - 1)%Q.
Proof. unfold Z.sub. rewrite inject_Z_plus. reflexivity. Qed.

Lemma round_even_cases (x : Q) :
  let f := Qfloor x in
  ((x - inject_Z f < 1 # 2)%Q /\ C.round_even x = f) \/
  ((1 # 2 < x - inject_Z f)%Q /\ C.round_even x = f + 1) \/
  ((x - inject_Z f == 1 # 2)%Q /\
   C.round_even x = if Z.even f then f else f + 1).
Proof.
  cbv zeta. unfold C.round_even.
  destruct (Qcompare_spec (x - inject_Z (Qfloor x)) (1 # 2)) as [E | E | E].
  - right. right. split; [ exact E | reflexivity ].
  - left. split; [ exact E | reflexivity ].
  - right. left. split; [ exact E | reflexivity ].
Qed.

Lemma round_even_bounds (x : Q) :
  (x - (1 # 2) <= inject_Z (C.round_even x) <= x + (1 # 2))%Q.
Proof.
  pose proof (Qfloor_le x) as F1. pose proof (Qlt_floor x) as F2.
  rewrite inject_Z_plus in F2. change (inject_Z 1) with 1%Q in F2.
  destruct (round_even_cases x) as [[H E] | [[H E] | [H E]]]; rewrite E.
  - lra.
  - rewrite inject_Z_plus. change (inject_Z 1) with 1%Q. lra.
  - destruct (Z.even (Qfloor x)).
    + lra.
    + rewrite inject_Z_plus. change (inject_Z 1) with 1%Q. lra.
Qed.

Lemma round_even_comp (x y : Q) : (x == y)%Q -> C.round_even x = C.round_even y.
Proof.
  intro H. unfold C.round_even. rewrite (Qfloor_comp x y H).
  assert (E : (x - inject_Z (Qfloor y) ?= 1 # 2)%Q
              = (y - inject_Z (Qfloor y) ?= 1 # 2)%Q)
    by (apply Qcompare_comp; [ rewrite H | ]; reflexivity).
  rewrite E. reflexivity.
Qed.

Lemma round_even_Z (n : Z) : C.round_even (inject_Z n) = n.
Proof.
  destruct (round_even_cases (inject_Z n)) as [[H E] | [[H E] | [H E]]];
    cbv zeta in *; rewrite Qfloor_Z in *.
  - exact E.
  - exfalso. lra.
  - exfalso. lra.
Qed.

Lemma round_even_le (x y : Q) :
  (x <= y)%Q -> C.round_even x <= C.round_even y.
Proof.
  intro H.
  destruct (Z_le_gt_dec (C.round_even x) (C.round_even y)) as [L | G];
    [ exact L | exfalso ].
  pose proof (round_even_bounds x) as [_ Bx].
  pose proof (round_even_bounds y) as [By _].
  assert (G' : (inject_Z (C.round_even y) + 1 <= inject_Z (C.round_even x))%Q).
  { change 1%Q with (inject_Z 1). rewrite <- inject_Z_plus.
    rewrite <- Zle_Qle. lia. }
  assert (E : (x == y)%Q) by lra.
  rewrite (round_even_comp x y E) in G. lia.
Qed.

Lemma round_even_opp (x : Q) : C.round_even (- x) = - C.round_even x.
Proof.
  pose proof (Qfloor_le x) as F1. pose proof (Qlt_floor x) as F2.
  rewrite inject_Z_plus in F2. change (inject_Z 1) with 1%Q in F2.
  destruct (Qeq_dec x (inject_Z (Qfloor x))) as [Eint | Nint].
  - rewrite (round_even_comp x _ Eint), round_even_Z.
    assert (E : (- x == inject_Z (- Qfloor x))%Q)
      by (rewrite inject_Z_opp, <- Eint; reflexivity).
    rewrite (round_even_comp _ _ E), round_even_Z. reflexivity.
  - assert (Ff : Qfloor (- x) = - Qfloor x - 1).
    { apply Qfloor_unique.
      - rewrite inject_Z_pred, inject_Z_opp. lra.
      - replace (- Qfloor x - 1 + 1) with (- Qfloor x) by lia.
        rewrite inject_Z_opp.
        assert (inject_Z (Qfloor x) < x)%Q; [ | lra ].
        apply Qle_lt_or_eq in F1. destruct F1 as [L | E]; [ exact L | ].
        exfalso. apply Nint. symmetry. exact E. }
    assert (Fi : (inject_Z (Qfloor (- x)) == - inject_Z (Qfloor x) - 1)%Q).
    { rewrite Ff, inject_Z_pred, inject_Z_opp. reflexivity. }
    destruct (round_even_cases x) as [[H E] | [[H E] | [H E]]];
    destruct (round_even_cases (- x)) as [[H' E'] | [[H' E'] | [H' E']]];
    cbv zeta in *; rewrite E, E'; rewrite Ff in *;
    try (exfalso; lra); try lia.
    rewrite Fi in H'.
    replace (Z.even (- Qfloor x - 1)) with (negb (Z.even (Qfloor x))).
    + destruct (Z.even (Qfloor x)); cbn [negb]; lia.
    + replace (- Qfloor x - 1) with (- (Qfloor x + 1)) by lia.
      rewrite Z.even_opp, Z.add_1_r, Z.even_succ, <- Z.negb_even. reflexivity.
Qed.

Lemma pow2_pos (e : Z) : (0 < 2 ^ e)%Q.
Proof. apply Qpower_0_lt. reflexivity. Qed.

Lemma pow2_add (a b : Z) : (2 ^ (a + b) == 2 ^ a * 2 ^ b)%Q.
Proof. apply Qpower_plus. discriminate. Qed.

Lemma pow2_succ (a : Z) : (2 ^ (a + 1) == 2 * 2 ^ a)%Q.
Proof. rewrite pow2_add. change (2 ^ 1)%Q with 2%Q. ring. Qed.

Lemma pow2_le (a b : Z) : a <= b -> (2 ^ a <= 2 ^ b)%Q.
Proof. intro H. apply Qpower_le_compat_l; [ exact H | discriminate ]. Qed.

Lemma pow2_lt_inv (a b : Z) : (2 ^ a < 2 ^ b)%Q -> a < b.
Proof. intro H. apply (Qpower_lt_compat_l_inv 2); [ exact H | reflexivity ]. Qed.

Lemma pow2_Z (a : Z) : 0 <= a -> (inject_Z (2 ^ a) == 2 ^ a)%Q.
Proof. intro H. rewrite Zpower_Qpower by exact H. reflexivity. Qed.

Lemma Qabs_opp_eq (x : Q) : Qabs (- x) = Qabs x.
Proof. destruct x as [n d]. unfold Qabs, Qopp. cbn. rewrite Z.abs_opp. reflexivity. Qed.

Lemma exponent_opp (x : Q) : C.exponent (- x) = C.exponent x.
Proof.
  unfold C.exponent. rewrite Qabs_opp_eq.
  destruct x as [n d]. cbn [Qnum Qden Qopp]. rewrite Z.abs_opp. reflexivity.
Qed.

Lemma exponent_spec (x : Q) :
  ~ (x == 0)%Q ->
  (2 ^ C.exponent x <= Qabs x)%Q /\ (Qabs x < 2 ^ (C.exponent x + 1))%Q.
Proof.
  intro Hx. unfold C.exponent.
  destruct x as [n d]. cbn [Qnum Qden].
  assert (Hn : 0 < Z.abs n).
  { assert (n <> 0); [ | lia ]. intro E. apply Hx. subst n. reflexivity. }
  set (a := Z.log2 (Z.abs n)). set (b := Z.log2 (Z.pos d)).
  destruct (Z.log2_spec (Z.abs n) Hn) as [A1 A2]. fold a in A1, A2.
  destruct (Z.log2_spec (Z.pos d) ltac:(lia)) as [B1 B2]. fold b in B1, B2.
  assert (Ha : 0 <= a) by apply Z.log2_nonneg.
  assert (Hb : 0 <= b) by apply Z.log2_nonneg.
  assert (Eabs : (Qabs (n # d) == inject_Z (Z.abs n) / inject_Z (Z.pos d))%Q).
  { unfold Qabs. rewrite (Qmake_Qdiv (Z.abs n) d). reflexivity. }
  assert (Hd : (0 < inject_Z (Z.pos d))%Q) by (rewrite <- (Zlt_Qlt 0); lia).
  assert (QA1 : (2 ^ a <= inject_Z (Z.abs n))%Q)
    by (rewrite <- pow2_Z by lia; rewrite <- Zle_Qle; exact A1).
  assert (QA2 : (inject_Z (Z.abs n) < 2 * 2 ^ a)%Q).
  { rewrite <- pow2_succ, <- pow2_Z by lia. rewrite <- Zlt_Qlt.
    rewrite Z.add_1_r. exact A2. }
  assert (QB1 : (2 ^ b <= inject_Z (Z.pos d))%Q)
    by (rewrite <- pow2_Z by lia; rewrite <- Zle_Qle; exact B1).
  assert (QB2 : (inject_Z (Z.pos d) < 2 * 2 ^ b)%Q).
  { rewrite <- pow2_succ, <- pow2_Z by lia. rewrite <- Zlt_Qlt.
    rewrite Z.add_1_r. exact B2. }
  pose proof (pow2_pos a) as Pa. pose proof (pow2_pos b) as Pb.
  assert (Eab : (2 ^ a == 2 ^ (a - b) * 2 ^ b)%Q).
  { rewrite <- pow2_add. replace (a - b + b) with a by lia. reflexivity. }
  pose proof (pow2_pos (a - b)) as Pab.
  set (N := inject_Z (Z.abs n)) in *. set (D := inject_Z (Z.pos d)) in *.
  set (P := (2 ^ (a - b))%Q) in *. set (B := (2 ^ b)%Q) in *.
  set (A := (2 ^ a)%Q) in *.
  assert (Up : (N / D < 2 * P)%Q).
  { apply Qlt_shift_div_r; [ exact Hd | ]. nra. }
  assert (Lo : (P < 2 * (N / D))%Q).
  { assert (P * D < 2 * N)%Q by nra.
    assert (E2 : (2 * (N / D) == (2 * N) / D)%Q) by (field; lra).
    rewrite E2. apply Qlt_shift_div_l; [ exact Hd | assumption ]. }
  destruct (Qle_bool P (Qabs (n # d))) eqn:E.
  - apply Qle_bool_iff in E. split; [ exact E | ].
    rewrite pow2_succ. fold P. rewrite Eabs. exact Up.
  - assert (L : (Qabs (n # d) < P)%Q).
    { apply Qnot_le_lt. intro H. apply Qle_bool_iff in H. congruence. }
    assert (EP : (P == 2 * 2 ^ (a - b - 1))%Q).
    { unfold P. rewrite <- pow2_succ. replace (a - b - 1 + 1) with (a - b) by lia.
      reflexivity. }
    split.
    + rewrite Eabs. pose proof (pow2_pos (a - b - 1)). lra.
    + replace (a - b - 1 + 1) with (a - b) by lia. exact L.
Qed.

Lemma exponent_le (x y : Q) :
  ~ (x == 0)%Q -> (Qabs x <= Qabs y)%Q -> C.exponent x <= C.exponent y.
Proof.
  intros Hx Hxy.
  assert (Hy : ~ (y == 0)%Q).
  { intro E. rewrite E in Hxy. change (Qabs 0) with 0%Q in Hxy.
    apply Hx. pose proof (Qabs_nonneg x) as H0.
    pose proof (Qle_Qabs x) as H1. pose proof (Qle_Qabs (- x)) as H2.
    rewrite Qabs_opp in H2. lra. }
  destruct (exponent_spec x Hx) as [X1 _].
  destruct (exponent_spec y Hy) as [_ Y2].
  assert (L : (2 ^ C.exponent x < 2 ^ (C.exponent y + 1))%Q) by lra.
  apply pow2_lt_inv in L. lia.
Qed.

Lemma b64_0 : (C.b64 0 == 0)%Q.
Proof. reflexivity. Qed.

Lemma b64_unfold (x : Q) :
  ~ (x == 0)%Q ->
  C.b64 x
  = (inject_Z (C.round_even (x / 2 ^ (Z.max (C.exponent x) (-1022) - 52)))
     * 2 ^ (Z.max (C.exponent x) (-1022) - 52))%Q.
Proof.
  intro H. unfold C.b64.
  destruct (Qeq_bool x 0) eqn:E; [ | reflexivity ].
  apply Qeq_bool_iff in E. contradiction.
Qed.

Lemma b64_opp (x : Q) : (C.b64 (- x) == - C.b64 x)%Q.
Proof.
  destruct (Qeq_dec x 0) as [E | N].
  - unfold C.b64.
    assert (E' : (- x == 0)%Q) by (rewrite E; reflexivity).
    apply Qeq_bool_iff in E, E'. rewrite E, E'. reflexivity.
  - assert (N' : ~ (- x == 0)%Q) by (intro E; apply N; lra).
    rewrite (b64_unfold x N), (b64_unfold (- x) N'), exponent_opp.
    set (u := (2 ^ (Z.max (C.exponent x) (-1022) - 52))%Q).
    assert (Eu : (- x / u == - (x / u))%Q)
      by (field; pose proof (pow2_pos (Z.max (C.exponent x) (-1022) - 52));
          fold u in H; lra).
    rewrite (round_even_comp _ _ Eu), round_even_opp, inject_Z_opp. ring.
Qed.

(** A positive number and its rounding lie between the same powers of two. *)
Lemma b64_binade (x : Q) :
  (0 < x)%Q ->
  let E := Z.max (C.exponent x) (-1022) in
  (0 <= C.b64 x)%Q /\ (C.b64 x <= 2 ^ (E + 1))%Q /\
  (-1022 <= C.exponent x -> (2 ^ E <= C.b64 x)%Q).
Proof.
  intros Hx E.
  assert (N : ~ (x == 0)%Q) by lra.
  destruct (exponent_spec x N) as [X1 X2].
  rewrite (Qabs_pos x) in X1, X2 by lra.
  rewrite (b64_unfold x N). fold E.
  set (u := (2 ^ (E - 52))%Q).
  assert (Pu : (0 < u)%Q) by apply pow2_pos.
  assert (E53 : (2 ^ (E + 1) == inject_Z (2 ^ 53) * u)%Q).
  { unfold u. rewrite pow2_Z by lia. rewrite <- pow2_add.
    replace (53 + (E - 52)) with (E + 1) by lia. reflexivity. }
  assert (E52 : (2 ^ E == inject_Z (2 ^ 52) * u)%Q).
  { unfold u. rewrite pow2_Z by lia. rewrite <- pow2_add.
    replace (52 + (E - 52)) with E by lia. reflexivity. }
  assert (Up : (x < 2 ^ (E + 1))%Q).
  { apply Qlt_le_trans with (2 ^ (C.exponent x + 1))%Q; [ exact X2 | ].
    apply pow2_le. lia. }
  assert (Y0 : (0 <= x / u)%Q).
  { apply Qle_shift_div_l; [ exact Pu | lra ]. }
  assert (Y53 : (x / u <= inject_Z (2 ^ 53))%Q).
  { apply Qle_shift_div_r; [ exact Pu | lra ]. }
  pose proof (round_even_le _ _ Y0) as R0. change 0%Q with (inject_Z 0) in R0.
  rewrite round_even_Z in R0.
  pose proof (round_even_le _ _ Y53) as R53. rewrite round_even_Z in R53.
  rewrite Zle_Qle in R0, R53. change (inject_Z 0) with 0%Q in R0.
  split; [ nra | ]. split; [ rewrite E53; nra | ].
  intro Hn. assert (EE : E = C.exponent x) by lia.
  assert (Y52 : (inject_Z (2 ^ 52) <= x / u)%Q).
  { apply Qle_shift_div_l; [ exact Pu | ]. rewrite <- E52, EE. exact X1. }
  pose proof (round_even_le _ _ Y52) as R52. rewrite round_even_Z in R52.
  rewrite Zle_Qle in R52. rewrite E52. nra.
Qed.

Lemma b64_le_pos (x y : Q) :
  (0 < x)%Q -> (x <= y)%Q -> (C.b64 x <= C.b64 y)%Q.
Proof.
  intros Hx Hxy.
  assert (Hy : (0 < y)%Q) by lra.
  assert (Nx : ~ (x == 0)%Q) by lra. assert (Ny : ~ (y == 0)%Q) by lra.
  assert (Hexp : C.exponent x <= C.exponent y)
    by (apply exponent_le; [ exact Nx | rewrite !Qabs_pos by lra; exact Hxy ]).
  destruct (Z.eq_dec (Z.max (C.exponent x) (-1022)) (Z.max (C.exponent y) (-1022)))
    as [Es | Ns].
  - rewrite (b64_unfold x Nx), (b64_unfold y Ny), <- Es.
    set (u := (2 ^ (Z.max (C.exponent x) (-1022) - 52))%Q).
    assert (Pu : (0 < u)%Q) by apply pow2_pos.
    assert (Hdiv : (x / u <= y / u)%Q).
    { apply Qle_shift_div_l; [ exact Pu | ].
      assert (E : (x / u * u == x)%Q) by (field; lra). rewrite E. exact Hxy. }
    pose proof (round_even_le _ _ Hdiv) as R. rewrite Zle_Qle in R. nra.
  - destruct (b64_binade x Hx) as (_ & Ux & _).
    destruct (b64_binade y Hy) as (_ & _ & Ly). cbv zeta in *.
    assert (Hlt : Z.max (C.exponent x) (-1022) + 1
                  <= Z.max (C.exponent y) (-1022)) by lia.
    specialize (Ly ltac:(lia)).
    pose proof (pow2_le _ _ Hlt). lra.
Qed.

Lemma b64_nonneg (x : Q) : (0 <= x)%Q -> (0 <= C.b64 x)%Q.
Proof.
  intro H. destruct (Qeq_dec x 0) as [E | N].
  - unfold C.b64. apply Qeq_bool_iff in E. rewrite E. lra.
  - apply (b64_binade x). lra.
Qed.

(** Rounding is monotone. *)
Lemma b64_le (x y : Q) : (x <= y)%Q -> (C.b64 x <= C.b64 y)%Q.
Proof.
  intro H.
  destruct (Qlt_le_dec 0 x) as [Px | Nx].
  - apply b64_le_pos; assumption.
  - destruct (Qlt_le_dec y 0) as [Ny | Py].
    + assert (L : (C.b64 (- y) <= C.b64 (- x))%Q)
        by (apply b64_le_pos; lra).
      rewrite !b64_opp in L. lra.
    + pose proof (b64_nonneg y Py) as Hy.
      assert (Hx : (0 <= C.b64 (- x))%Q) by (apply b64_nonneg; lra).
      rewrite b64_opp in Hx. lra.
Qed.

Lemma b64_comp (x y : Q) : (x == y)%Q -> (C.b64 x == C.b64 y)%Q.
Proof.
  intro H. apply Qle_antisym; apply b64_le; rewrite H; apply Qle_refl.
Qed.

(** The integers up to [2^53] in magnitude are binary64 numbers. *)
Lemma b64_Z (n : Z) :
  Z.abs n <= 2 ^ 53 -> (C.b64 (inject_Z n) == inject_Z n)%Q.
Proof.
  assert (Hpos : forall m, 0 < m <= 2 ^ 53 ->
                           (C.b64 (inject_Z m) == inject_Z m)%Q).
  { intros m Hm.
    destruct (Z.eq_dec m (2 ^ 53)) as [-> | Hne]; [ vm_compute; reflexivity | ].
    assert (Pm : (0 < inject_Z m)%Q) by (rewrite <- (Zlt_Qlt 0); lia).
    assert (N : ~ (inject_Z m == 0)%Q) by lra.
    destruct (exponent_spec _ N) as [X1 X2].
    rewrite (Qabs_pos (inject_Z m)) in X1, X2 by lra.
    set (e := C.exponent (inject_Z m)) in *.
    assert (He0 : 0 <= e).
    { assert (L : (2 ^ 0 < 2 ^ (e + 1))%Q).
      { apply Qle_lt_trans with (inject_Z m); [ | exact X2 ].
        change (2 ^ 0)%Q with (inject_Z 1). rewrite <- Zle_Qle. lia. }
      apply pow2_lt_inv in L. lia. }
    assert (He : e <= 52).
    { assert (L : (2 ^ e < 2 ^ 53)%Q).
      { apply Qle_lt_trans with (inject_Z m); [ exact X1 | ].
        rewrite <- pow2_Z by lia. rewrite <- Zlt_Qlt. lia. }
      apply pow2_lt_inv in L. lia. }
    rewrite (b64_unfold _ N). fold e.
    replace (Z.max e (-1022)) with e by lia.
    assert (Eu : (2 ^ (e - 52) * inject_Z (2 ^ (52 - e)) == 1)%Q).
    { rewrite pow2_Z by lia. rewrite <- pow2_add.
      replace (e - 52 + (52 - e)) with 0 by lia. reflexivity. }
    pose proof (pow2_pos (e - 52)) as Pu.
    assert (Ey : (inject_Z m / 2 ^ (e - 52) == inject_Z (m * 2 ^ (52 - e)))%Q).
    { rewrite inject_Z_mult. apply Qmult_inj_r with (2 ^ (e - 52))%Q; [ lra | ].
      assert (E1 : (inject_Z m / 2 ^ (e - 52) * 2 ^ (e - 52) == inject_Z m)%Q)
        by (field; lra).
      rewrite E1. rewrite <- Qmult_assoc, (Qmult_comm (inject_Z (2 ^ (52 - e)))), Eu.
      ring. }
    rewrite (round_even_comp _ _ Ey), round_even_Z, inject_Z_mult.
    rewrite <- Qmult_assoc, (Qmult_comm (inject_Z (2 ^ (52 - e)))), Eu. ring. }
  intro Hn.
  destruct (Z.lt_trichotomy n 0) as [Neg | [-> | Pos]].
  - assert (E : (inject_Z n == - inject_Z (- n))%Q)
      by (rewrite inject_Z_opp; ring).
    rewrite (b64_comp _ _ E), b64_opp, Hpos by lia. symmetry. exact E.
  - reflexivity.
  - apply Hpos. lia.
Qed.

(** The relative error of rounding, away from the subnormal numbers. *)
Lemma b64_error (x : Q) :
  (2 ^ (-1022) <= Qabs x)%Q ->
  (Qabs (C.b64 x - x) <= Qabs x * (1 # 2 ^ 53))%Q.
Proof.
  assert (Hpos : forall y, (2 ^ (-1022) <= y)%Q ->
                           (Qabs (C.b64 y - y) <= y * (1 # 2 ^ 53))%Q).
  { intros y Hy.
    pose proof (pow2_pos (-1022)) as P0.
    assert (Py : (0 < y)%Q) by lra. assert (N : ~ (y == 0)%Q) by lra.
    destruct (exponent_spec y N) as [X1 X2].
    rewrite (Qabs_pos y) in X1, X2 by lra.
    set (e := C.exponent y) in *.
    assert (He : -1022 <= e).
    { assert (L : (2 ^ (-1022) < 2 ^ (e + 1))%Q) by lra.
      apply pow2_lt_inv in L. lia. }
    rewrite (b64_unfold y N). fold e. replace (Z.max e (-1022)) with e by lia.
    set (u := (2 ^ (e - 52))%Q). assert (Pu : (0 < u)%Q) by apply pow2_pos.
    pose proof (round_even_bounds (y / u)) as [B1 B2].
    assert (Ey : (y / u * u == y)%Q) by (field; lra).
    assert (Eu : (2 ^ e == inject_Z (2 ^ 52) * u)%Q).
    { unfold u. rewrite pow2_Z by lia. rewrite <- pow2_add.
      replace (52 + (e - 52)) with e by lia. reflexivity. }
    assert (E52 : (inject_Z (2 ^ 52) == 4503599627370496)%Q) by reflexivity.
    change (1 # 2 ^ 53)%Q with (1 # 9007199254740992)%Q. rewrite E52 in Eu.
    set (r := inject_Z (C.round_even (y / u))) in *.
    set (q := (y / u)%Q) in *.
    assert (A1 : (0 <= (q + (1 # 2) - r) * u)%Q)
      by (apply Qmult_le_0_compat; lra).
    assert (A2 : (0 <= (r - (q - (1 # 2))) * u)%Q)
      by (apply Qmult_le_0_compat; lra).
    apply Qabs_Qle_condition. split; lra. }
  intro Hx.
  destruct (Qlt_le_dec x 0) as [Neg | Pos].
  - rewrite (Qabs_neg x) in * by lra.
    specialize (Hpos (- x)%Q Hx). rewrite b64_opp in Hpos.
    assert (E : (- C.b64 x - - x == - (C.b64 x - x))%Q) by ring.
    rewrite E, Qabs_opp in Hpos. exact Hpos.
  - rewrite (Qabs_pos x) in * by lra. apply Hpos, Hx.
Qed.

(** Rounding keeps a number between two integers that binary64 holds. *)
Lemma b64_between (x : Q) (lo hi : Z) :
  Z.abs lo <= 2 ^ 53 -> Z.abs hi <= 2 ^ 53 ->
  (inject_Z lo <= x)%Q -> (x <= inject_Z hi)%Q ->
  (inject_Z lo <= C.b64 x)%Q /\ (C.b64 x <= inject_Z hi)%Q.
Proof.
  intros Hlo Hhi L H. split.
  - rewrite <- (b64_Z lo Hlo). apply b64_le, L.
  - rewrite <- (b64_Z hi Hhi). apply b64_le, H.
Qed.

Lemma inject_Z_sub (a b : Z) : (inject_Z (a - b) == inject_Z a - inject_Z b)%Q.
Proof. unfold Z.sub. rewrite inject_Z_plus, inject_Z_opp. reflexivity. Qed.

(** A multiple of the unit in the last place is a binary64 number. *)
Lemma b64_multiple (x : Q) (m j : Z) :
  (x == inject_Z m * 2 ^ j)%Q ->
  Z.max (C.exponent x) (-1022) - 52 <= j ->
  (C.b64 x == x)%Q.
Proof.
  intros Hx Hj.
  destruct (Qeq_dec x 0) as [E | N];
    [ rewrite (b64_comp _ _ E), b64_0, E; reflexivity | ].
  rewrite (b64_unfold x N).
  set (u := Z.max (C.exponent x) (-1022) - 52) in *.
  pose proof (pow2_pos u) as Hu.
  assert (Hq : (x / 2 ^ u == inject_Z (m * 2 ^ (j - u)))%Q).
  { rewrite inject_Z_mult, (pow2_Z (j - u)) by lia.
    rewrite Hx. replace j with ((j - u) + u) at 1 by lia.
    rewrite pow2_add. field. intro H0. rewrite H0 in Hu.
    apply (Qlt_irrefl 0), Hu. }
  rewrite (round_even_comp _ _ Hq), round_even_Z, <- Hq.
  field. intro H0. rewrite H0 in Hu. apply (Qlt_irrefl 0), Hu.
Qed.

(** [lnobserver.lng -= 360] does not round. *)
Lemma longitude_less_360 (longitude : Q) :
  (C.b64 longitude == longitude)%Q ->
  (180 < longitude)%Q -> (longitude < 2 ^ 56)%Q ->
  (C.dsub longitude 360 == longitude - 360)%Q.
Proof.
  intros Hrep Hlo Hhi. unfold C.dsub.
  assert (N : ~ (longitude == 0)%Q) by (intro E; rewrite E in Hlo; discriminate Hlo).
  destruct (exponent_spec longitude N) as [E1 E2].
  rewrite (Qabs_pos longitude) in E1, E2 by lra.
  set (e := C.exponent longitude) in *.
  assert (He7 : 7 <= e).
  { assert (H : (2 ^ 7 < 2 ^ (e + 1))%Q).
    { apply Qlt_trans with longitude; [ | exact E2 ].
      apply Qlt_trans with 180%Q; [ reflexivity | exact Hlo ]. }
    apply pow2_lt_inv in H. lia. }
  assert (He55 : e <= 55).
  { assert (H : (2 ^ e < 2 ^ 56)%Q) by (apply Qle_lt_trans with longitude; assumption).
    apply pow2_lt_inv in H. lia. }
  rewrite (b64_unfold longitude N) in Hrep. fold e in Hrep.
  rewrite Z.max_l in Hrep by lia.
  set (M := C.round_even (longitude / 2 ^ (e - 52))) in Hrep.
  assert (H360 : (360 == inject_Z (45 * 2 ^ (55 - e)) * 2 ^ (e - 52))%Q).
  { rewrite inject_Z_mult, (pow2_Z (55 - e)) by lia.
    rewrite <- Qmult_assoc, <- pow2_add.
    replace (55 - e + (e - 52)) with 3 by lia. reflexivity. }
  destruct (Qeq_dec (longitude - 360) 0) as [Z0 | NZ];
    [ rewrite (b64_comp _ _ Z0), b64_0, Z0; reflexivity | ].
  apply (b64_multiple _ (M - 45 * 2 ^ (55 - e)) (e - 52)).
  - rewrite inject_Z_sub.
    apply Qeq_trans
      with (inject_Z M * 2 ^ (e - 52)
            - inject_Z (45 * 2 ^ (55 - e)) * 2 ^ (e - 52))%Q;
      [ | generalize (2 ^ (e - 52))%Q (inject_Z M)
            (inject_Z (45 * 2 ^ (55 - e))); intros; ring ].
    unfold Qminus. apply Qplus_comp; [ symmetry; exact Hrep | ].
    apply Qopp_comp. exact H360.
  - assert (Hex : C.exponent (longitude - 360) <= e).
    { apply exponent_le; [ exact NZ | ].
      rewrite (Qabs_pos longitude) by lra.
      apply Qabs_Qle_condition. split; lra. }
    lia.
Qed.

Ltac by_computation := vm_compute; discriminate.

(** From here on the rounding is used through the lemmas above. *)
Opaque C.b64.

(** ** Pier side *)

Lemma pier_of_HA_west (HA : Q) :
  pier_of_HA HA = PIER_WEST <-> west_quadrants HA.
Proof.
  unfold pier_of_HA, west_quadrants.
  destruct (C.dlt (-12) HA) eqn:E1; destruct (C.dle HA (-6)) eqn:E2;
  destruct (C.dle 0 HA) eqn:E3; destruct (C.dlt HA 6) eqn:E4; simpl;
  repeat match goal with
         | H : C.dlt _ _ = true |- _ => apply dlt_spec in H
         | H : C.dlt _ _ = false |- _ => apply dlt_false in H
         | H : C.dle _ _ = true |- _ => apply dle_spec in H
         | H : C.dle _ _ = false |- _ => apply dle_false in H
         end;
  split; intro H; try reflexivity; try discriminate; auto;
  exfalso; destruct H as [[Ha Hb] | [Ha Hb]];
  first [ exact (Qlt_not_le _ _ Ha E1) | exact (Qlt_not_le _ _ E2 Hb)
        | exact (Qlt_not_le _ _ E3 Ha) | exact (Qlt_not_le _ _ Hb E4) ].
Qed.

Lemma pier_of_HA_east (HA : Q) :
  pier_of_HA HA = PIER_EAST <-> ~ west_quadrants HA.
Proof.
  rewrite <- pier_of_HA_west. unfold pier_of_HA.
  destruct (_ || _); split; intro H; try reflexivity; try discriminate.
  exfalso. apply H. reflexivity.
Qed.

Lemma Goto_target_pierSide (env : Environment) (d : Driver) (ra dec : Q) :
  _pierSide (targetPosition (snd (Goto env d ra dec)))
  = Goto_pierSide (getLST env) ra.
Proof.
  unfold Goto.
  destruct (EqNP_busy env && negb (abortSlew_ok env));
  [ | destruct (setTargetPosition_error env) ]; reflexivity.
Qed.

(** C1, as the code has it: [Goto] computes [HA = fmod(LST - RA + 12, 12)] in
    binary64, the difference and the sum each rounded to the nearest double,
    and gives the target the pier side WEST exactly when [HA] lies in
    (-12,-6] or in [0,6), and EAST otherwise; HA = -7 selects WEST, HA = -6
    selects WEST, and HA = +3, which lies in [0,6), selects WEST as well.
    The rounding decides at the ends of the ranges: for LST the double
    nearest to 6.1 and RA the double nearest to 0.1 the hour angle computed
    is 6 and the pier side EAST, where the exact hour angle is below 6. *)
Theorem C1_pier_side_selection :
  forall (env : Environment) (d : Driver) (ra dec : Q),
    let HA := C.fmod (C.dadd (C.dsub (getLST env) ra) 12) 12 in
    let side := _pierSide (targetPosition (snd (Goto env d ra dec))) in
    (side = PIER_WEST <-> west_quadrants HA) /\
    (side = PIER_EAST <-> ~ west_quadrants HA) /\
    pier_of_HA (-7) = PIER_WEST /\
    pier_of_HA (-6) = PIER_WEST /\
    pier_of_HA 3 = PIER_WEST /\
    (Goto_HA (C.b64 (61 # 10)) (C.b64 (1 # 10)) == 6)%Q /\
    Goto_pierSide (C.b64 (61 # 10)) (C.b64 (1 # 10)) = PIER_EAST /\
    west_quadrants (C.fmod (C.b64 (61 # 10) - C.b64 (1 # 10) + 12) 12).
Proof.
  intros env d ra dec HA side. subst side.
  rewrite Goto_target_pierSide. unfold Goto_pierSide, Goto_HA. fold HA.
  split; [apply pier_of_HA_west|].
  split; [apply pier_of_HA_east|].
  split; [ reflexivity | ]. split; [ reflexivity | ]. split; [ reflexivity | ].
  split; [ vm_compute; reflexivity | ].
  split; [ vm_compute; reflexivity | ].
  right. split; vm_compute; [ discriminate | reflexivity ].
Qed.

(** C1, as the claim states it, fails: with LST = 3 h and RA = 0 h the hour
    angle is +3 and the pier side chosen is WEST, not EAST. *)
Lemma C1_HA_plus_3_is_west :
  (Goto_HA 3 0 == 3)%Q /\
  Goto_pierSide 3 0 = PIER_WEST /\
  Goto_pierSide 3 0 <> PIER_EAST.
Proof.
  split; [ vm_compute; reflexivity | ].
  split; [ vm_compute; reflexivity | vm_compute; discriminate ].
Qed.

(** ** The table of slew rates *)

(** C7: in the table of five slew rates, every adjacent pair satisfies
    [adjustments[i+1].epsilon <= adjustments[i].distance], and the loop of
    assertions of the constructor passes. *)
Theorem C7_adjacent_tiers (i : nat) :
  (i + 1 < List.length adjustments)%nat ->
  (epsilon (adjustment_at (i + 1)) <= distance (adjustment_at i))%Q /\
  constructor_asserts = true /\
  List.length adjustments = 5%nat.
Proof.
  intro Hi. split; [ | split; reflexivity ].
  do 4 (destruct i as [|i]; [vm_compute; discriminate|]).
  simpl in Hi. lia.
Qed.

Lemma C7_adjacent_tiers_witness :
  (epsilon (adjustment_at (0 + 1)) <= distance (adjustment_at 0))%Q /\
  constructor_asserts = true /\
  List.length adjustments = 5%nat.
Proof. apply (C7_adjacent_tiers 0). simpl. lia. Defined.

(** ** Distance in right ascension *)

Lemma RA_delta_ticks_cases (a b : MechanicalPoint) :
  let raw := _RAm b - _RAm a in
  (12 * 3600 < raw /\ RA_delta_ticks a b = raw - 24 * 3600) \/
  (raw < -12 * 3600 /\ RA_delta_ticks a b = raw + 24 * 3600) \/
  (-12 * 3600 <= raw <= 12 * 3600 /\ RA_delta_ticks a b = raw) \/
  (12 * 3600 < raw /\ raw - 24 * 3600 < -12 * 3600 /\ RA_delta_ticks a b = raw).
Proof.
  intro raw. unfold RA_delta_ticks. fold raw.
  destruct (12 * 3600 <? raw) eqn:E1.
  - apply Z.ltb_lt in E1.
    destruct (raw - 24 * 3600 <? -12 * 3600) eqn:E2.
    + apply Z.ltb_lt in E2. right. right. right. repeat split; try lia.
    + apply Z.ltb_ge in E2. left. split; lia.
  - apply Z.ltb_ge in E1.
    destruct (raw <? -12 * 3600) eqn:E2.
    + apply Z.ltb_lt in E2. right. left. split; lia.
    + apply Z.ltb_ge in E2. right. right. left. split; lia.
Qed.

Lemma of_long_exact (n : Z) :
  Z.abs n <= 2 ^ 53 -> (C.of_long n == inject_Z n)%Q.
Proof. apply b64_Z. Qed.

(** The quotient by 3600 of a number of ticks, rounded: it is within
    [2^-53] of the exact quotient, relatively. *)
Lemma ticks_over_3600 (n : Z) :
  Z.abs n <= 2 ^ 53 ->
  (C.ddiv (C.of_long n) 3600 == C.b64 (inject_Z n / 3600))%Q /\
  (Qabs (C.ddiv (C.of_long n) 3600 - inject_Z n / 3600)
   <= Qabs (inject_Z n / 3600) * (1 # 2 ^ 53))%Q.
Proof.
  intro Hn.
  assert (E : (C.ddiv (C.of_long n) 3600 == C.b64 (inject_Z n / 3600))%Q).
  { unfold C.ddiv. apply b64_comp. rewrite (of_long_exact n Hn). reflexivity. }
  split; [ exact E | ]. rewrite E.
  destruct (Z.eq_dec n 0) as [-> | Hne].
  - vm_compute. discriminate.
  - apply b64_error.
    apply Qle_trans with (1 # 3600)%Q; [ vm_compute; discriminate | ].
    assert (H1 : (1 <= Qabs (inject_Z n))%Q).
    { change (Qabs (inject_Z n)) with (inject_Z (Z.abs n)).
      change 1%Q with (inject_Z 1). rewrite <- Zle_Qle. lia. }
    assert (E2 : (inject_Z n / 3600 == inject_Z n * (1 # 3600))%Q)
      by (field; discriminate).
    rewrite E2, Qabs_Qmult. change (Qabs (1 # 3600)) with (1 # 3600)%Q. lra.
Qed.

Lemma ticks_over_3600_le (n m : Z) :
  n <= m -> (C.ddiv (C.of_long n) 3600 <= C.ddiv (C.of_long m) 3600)%Q.
Proof.
  intro H. unfold C.ddiv, C.of_long. apply b64_le.
  assert (L : (C.b64 (inject_Z n) <= C.b64 (inject_Z m))%Q)
    by (apply b64_le; rewrite <- Zle_Qle; exact H).
  set (x := C.b64 (inject_Z n)) in *. set (y := C.b64 (inject_Z m)) in *.
  assert (Ex : (x / 3600 == x * (1 # 3600))%Q) by (field; discriminate).
  assert (Ey : (y / 3600 == y * (1 # 3600))%Q) by (field; discriminate).
  rewrite Ex, Ey. lra.
Qed.

Lemma ticks_over_3600_opp (n : Z) :
  (C.ddiv (C.of_long (- n)) 3600 == - C.ddiv (C.of_long n) 3600)%Q.
Proof.
  unfold C.ddiv, C.of_long. rewrite <- b64_opp. apply b64_comp.
  rewrite inject_Z_opp, b64_opp. field.
Qed.

Lemma ticks_over_3600_0 : (C.ddiv (C.of_long 0) 3600 == 0)%Q.
Proof. vm_compute. reflexivity. Qed.

(** The quotient by 3600 of a number of ticks is at least that of [g] in
    magnitude when the number is not below [g] in magnitude. *)
Lemma ticks_over_3600_abs (n g : Z) :
  0 <= g -> g <= Z.abs n ->
  (C.ddiv (C.of_long g) 3600 <= Qabs (C.ddiv (C.of_long n) 3600))%Q.
Proof.
  intros Hg Hn.
  destruct (Z_le_gt_dec 0 n) as [Hpos | Hneg].
  - apply Qle_trans with (C.ddiv (C.of_long n) 3600);
      [ apply ticks_over_3600_le; lia | apply Qle_Qabs ].
  - pose proof (ticks_over_3600_le g (- n) ltac:(lia)) as L.
    rewrite ticks_over_3600_opp in L.
    apply Qle_trans with (1 := L). rewrite <- Qabs_opp. apply Qle_Qabs.
Qed.

(** C6, as the code has it: for two points whose RA ticks are normalized,
    [RA_degrees_to] is the difference [other.raTicks - raTicks] brought by a
    multiple of 24 h into the closed range [-12h, +12h], times 15, in degrees,
    as the nearest double, which is within [2^-45] of it; the distance from
    23:59:59 to 00:00:01 is +2 seconds of time, that is +30 seconds of arc as
    the nearest double. *)
Theorem C6_RA_circular_distance (a b : MechanicalPoint) :
  RA_normalized a -> RA_normalized b ->
  let delta := RA_delta_ticks a b in
  -12 * 3600 <= delta <= 12 * 3600 /\
  (delta = _RAm b - _RAm a \/
   delta = _RAm b - _RAm a - 24 * 3600 \/
   delta = _RAm b - _RAm a + 24 * 3600) /\
  (RA_degrees_to a b == C.b64 (inject_Z delta * 15 / 3600))%Q /\
  (Qabs (RA_degrees_to a b - inject_Z delta * 15 / 3600) <= 1 # 2 ^ 45)%Q /\
  RA_delta_ticks (mkPoint 86399 0 PIER_EAST) (mkPoint 1 0 PIER_EAST) = 2 /\
  (RA_degrees_to (mkPoint 86399 0 PIER_EAST) (mkPoint 1 0 PIER_EAST)
   == C.b64 (30 / 3600))%Q /\
  (Qabs (RA_degrees_to (mkPoint 86399 0 PIER_EAST) (mkPoint 1 0 PIER_EAST)
         - 30 / 3600) <= 1 # 2 ^ 59)%Q.
Proof.
  unfold RA_normalized. intros Ha Hb. cbv zeta.
  pose proof (RA_delta_ticks_cases a b) as Hc. cbv zeta in Hc.
  split; [ lia | ]. split; [ lia | ].
  assert (Hd : -12 * 3600 <= RA_delta_ticks a b <= 12 * 3600) by lia.
  assert (Hn : Z.abs (RA_delta_ticks a b * 15) <= 2 ^ 53).
  { assert (Z.abs (RA_delta_ticks a b * 15) <= 648000) by lia.
    assert (648000 <= 2 ^ 53) by (vm_compute; discriminate). lia. }
  destruct (ticks_over_3600 _ Hn) as [E1 E2].
  rewrite inject_Z_mult in E1, E2. change (inject_Z 15) with 15%Q in E1, E2.
  split; [ exact E1 | ].
  split.
  { unfold RA_degrees_to.
    apply Qle_trans with (1 := E2).
    assert (Hq : (Qabs (inject_Z (RA_delta_ticks a b) * 15 / 3600) <= 180)%Q).
    { apply Qabs_Qle_condition.
      assert (L1 : (inject_Z (-12 * 3600) <= inject_Z (RA_delta_ticks a b))%Q)
        by (rewrite <- Zle_Qle; lia).
      assert (L2 : (inject_Z (RA_delta_ticks a b) <= inject_Z (12 * 3600))%Q)
        by (rewrite <- Zle_Qle; lia).
      change (inject_Z (-12 * 3600)) with (-43200)%Q in L1.
      change (inject_Z (12 * 3600)) with 43200%Q in L2.
      set (t := inject_Z (RA_delta_ticks a b)) in *.
      assert (Et : (t * 15 / 3600 == t * (15 # 3600))%Q) by (field; discriminate).
      rewrite Et. split; lra. }
    change (1 # 2 ^ 53)%Q with (1 # 9007199254740992)%Q.
    change (1 # 2 ^ 45)%Q with (1 # 35184372088832)%Q.
    set (q := Qabs (inject_Z (RA_delta_ticks a b) * 15 / 3600)) in *. lra. }
  split; [ reflexivity | ].
  split; vm_compute; [ reflexivity | discriminate ].
Qed.

Lemma C6_RA_circular_distance_witness :
  let a := mkPoint 86399 0 PIER_EAST in
  let b := mkPoint 1 0 PIER_EAST in
  let delta := RA_delta_ticks a b in
  -12 * 3600 <= delta <= 12 * 3600 /\
  (delta = _RAm b - _RAm a \/
   delta = _RAm b - _RAm a - 24 * 3600 \/
   delta = _RAm b - _RAm a + 24 * 3600) /\
  (RA_degrees_to a b == C.b64 (inject_Z delta * 15 / 3600))%Q /\
  (Qabs (RA_degrees_to a b - inject_Z delta * 15 / 3600) <= 1 # 2 ^ 45)%Q /\
  RA_delta_ticks (mkPoint 86399 0 PIER_EAST) (mkPoint 1 0 PIER_EAST) = 2 /\
  (RA_degrees_to (mkPoint 86399 0 PIER_EAST) (mkPoint 1 0 PIER_EAST)
   == C.b64 (30 / 3600))%Q /\
  (Qabs (RA_degrees_to (mkPoint 86399 0 PIER_EAST) (mkPoint 1 0 PIER_EAST)
         - 30 / 3600) <= 1 # 2 ^ 59)%Q.
Proof.
  apply (C6_RA_circular_distance (mkPoint 86399 0 PIER_EAST)
           (mkPoint 1 0 PIER_EAST)); unfold RA_normalized; simpl; lia.
Defined.

(** C6, as the claim states it, fails at the lower end of the range: from
    12:00:00 to 00:00:00 the wrapped difference is -12 h, which is outside
    (-12h, +12h], and the distance is -180 degrees. *)
Lemma C6_minus_12h_is_kept :
  let a := mkPoint (12 * 3600) 0 PIER_EAST in
  let b := mkPoint 0 0 PIER_EAST in
  RA_normalized a /\ RA_normalized b /\
  RA_delta_ticks a b = -12 * 3600 /\
  ~ (-12 * 3600 < RA_delta_ticks a b <= 12 * 3600) /\
  (RA_degrees_to a b == -180)%Q.
Proof.
  unfold RA_normalized. simpl.
  split; [ lia | split; [ lia | split; [ reflexivity | split ] ] ].
  - vm_compute. intros [H _]. discriminate H.
  - vm_compute. reflexivity.
Qed.

(** ** The decoders, by cases *)

Lemma parseStringRA_eq (p : MechanicalPoint) (buf : string) (n : Z) :
  parseStringRA p buf n
  = if n <? 8 then (true, p)
    else if fst (C.sscanf_3 buf) =? 3
         then (false,
               set_RAm p (RA_ticks_of (_pierSide p)
                            (fst (fst (snd (C.sscanf_3 buf))))
                            (snd (fst (snd (C.sscanf_3 buf))))
                            (snd (snd (C.sscanf_3 buf)))))
         else (true, p).
Proof.
  unfold parseStringRA, RA_ticks_of, sizeof_RA_Format_ptr.
  destruct (C.sscanf_3 buf) as [k [[h m] s]]. reflexivity.
Qed.

Lemma parseStringDEC_eq (p : MechanicalPoint) (buf : string) (n : Z) :
  parseStringDEC p buf n
  = if n <? 9 then (true, p)
    else
      let b := strncpy 10 buf in
      if (C.code_of (byte_at b 1) <? 48) || (73 <? C.code_of (byte_at b 1))
      then (true, p)
      else (false, set_DECm p (DEC_ticks_of (_pierSide p) b)).
Proof.
  unfold parseStringDEC, DEC_ticks_of, sizeof_DEC_Format.
  change (Z.to_nat 10) with 10%nat. change (10 - 1) with 9.
  destruct (n <? 9); [ reflexivity | ]. cbv zeta.
  destruct (_ || _); [ reflexivity | ].
  destruct (hundreds_switch _) as [h t]. reflexivity.
Qed.

Lemma RA_ticks_of_unknown (h m s : Z) :
  RA_ticks_of PIER_UNKNOWN h m s = RA_ticks_of PIER_EAST h m s.
Proof. reflexivity. Qed.

Lemma DEC_ticks_of_unknown (b : string) :
  DEC_ticks_of PIER_UNKNOWN b = DEC_ticks_of PIER_WEST b.
Proof. reflexivity. Qed.

Lemma point_eta (p q : MechanicalPoint) :
  _RAm p = _RAm q -> _DECm p = _DECm q -> _pierSide p = _pierSide q -> p = q.
Proof. destruct p, q. simpl. intros; subst; reflexivity. Qed.

(** ** Unknown pier side *)

(** C10: for a point whose pier side is unknown, RA is encoded and decoded as
    for pier side EAST (no offset of 12 h), and DEC is encoded and decoded as
    for pier side WEST (orientation +1); the encoders do not reject such a
    point.  The hours written are those of the RA ticks and the ticks read
    are those of the text, with no offset; the DEC value written is the DEC
    ticks less 90 degrees, and the DEC ticks read lie on the side of 90
    degrees opposite to the one that EAST gives.  The point at RA 18 h, DEC
    ticks 0 is written ["18:00:00"] (EAST writes the same, WEST ["06:00:00"])
    and ["-90:00:00"] (WEST writes the same, EAST ["+90:00:00"]); the text
    ["18:00:00"] is read as 64800 RA ticks (EAST reads the same, WEST 21600),
    the text ["+45:00:00"] as 486000 DEC ticks (WEST reads the same, EAST
    162000), and the text ["-90:00:00"] as DEC ticks 0. *)
Theorem C10_unknown_pier_side_mixes (p : MechanicalPoint) (buf : string) (n : Z) :
  let u := setPierSide p PIER_UNKNOWN in
  let e := setPierSide p PIER_EAST in
  let w := setPierSide p PIER_WEST in
  toStringRA u n = toStringRA e n /\
  fst (parseStringRA u buf n) = fst (parseStringRA e buf n) /\
  _RAm (snd (parseStringRA u buf n)) = _RAm (snd (parseStringRA e buf n)) /\
  toStringDEC u n = toStringDEC w n /\
  fst (parseStringDEC u buf n) = fst (parseStringDEC w buf n) /\
  _DECm (snd (parseStringDEC u buf n)) = _DECm (snd (parseStringDEC w buf n)) /\
  toStringRA (mkPoint 64800 0 PIER_UNKNOWN) 9 = Some "18:00:00" /\
  toStringRA (mkPoint 64800 0 PIER_EAST) 9 = Some "18:00:00" /\
  toStringRA (mkPoint 64800 0 PIER_WEST) 9 = Some "06:00:00" /\
  toStringDEC (mkPoint 64800 0 PIER_UNKNOWN) 10 = Some "-90:00:00" /\
  toStringDEC (mkPoint 64800 0 PIER_WEST) 10 = Some "-90:00:00" /\
  toStringDEC (mkPoint 64800 0 PIER_EAST) 10 = Some "+90:00:00" /\
  toStringRA u n
  = snprintf_result
      (C.fmt_02d (Z.rem (24 + C.to_int (Z.quot (_RAm p) 3600)) 24) ++ ":" ++
       C.fmt_02d (Z.rem (C.to_int (Z.quot (_RAm p) 60)) 60) ++ ":" ++
       C.fmt_02d (Z.rem (C.to_int (_RAm p)) 60)) n /\
  DEC_value u = _DECm p - 90 * 3600 /\
  parseStringRA u buf n
  = (if n <? 8 then (true, u)
     else if fst (C.sscanf_3 buf) =? 3
          then (false,
                set_RAm u
                  (Z.rem (24 * 3600
                          + Z.rem (fst (fst (snd (C.sscanf_3 buf)))) 24 * 3600
                          + snd (fst (snd (C.sscanf_3 buf))) * 60
                          + snd (snd (C.sscanf_3 buf)))
                     (24 * 3600)))
          else (true, u)) /\
  (forall b : string,
      DEC_ticks_of PIER_UNKNOWN b - 90 * 3600
      = - (DEC_ticks_of PIER_EAST b - 90 * 3600)) /\
  parseStringRA (mkPoint 0 0 PIER_UNKNOWN) "18:00:00" 9
  = (false, mkPoint 64800 0 PIER_UNKNOWN) /\
  parseStringRA (mkPoint 0 0 PIER_EAST) "18:00:00" 9
  = (false, mkPoint 64800 0 PIER_EAST) /\
  parseStringRA (mkPoint 0 0 PIER_WEST) "18:00:00" 9
  = (false, mkPoint 21600 0 PIER_WEST) /\
  parseStringDEC (mkPoint 0 0 PIER_UNKNOWN) "+45:00:00" 10
  = (false, mkPoint 0 486000 PIER_UNKNOWN) /\
  parseStringDEC (mkPoint 0 0 PIER_WEST) "+45:00:00" 10
  = (false, mkPoint 0 486000 PIER_WEST) /\
  parseStringDEC (mkPoint 0 0 PIER_EAST) "+45:00:00" 10
  = (false, mkPoint 0 162000 PIER_EAST) /\
  parseStringDEC (mkPoint 64800 77 PIER_UNKNOWN) "-90:00:00" 10
  = (false, mkPoint 64800 0 PIER_UNKNOWN).
Proof.
  intros u e w. subst u e w.
  rewrite !parseStringRA_eq, !parseStringDEC_eq.
  cbn [_pierSide setPierSide].
  rewrite RA_ticks_of_unknown.
  split; [ reflexivity | ].
  split; [ destruct (n <? 8); [ reflexivity | ];
           destruct (_ =? 3); reflexivity | ].
  split; [ destruct (n <? 8); [ reflexivity | ];
           destruct (_ =? 3); reflexivity | ].
  split; [ reflexivity | ].
  cbv zeta. rewrite DEC_ticks_of_unknown.
  split; [ destruct (n <? 9); [ reflexivity | ];
           destruct (_ || _); reflexivity | ].
  split; [ destruct (n <? 9); [ reflexivity | ];
           destruct (_ || _); reflexivity | ].
  do 6 (split; [ reflexivity | ]).
  split; [ reflexivity | ].
  split; [ reflexivity | ].
  split; [ reflexivity | ].
  split.
  { intro b. unfold DEC_ticks_of.
    destruct (hundreds_switch (byte_at b 1)) as [h t].
    cbn [pier_eqb]. destruct (Ascii.eqb (byte_at b 0) "-"); lia. }
  repeat split; vm_compute; reflexivity.
Qed.


(** ** Checking a property on a range of integers *)

Lemma Z_range_In (lo : Z) (n : nat) (z : Z) :
  lo <= z < lo + Z.of_nat n -> In z (Z_range lo n).
Proof.
  intro H. unfold Z_range. apply in_map_iff.
  exists (Z.to_nat (z - lo)). split; [ lia | ].
  apply in_seq. lia.
Qed.

Lemma forall_range (P : Z -> bool) (lo : Z) (n : nat) :
  forallb P (Z_range lo n) = true ->
  forall z, lo <= z < lo + Z.of_nat n -> P z = true.
Proof.
  intros H z Hz. rewrite forallb_forall in H. apply H.
  apply Z_range_In. exact Hz.
Qed.

(** ** Casts and formats *)

Lemma to_int_small (z : Z) : -2147483648 <= z < 2147483648 -> C.to_int z = z.
Proof.
  intro H. unfold C.to_int.
  rewrite Z.mod_small by lia. lia.
Qed.

Lemma length_append (s t : string) :
  String.length (s ++ t) = (String.length s + String.length t)%nat.
Proof. induction s as [|c s IH]; simpl; [ reflexivity | now rewrite IH ]. Qed.

Lemma fmt_02d_length (m : Z) :
  0 <= m < 100 -> String.length (C.fmt_02d m) = 2%nat.
Proof.
  intro H.
  assert (Hall : forallb (fun z => Nat.eqb (String.length (C.fmt_02d z)) 2)
                   (Z_range 0 100) = true) by (vm_compute; reflexivity).
  apply Nat.eqb_eq.
  apply (forall_range _ 0 100 Hall). lia.
Qed.

Lemma snprintf_result_fits (out : string) (n : Z) :
  (0 < String.length out)%nat ->
  Z.of_nat (String.length out) < n < 2147483648 ->
  snprintf_result out n = Some out.
Proof.
  intros Hpos Hn. unfold snprintf_result.
  rewrite to_int_small by lia.
  replace (0 <? Z.of_nat (String.length out)) with true
    by (symmetry; apply Z.ltb_lt; lia).
  replace (Z.of_nat (String.length out) <? n) with true
    by (symmetry; apply Z.ltb_lt; lia).
  reflexivity.
Qed.

(** ** Encoding of DEC *)

Lemma DEC_degrees_bound (p : MechanicalPoint) : Z.abs (DEC_degrees p) <= 255.
Proof.
  unfold DEC_degrees.
  pose proof (Z.rem_bound_abs (C.to_int (DEC_value p ÷ 3600)) 256) as H.
  lia.
Qed.

Lemma DEC_minutes_bound (p : MechanicalPoint) :
  DEC_in_range p -> 0 <= DEC_minutes p < 60.
Proof.
  unfold DEC_in_range, DEC_minutes. intro H.
  assert (Hq : 0 <= Z.abs (DEC_value p) ÷ 60 < 2147483648).
  { split; [ apply Z.quot_pos; lia | ].
    apply Z.quot_lt_upper_bound; lia. }
  rewrite to_int_small by lia.
  apply Z.rem_bound_pos; lia.
Qed.

Lemma DEC_seconds_bound (p : MechanicalPoint) :
  DEC_in_range p -> 0 <= DEC_seconds p < 60.
Proof.
  unfold DEC_in_range, DEC_seconds. intro H.
  rewrite to_int_small by lia.
  apply Z.rem_bound_pos; lia.
Qed.

Lemma high_digit_table (degrees : Z) :
  -255 <= degrees <= 255 ->
  high_digit degrees = Some (high_digit_of (Z.abs degrees)).
Proof.
  intro H.
  assert (Hall : forallb
                   (fun z => match high_digit z with
                             | Some c => Ascii.eqb c (high_digit_of (Z.abs z))
                             | None => false
                             end) (Z_range (-255) 511) = true)
    by (vm_compute; reflexivity).
  pose proof (forall_range _ (-255) 511 Hall degrees) as Hd.
  cbv beta in Hd.
  destruct (high_digit degrees) as [c|]; [ | discriminate Hd; lia ].
  f_equal. apply Ascii.eqb_eq. apply Hd. lia.
Qed.

Lemma formatDEC_out_of_range (degrees minutes seconds n : Z) :
  255 < Z.abs degrees -> formatDEC degrees minutes seconds n = None.
Proof.
  intro H. unfold formatDEC.
  destruct (degrees <? -255) eqn:E1; [ reflexivity | ].
  destruct (255 <? degrees) eqn:E2; [ reflexivity | ].
  apply Z.ltb_ge in E1. apply Z.ltb_ge in E2. lia.
Qed.

Lemma formatDEC_in_range (degrees minutes seconds n : Z) :
  -255 <= degrees <= 255 -> 0 <= minutes < 60 -> 0 <= seconds < 60 ->
  10 <= n < 2147483648 ->
  formatDEC degrees minutes seconds n
  = Some (String (if 0 <=? degrees then "+"%char else "-"%char)
            (String (high_digit_of (Z.abs degrees))
               (String (C.char_of (48 + Z.rem (Z.abs degrees) 10))
                  (":" ++ C.fmt_02d minutes ++ ":" ++ C.fmt_02d seconds)))).
Proof.
  intros Hd Hm Hs Hn. unfold formatDEC.
  replace (degrees <? -255) with false by (symmetry; apply Z.ltb_ge; lia).
  replace (255 <? degrees) with false by (symmetry; apply Z.ltb_ge; lia).
  simpl orb. cbv iota.
  rewrite (high_digit_table degrees Hd).
  apply snprintf_result_fits.
  - simpl. lia.
  - simpl String.length. rewrite length_append. simpl String.length.
    rewrite !fmt_02d_length by lia. simpl. lia.
Qed.

(** No point whose DEC value is in the range of an [int] makes [toStringDEC]
    fail, whatever the number of degrees of the value. *)
Lemma toStringDEC_total (p : MechanicalPoint) (n : Z) :
  DEC_in_range p -> 10 <= n < 2147483648 ->
  toStringDEC p n
  = Some (String (if 0 <=? DEC_degrees p then "+"%char else "-"%char)
            (String (high_digit_of (Z.abs (DEC_degrees p)))
               (String (C.char_of (48 + Z.rem (Z.abs (DEC_degrees p)) 10))
                  (":" ++ C.fmt_02d (DEC_minutes p) ++ ":"
                   ++ C.fmt_02d (DEC_seconds p))))).
Proof.
  intros Hr Hn. unfold toStringDEC.
  pose proof (DEC_degrees_bound p) as Hd.
  apply formatDEC_in_range; try assumption.
  - lia.
  - apply DEC_minutes_bound, Hr.
  - apply DEC_seconds_bound, Hr.
Qed.

(** C3, as the code has it: for a point whose DEC value is in the range of an
    [int], [toStringDEC] writes the sign, a high digit, a low digit and the
    minutes and seconds.  The high digit is ['0' + tens] for a magnitude of
    degrees below 100 and [':' + (tensHundreds - 10)] for tensHundreds in
    [10,25]: a magnitude in 230..239 gives ['G'], a magnitude of 23 gives
    ['2'] and ['3'], 9 gives ['0'] and ['9'], 0 gives ['0'] and ['0'].  The
    formatting step fails for every number of degrees of magnitude above 255;
    [toStringDEC] reduces the degrees modulo 256 before that step, so their
    magnitude never exceeds 255. *)
Theorem C3_DEC_high_digit_table (p : MechanicalPoint) (n : Z) :
  DEC_in_range p -> 10 <= n < 2147483648 ->
  let a := Z.abs (DEC_degrees p) in
  a <= 255 /\
  (exists high low rest,
      toStringDEC p n
      = Some (String (if 0 <=? DEC_degrees p then "+"%char else "-"%char)
                (String high (String low rest))) /\
      low = C.char_of (48 + Z.rem a 10) /\
      (a < 100 -> high = C.char_of (48 + a ÷ 10)) /\
      (10 <= a ÷ 10 <= 25 -> high = C.char_of (58 + (a ÷ 10 - 10))) /\
      (a ÷ 10 = 23 -> high = "G"%char) /\
      (a = 23 -> high = "2"%char /\ low = "3"%char) /\
      (a = 9 -> high = "0"%char /\ low = "9"%char) /\
      (a = 0 -> high = "0"%char /\ low = "0"%char)) /\
  (forall degrees minutes seconds len,
      255 < Z.abs degrees -> formatDEC degrees minutes seconds len = None).
Proof.
  intros Hr Hn a.
  pose proof (DEC_degrees_bound p) as Hd. fold a in Hd.
  split; [ exact Hd | ].
  split; [ | intros; now apply formatDEC_out_of_range ].
  exists (high_digit_of a), (C.char_of (48 + Z.rem a 10)).
  eexists. split; [ apply (toStringDEC_total p n Hr Hn) | ].
  split; [ reflexivity | ].
  unfold high_digit_of.
  split; [ intro H; apply Z.ltb_lt in H; now rewrite H | ].
  split.
  { intros [H _].
    assert (E : (a <? 100) = false).
    { apply Z.ltb_ge. destruct (Z_lt_le_dec a 100) as [Hlt|]; [ | assumption ].
      exfalso.
      assert (a ÷ 10 < 10) by (apply Z.quot_lt_upper_bound; lia). lia. }
    now rewrite E. }
  split.
  { intro H.
    assert (E : (a <? 100) = false).
    { apply Z.ltb_ge. destruct (Z_lt_le_dec a 100) as [Hlt|]; [ | assumption ].
      exfalso.
      assert (a ÷ 10 < 10) by (apply Z.quot_lt_upper_bound; lia). lia. }
    rewrite E, H. reflexivity. }
  split; [ intro H; rewrite H; split; reflexivity | ].
  split; intro H; rewrite H; split; reflexivity.
Qed.

Lemma C3_DEC_high_digit_table_witness :
  toStringDEC (mkPoint 0 (90 * 3600 + 235 * 3600 + 61) PIER_WEST) 10
  = Some "+G5:01:01" /\
  Z.abs (DEC_degrees (mkPoint 0 (90 * 3600 + 235 * 3600 + 61) PIER_WEST)) <= 255.
Proof.
  split; [ reflexivity | ].
  refine (proj1 (C3_DEC_high_digit_table
                   (mkPoint 0 (90 * 3600 + 235 * 3600 + 61) PIER_WEST) 10 _ _)).
  - unfold DEC_in_range. simpl. lia.
  - lia.
Defined.

(** C3, as the claim states it, fails: a point 23 degrees from the pole is
    written with the high digit ['2'], not ['G']; and a value of 256 degrees
    does not make the encoding fail, it is written as 0 degrees. *)
Lemma C3_degrees_23_is_not_G :
  let p := mkPoint 0 (90 * 3600 + 23 * 3600) PIER_WEST in
  let q := mkPoint 0 (90 * 3600 + 256 * 3600) PIER_WEST in
  DEC_degrees p = 23 /\
  toStringDEC p 10 = Some "+23:00:00" /\
  (forall s, toStringDEC p 10 = Some s -> String.get 1 s <> Some "G"%char) /\
  DEC_value q ÷ 3600 = 256 /\
  toStringDEC q 10 = Some "+00:00:00".
Proof.
  cbv zeta.
  split; [ reflexivity | ].
  split; [ reflexivity | ].
  split; [ | split; reflexivity ].
  intros s H. vm_compute in H. injection H as <-. discriminate.
Qed.

(** ** Decoding of RA *)

Lemma digit_inv (c : ascii) :
  C.isdigit c = true ->
  In c ["0"; "1"; "2"; "3"; "4"; "5"; "6"; "7"; "8"; "9"]%char.
Proof.
  destruct c as [[] [] [] [] [] [] [] []]; vm_compute; intro H;
    try discriminate H; tauto.
Qed.

Ltac each_digit H :=
  apply digit_inv in H; simpl in H;
  repeat (destruct H as [H|H]; [ subst | ]); [ .. | contradiction ].

Lemma digit_value_bound (c : ascii) :
  C.isdigit c = true -> 0 <= C.digit_value c <= 9.
Proof. intro H. each_digit H; vm_compute; split; discriminate. Qed.

Lemma scan_2d_two_digits (a b : ascii) (r : string) :
  C.isdigit a = true -> C.isdigit b = true ->
  C.scan_2d (String a (String b r)) = Some (two_digits a b, r).
Proof. intros Ha Hb. each_digit Ha; each_digit Hb; reflexivity. Qed.

Lemma cstr_digit (c : ascii) (s : string) :
  C.isdigit c = true -> C.cstr (String c s) = String c (C.cstr s).
Proof. intro H. each_digit H; reflexivity. Qed.

Lemma cstr_colon (s : string) :
  C.cstr (String ":" s) = String ":" (C.cstr s).
Proof. reflexivity. Qed.

Lemma scan_colon_colon (s : string) : C.scan_colon (String ":" s) = Some s.
Proof. reflexivity. Qed.

Lemma sscanf_3_exact (buf : string) :
  is_HH_MM_SS buf = true ->
  exists h1 h2 m1 m2 s1 s2,
    buf = String h1 (String h2 (String ":" (String m1 (String m2 (String ":"
            (String s1 (String s2 EmptyString))))))) /\
    C.sscanf_3 buf = (3, (two_digits h1 h2, two_digits m1 m2, two_digits s1 s2)) /\
    0 <= two_digits h1 h2 <= 99 /\
    0 <= two_digits m1 m2 <= 99 /\
    0 <= two_digits s1 s2 <= 99.
Proof.
  intro H.
  destruct buf as [|h1 [|h2 [|c1 [|m1 [|m2 [|c2 [|s1 [|s2 [|x r]]]]]]]]];
    try discriminate H.
  unfold is_HH_MM_SS in H.
  do 7 (apply andb_true_iff in H; destruct H as [H ?]).
  repeat match goal with
         | E : Ascii.eqb _ _ = true |- _ => apply Ascii.eqb_eq in E; subst
         end.
  exists h1, h2, m1, m2, s1, s2.
  split; [ reflexivity | ].
  split.
  - unfold C.sscanf_3.
    do 2 rewrite cstr_digit by assumption. rewrite cstr_colon.
    do 2 rewrite cstr_digit by assumption. rewrite cstr_colon.
    do 2 rewrite cstr_digit by assumption.
    rewrite scan_2d_two_digits by assumption. rewrite scan_colon_colon.
    rewrite scan_2d_two_digits by assumption. rewrite scan_colon_colon.
    rewrite scan_2d_two_digits by assumption. reflexivity.
  - unfold two_digits.
    repeat match goal with
           | E : C.isdigit _ = true |- _ => apply digit_value_bound in E
           end.
    lia.
Qed.

(** What [%2d] can read: one or two digits, or a sign and one digit. *)
Lemma scan_digits_bound (w : nat) (acc : Z) (k : nat) (s : string) :
  0 <= acc ->
  let '(v, _, _) := C.scan_digits w acc k s in
  acc <= v /\ v < (acc + 1) * 10 ^ Z.of_nat w.
Proof.
  revert acc k s. induction w as [|w IH]; intros acc k s Hacc.
  - cbn [C.scan_digits]. simpl. lia.
  - assert (Hp : 10 ^ Z.of_nat (S w) = 10 ^ Z.of_nat w * 10)
      by (rewrite Nat2Z.inj_succ, Z.pow_succ_r; lia).
    assert (0 < 10 ^ Z.of_nat w) by (apply Z.pow_pos_nonneg; lia).
    destruct s as [|c s]; cbn [C.scan_digits].
    + rewrite Hp. split; [ lia | nia ].
    + destruct (C.isdigit c) eqn:E.
      * pose proof (digit_value_bound c E) as Hc.
        specialize (IH (acc * 10 + C.digit_value c) (S k) s ltac:(lia)).
        destruct (C.scan_digits w (acc * 10 + C.digit_value c) (S k) s)
          as [[v k'] r'].
        rewrite Hp. split; [ lia | nia ].
      * rewrite Hp. split; [ lia | nia ].
Qed.

Lemma scan_2d_bound (s : string) (v : Z) (r : string) :
  C.scan_2d s = Some (v, r) -> -9 <= v <= 99.
Proof.
  unfold C.scan_2d.
  destruct (C.scan_sign (C.skip_space s)) as [[signed neg] s2] eqn:Es.
  assert (Hneg : neg = true -> signed = true).
  { unfold C.scan_sign in Es. destruct (C.skip_space s) as [|c r0].
    - inversion Es; subst. discriminate.
    - destruct (Ascii.eqb c "-"); [ inversion Es; subst; reflexivity | ].
      destruct (Ascii.eqb c "+"); inversion Es; subst; discriminate. }
  pose proof (scan_digits_bound (if signed then 1 else 2)%nat 0 0%nat s2
                ltac:(lia)) as Hb.
  destruct (C.scan_digits (if signed then 1 else 2) 0 0%nat s2) as [[v' k] r'].
  destruct k; [ discriminate | ].
  intro H. inversion H; subst. clear H.
  destruct signed; destruct neg; simpl in Hb;
    try (specialize (Hneg eq_refl); discriminate); lia.
Qed.

Lemma sscanf_3_bound (buf : string) (h m s : Z) :
  C.sscanf_3 buf = (3, (h, m, s)) ->
  -9 <= h <= 99 /\ -9 <= m <= 99 /\ -9 <= s <= 99.
Proof.
  unfold C.sscanf_3.
  destruct (C.scan_2d (C.cstr buf)) as [[h' r1]|] eqn:E1;
    [ | destruct (C.skip_space (C.cstr buf)); discriminate ].
  destruct (C.scan_colon r1) as [r2|]; [ | discriminate ].
  destruct (C.scan_2d r2) as [[m' r3]|] eqn:E2; [ | discriminate ].
  destruct (C.scan_colon r3) as [r4|]; [ | discriminate ].
  destruct (C.scan_2d r4) as [[s' r5]|] eqn:E3; [ | discriminate ].
  intro H. inversion H; subst.
  apply scan_2d_bound in E1. apply scan_2d_bound in E2.
  apply scan_2d_bound in E3. lia.
Qed.

Lemma RA_ticks_of_bound (side : TelescopePierSide) (h m s : Z) :
  -9 <= h <= 99 -> -9 <= m <= 99 -> -9 <= s <= 99 ->
  0 <= RA_ticks_of side h m s < 24 * 3600.
Proof.
  intros Hh Hm Hs. unfold RA_ticks_of.
  assert (Hr : -9 <= Z.rem h 24 <= 23).
  { destruct (Z_lt_le_dec h 0).
    - pose proof (Z.rem_nonpos h 24 ltac:(lia) ltac:(lia)).
      pose proof (Z.rem_bound_abs h 24 ltac:(lia)).
      assert (Z.rem h 24 = h); [ | lia ].
      rewrite <- (Z.opp_involutive h) at 1.
      rewrite Z.rem_opp_l by lia. rewrite Z.rem_small by lia. lia.
    - pose proof (Z.rem_bound_pos h 24 ltac:(lia) ltac:(lia)). lia. }
  apply Z.rem_bound_pos; destruct (pier_eqb side PIER_WEST); lia.
Qed.

Lemma parseStringRA_cases (p : MechanicalPoint) (buf : string) (n : Z) :
  (parseStringRA p buf n = (true, p) /\
   (n < 8 \/ fst (C.sscanf_3 buf) <> 3)) \/
  (exists h m s,
      8 <= n /\ C.sscanf_3 buf = (3, (h, m, s)) /\
      parseStringRA p buf n
      = (false, set_RAm p (RA_ticks_of (_pierSide p) h m s))).
Proof.
  unfold parseStringRA, sizeof_RA_Format_ptr.
  destruct (n <? 8) eqn:En.
  - apply Z.ltb_lt in En. left. split; [ reflexivity | left; exact En ].
  - apply Z.ltb_ge in En.
    destruct (C.sscanf_3 buf) as [k [[h m] s]]. simpl fst.
    destruct (k =? 3) eqn:Ek.
    + apply Z.eqb_eq in Ek. subst k. right. exists h, m, s.
      split; [ exact En | split; reflexivity ].
    + apply Z.eqb_neq in Ek. left. split; [ reflexivity | right; exact Ek ].
Qed.

(** C5, as the code has it: [parseStringRA] updates the coordinate exactly
    when the buffer length is at least 8 and [sscanf] reads three numbers
    separated by [':'], each of at most two characters, sign included, after
    optional white space.  The ticks are then the three numbers combined, less
    12 hours when the pier side is WEST, modulo 24 hours, and lie in
    [0, 86400).  Every text of the exact two-digit pattern ["HH:MM:SS"] is read
    so.  In every other case the error value is returned and the coordinate is
    left as it was. *)
Theorem C5_parseStringRA_failure (p : MechanicalPoint) (buf : string) (n : Z) :
  let r := parseStringRA p buf n in
  (fst r = false <-> 8 <= n /\ fst (C.sscanf_3 buf) = 3) /\
  (fst r = true -> snd r = p) /\
  (fst r = false ->
   exists hours minutes seconds,
     C.sscanf_3 buf = (3, (hours, minutes, seconds)) /\
     _RAm (snd r)
     = Z.rem ((if pier_eqb (_pierSide p) PIER_WEST then -12 * 3600 else 0)
              + 24 * 3600 + Z.rem hours 24 * 3600 + minutes * 60 + seconds)
             (24 * 3600) /\
     0 <= _RAm (snd r) < 24 * 3600 /\
     _DECm (snd r) = _DECm p /\ _pierSide (snd r) = _pierSide p) /\
  (is_HH_MM_SS buf = true -> 8 <= n ->
   exists h1 h2 m1 m2 s1 s2,
     buf = String h1 (String h2 (String ":" (String m1 (String m2 (String ":"
             (String s1 (String s2 EmptyString))))))) /\
     r = (false,
          set_RAm p (RA_ticks_of (_pierSide p) (two_digits h1 h2)
                       (two_digits m1 m2) (two_digits s1 s2)))).
Proof.
  intro r. subst r.
  destruct (parseStringRA_cases p buf n)
    as [[E Hc] | (h & m & s & Hn & Hs & E)]; rewrite E; simpl fst; simpl snd.
  - split; [ split; [ discriminate | intros [H1 H2]; lia ] | ].
    split; [ reflexivity | ].
    split; [ discriminate | ].
    intros Hpat Hn.
    destruct (sscanf_3_exact buf Hpat) as (h1 & h2 & m1 & m2 & s1 & s2 & _ & Hs & _).
    rewrite Hs in Hc. simpl in Hc. lia.
  - split; [ split; [ intros _; rewrite Hs; split; [ exact Hn | reflexivity ]
                    | reflexivity ] | ].
    split; [ discriminate | ].
    split.
    + intros _. exists h, m, s. split; [ exact Hs | ].
      split; [ reflexivity | ].
      split; [ | split; reflexivity ].
      pose proof (sscanf_3_bound buf h m s Hs) as (Hh & Hm & Hsec).
      apply RA_ticks_of_bound; assumption.
    + intros Hpat _.
      destruct (sscanf_3_exact buf Hpat)
        as (h1 & h2 & m1 & m2 & s1 & s2 & Hb & Hs' & _).
      exists h1, h2, m1, m2, s1, s2. split; [ exact Hb | ].
      rewrite Hs in Hs'. inversion Hs'; subst. reflexivity.
Qed.

(** C5, as the claim states it, fails: the text ["1:2:3"] is not of the exact
    two-digit pattern, yet [parseStringRA] reads it as 01:02:03 and updates the
    coordinate; so do [" 1: 2: 3"] and ["12:34:56 and more"]. *)
Lemma C5_one_digit_fields_are_read :
  let p := mkPoint 0 0 PIER_EAST in
  is_HH_MM_SS "1:2:3" = false /\
  parseStringRA p "1:2:3" 64 = (false, mkPoint 3723 0 PIER_EAST) /\
  is_HH_MM_SS " 1: 2: 3" = false /\
  parseStringRA p " 1: 2: 3" 64 = (false, mkPoint 3723 0 PIER_EAST) /\
  is_HH_MM_SS "12:34:56 and more" = false /\
  parseStringRA p "12:34:56 and more" 64 = (false, mkPoint 45296 0 PIER_EAST).
Proof. cbv zeta. repeat split; reflexivity. Qed.

(** ** Decoding what was encoded *)

Lemma fmt_02d_digits (m : Z) :
  0 <= m < 100 ->
  exists a b,
    C.fmt_02d m = String a (String b EmptyString) /\
    C.isdigit a = true /\ C.isdigit b = true /\ two_digits a b = m.
Proof.
  intro H.
  assert (Hall : forallb
            (fun z => match C.fmt_02d z with
                      | String a (String b EmptyString) =>
                          C.isdigit a && C.isdigit b && (two_digits a b =? z)
                      | _ => false
                      end) (Z_range 0 100) = true) by (vm_compute; reflexivity).
  pose proof (forall_range _ 0 100 Hall m ltac:(lia)) as Hm. cbv beta in Hm.
  destruct (C.fmt_02d m) as [|a [|b [|c r]]]; try discriminate Hm.
  apply andb_true_iff in Hm. destruct Hm as [Hm H3].
  apply andb_true_iff in Hm. destruct Hm as [H1 H2].
  apply Z.eqb_eq in H3. exists a, b. repeat split; assumption.
Qed.

Lemma atoi_two_digits (a b : ascii) :
  C.isdigit a = true -> C.isdigit b = true ->
  C.atoi (String a (String b EmptyString)) = two_digits a b.
Proof. intros Ha Hb. each_digit Ha; each_digit Hb; reflexivity. Qed.

Lemma digit_not_NUL (c : ascii) : C.isdigit c = true -> Ascii.eqb c zero = false.
Proof. intro H. each_digit H; reflexivity. Qed.

Lemma degrees_read_back_all (a : Z) : 0 <= a <= 255 -> degrees_read_back a = true.
Proof.
  intro H.
  assert (Hall : forallb degrees_read_back (Z_range 0 256) = true)
    by (vm_compute; reflexivity).
  apply (forall_range _ 0 256 Hall). lia.
Qed.

Lemma strncpy_9 (c0 c1 c2 c3 c4 c5 c6 c7 c8 : ascii) :
  Ascii.eqb c0 zero = false -> Ascii.eqb c1 zero = false ->
  Ascii.eqb c2 zero = false -> Ascii.eqb c3 zero = false ->
  Ascii.eqb c4 zero = false -> Ascii.eqb c5 zero = false ->
  Ascii.eqb c6 zero = false -> Ascii.eqb c7 zero = false ->
  Ascii.eqb c8 zero = false ->
  strncpy 10
    (String c0 (String c1 (String c2 (String c3 (String c4 (String c5
       (String c6 (String c7 (String c8 EmptyString)))))))))
  = String c0 (String c1 (String c2 (String c3 (String c4 (String c5
       (String c6 (String c7 (String c8 (String zero EmptyString))))))))).
Proof.
  intros H0 H1 H2 H3 H4 H5 H6 H7 H8. cbn [strncpy].
  rewrite H0, H1, H2, H3, H4, H5, H6, H7, H8. reflexivity.
Qed.

(** The magnitude written is the magnitude of the value. *)
Lemma DEC_fields_value (p : MechanicalPoint) :
  Z.abs (DEC_value p) < 256 * 3600 ->
  DEC_degrees p = DEC_value p ÷ 3600 /\
  Z.abs (DEC_degrees p) * 3600 + DEC_minutes p * 60 + DEC_seconds p
  = Z.abs (DEC_value p).
Proof.
  intro H. unfold DEC_degrees, DEC_minutes, DEC_seconds.
  set (v := DEC_value p) in *.
  assert (Hq : Z.abs (v ÷ 3600) < 256).
  { rewrite <- Z.quot_abs by lia. apply Z.quot_lt_upper_bound; lia. }
  assert (Hq60 : 0 <= Z.abs v ÷ 60 < 2147483648).
  { split; [ apply Z.quot_pos; lia | apply Z.quot_lt_upper_bound; lia ]. }
  rewrite !to_int_small by lia.
  assert (Hd : Z.rem (v ÷ 3600) 256 = v ÷ 3600).
  { destruct (Z_lt_le_dec (v ÷ 3600) 0).
    - rewrite <- (Z.opp_involutive (v ÷ 3600)) at 1.
      rewrite Z.rem_opp_l by lia. rewrite Z.rem_small by lia. lia.
    - apply Z.rem_small. lia. }
  rewrite Hd. split; [ reflexivity | ].
  rewrite <- Z.quot_abs by lia. change (Z.abs 3600) with 3600.
  set (a := Z.abs v) in *.
  assert (Ha : 0 <= a) by (subst a; lia).
  rewrite !Z.quot_div_nonneg, !Z.rem_mod_nonneg by (try lia; apply Z.div_pos; lia).
  pose proof (Z.div_mod a 60 ltac:(lia)).
  pose proof (Z.div_mod (a / 60) 60 ltac:(lia)).
  rewrite Z.div_div in * by lia. change (60 * 60) with 3600 in *. lia.
Qed.


(** ** Setting and re-reading DEC *)



(** C2 fails on the code: at DEC 89.5 degrees with pier side WEST the value to
    print is -1800 seconds of arc; its degrees truncate to 0, the sign is
    taken from the degrees and is lost, and the text ["+00:30:00"] decodes to
    90.5 degrees, one degree away. *)
Lemma C2_roundtrip_loses_sign_near_pole :
  let p := DECm_set (mkPoint 0 0 PIER_WEST) (179 # 2) in
  let q := snd (parseStringDEC p "+00:30:00" 10) in
  _DECm p = 322200 /\
  DEC_value p = -1800 /\
  DEC_degrees p = 0 /\
  toStringDEC p 10 = Some "+00:30:00" /\
  parseStringDEC p "+00:30:00" 10 = (false, mkPoint 0 325800 PIER_WEST) /\
  (DECm q == 181 # 2)%Q /\
  (DEC_degrees_to p q == 1)%Q /\
  C.dle DEC_GRANULARITY (C.fabs (DEC_degrees_to p q)) = true.
Proof. cbv zeta. repeat split; reflexivity. Qed.

(** ** The setters *)

(** For the inputs the setters are written for, the ticks are normalized up
    to the upper end, which rounding can reach. *)
Lemma setter_nonneg (value turn : Q) (ticks : Z) :
  (0 < turn)%Q -> (inject_Z ticks == turn * 3600)%Q -> 0 <= ticks <= 2 ^ 53 ->
  (- turn <= value)%Q ->
  0 <= C.lround (C.dmul (C.fmod (C.dadd value turn) turn) 3600) <= ticks.
Proof.
  intros Hturn Hticks Hpos Hv. unfold C.dmul, C.dadd.
  assert (Hs : (0 <= C.b64 (value + turn))%Q) by (apply b64_nonneg; lra).
  destruct (fmod_nonneg (C.b64 (value + turn)) turn Hs Hturn) as [H1 H2].
  destruct (b64_between (C.fmod (C.b64 (value + turn)) turn * 3600) 0 ticks)
    as [B1 B2]; [ by_computation | lia | | | ].
  - change (inject_Z 0) with 0%Q. lra.
  - lra.
  - apply lround_between; [ lia | exact B1 | exact B2 ].
Qed.

Lemma RAm_set_bounds (p : MechanicalPoint) (value : Q) :
  (-24 <= value)%Q -> 0 <= _RAm (RAm_set p value) <= 24 * 3600.
Proof.
  intro H. unfold RAm_set. cbn [_RAm set_RAm].
  apply (setter_nonneg value 24 (24 * 3600));
    [ reflexivity | reflexivity | split; by_computation | exact H ].
Qed.

Lemma DECm_set_bounds (p : MechanicalPoint) (value : Q) :
  (-256 <= value)%Q -> 0 <= _DECm (DECm_set p value) <= 256 * 3600.
Proof.
  intro H. unfold DECm_set. cbn [_DECm set_DECm].
  apply (setter_nonneg value 256 (256 * 3600));
    [ reflexivity | reflexivity | split; by_computation | exact H ].
Qed.

(** C4 fails on the code: the setters take the remainder before they round,
    and [std::fmod] keeps the sign of its first argument.  RA 24 - 2^-15 hours
    is rounded up to 86400 ticks, RA -30 hours gives -21600 ticks, DEC -2^-15
    degrees gives 256*3600 ticks and DEC -300 degrees gives -158400 ticks. *)
Lemma C4_setters_leave_the_range :
  let p := mkPoint 0 0 PIER_EAST in
  _RAm (RAm_set p (24 - (1 # 32768))) = 86400 /\
  ~ (0 <= _RAm (RAm_set p (24 - (1 # 32768))) < 86400) /\
  _RAm (RAm_set p (-30)) = -21600 /\
  _DECm (DECm_set p (- (1 # 32768))) = 256 * 3600 /\
  ~ (0 <= _DECm (DECm_set p (- (1 # 32768))) < 256 * 3600) /\
  _DECm (DECm_set p (-300)) = -158400.
Proof.
  cbv zeta.
  split; [ reflexivity | ].
  split; [ vm_compute; intros [_ H]; discriminate H | ].
  split; [ reflexivity | ].
  split; [ reflexivity | ].
  split; [ vm_compute; intros [_ H]; discriminate H | reflexivity ].
Qed.

(** ** Directions of movement *)

Lemma RA_GRANULARITY_pos : (0 < RA_GRANULARITY)%Q.
Proof. reflexivity. Qed.

Lemma DEC_GRANULARITY_pos : (0 < DEC_GRANULARITY)%Q.
Proof. reflexivity. Qed.

Lemma fmax_ge_r (a b : Q) : (b <= C.fmax a b)%Q.
Proof.
  unfold C.fmax. destruct (Qle_bool b a) eqn:E.
  - apply Qle_bool_iff. exact E.
  - apply Qle_refl.
Qed.

Lemma fmax_ge_l (a b : Q) : (a <= C.fmax a b)%Q.
Proof.
  unfold C.fmax. destruct (Qle_bool b a) eqn:E.
  - apply Qle_refl.
  - apply Qlt_le_weak. apply (dle_false b a). exact E.
Qed.

Lemma go_exclusive (axis_epsilon delta : Q) :
  (0 < axis_epsilon)%Q ->
  go_forth axis_epsilon delta && go_back axis_epsilon delta = false.
Proof.
  intro Hpos. unfold go_forth, go_back.
  destruct (C.dle axis_epsilon delta) eqn:E1; [ | reflexivity ].
  destruct (C.dle delta (- axis_epsilon)) eqn:E2; [ | reflexivity ].
  apply dle_spec in E1. apply dle_spec in E2. exfalso. lra.
Qed.

Lemma go_exclusive_above (granularity axis_epsilon delta : Q) :
  (0 < granularity)%Q -> (granularity <= axis_epsilon)%Q ->
  go_forth axis_epsilon delta && go_back axis_epsilon delta = false.
Proof. intros Hg He. apply go_exclusive. lra. Qed.

Lemma go_exclusive_RA (eps delta : Q) :
  go_forth (C.fmax eps RA_GRANULARITY) delta
  && go_back (C.fmax eps RA_GRANULARITY) delta = false.
Proof.
  apply (go_exclusive_above RA_GRANULARITY);
    [ exact RA_GRANULARITY_pos | apply fmax_ge_r ].
Qed.

Lemma go_exclusive_DEC (eps delta : Q) :
  go_forth (C.fmax eps DEC_GRANULARITY) delta
  && go_back (C.fmax eps DEC_GRANULARITY) delta = false.
Proof.
  apply (go_exclusive_above DEC_GRANULARITY);
    [ exact DEC_GRANULARITY_pos | apply fmax_ge_r ].
Qed.

(** After the block of an axis, its two markers are the two requirements. *)
Lemma adjust_axis_spec (Q_forth Q_back M_forth M_back : string)
    (axis_epsilon delta : Q) (CmdString : string) (forth back : bool) :
  match adjust_axis Q_forth Q_back M_forth M_back axis_epsilon delta
          CmdString forth back with
  | None => go_forth axis_epsilon delta && go_back axis_epsilon delta = true
  | Some (_, forth', back') =>
      forth' = go_forth axis_epsilon delta /\
      back' = go_back axis_epsilon delta /\
      forth' && back' = false
  end.
Proof.
  unfold adjust_axis.
  destruct (go_forth axis_epsilon delta), (go_back axis_epsilon delta),
    forth, back; simpl; auto.
Qed.

(** The loop that chooses a slew rate ends with the first entry that fits,
    or reads past the table when none of the five does; it never ends with
    the null pointer, its bound being above the length of the table. *)
Lemma choose_loop_cases (a : Q) :
  match choose_loop a with
  | Found i =>
      (i < 5)%nat /\ (a <= distance (adjustment_at i))%Q /\
      forall k, (k < i)%nat -> (distance (adjustment_at k) < a)%Q
  | PastTheTable =>
      forall k, (k < 5)%nat -> (distance (adjustment_at k) < a)%Q
  | Null => False
  end.
Proof.
  unfold choose_loop, sizeof_adjustments.
  cbn [choose_from nth_error adjustments].
  repeat match goal with
         | |- match (if C.dle ?x ?y then _ else _) with _ => _ end =>
             let E := fresh "E" in
             destruct (C.dle x y) eqn:E;
             [ apply dle_spec in E | apply dle_false in E ]
         end.
  - split; [ lia | ]. split; [ exact E | ]. intros k Hk. lia.
  - split; [ lia | ]. split; [ exact E0 | ]. intros k Hk.
    destruct k as [|k]; [ exact E | lia ].
  - split; [ lia | ]. split; [ exact E1 | ]. intros k Hk.
    do 2 (destruct k as [|k]; [ assumption | ]). lia.
  - split; [ lia | ]. split; [ exact E2 | ]. intros k Hk.
    do 3 (destruct k as [|k]; [ assumption | ]). lia.
  - split; [ lia | ]. split; [ exact E3 | ]. intros k Hk.
    do 4 (destruct k as [|k]; [ assumption | ]). lia.
  - intros k Hk. do 5 (destruct k as [|k]; [ assumption | ]). lia.
Qed.

Lemma choose_loop_spec (a : Q) :
  choose_loop a
  = match choose_adjustment a with
    | Some i => Found i
    | None => PastTheTable
    end.
Proof.
  unfold choose_adjustment. pose proof (choose_loop_cases a) as H.
  destruct (choose_loop a); [ reflexivity | contradiction | reflexivity ].
Qed.

Lemma distance_4 : (distance (adjustment_at 4) == 360)%Q.
Proof. vm_compute. reflexivity. Qed.

Lemma choose_adjustment_cases (a : Q) :
  match choose_adjustment a with
  | Some i =>
      (i < 5)%nat /\ (a <= distance (adjustment_at i))%Q /\
      forall k, (k < i)%nat -> (distance (adjustment_at k) < a)%Q
  | None => (360 < a)%Q
  end.
Proof.
  unfold choose_adjustment. pose proof (choose_loop_cases a) as H.
  destruct (choose_loop a); [ exact H | contradiction | ].
  rewrite <- distance_4. apply H. lia.
Qed.

Lemma slewing_directions_safe (env : Environment) (d : Driver) :
  exclusive d -> directions_safe (slewing env d).
Proof.
  intros [Hew Hns]. unfold slewing.
  destruct (_ || _); [ | simpl; split; assumption ].
  rewrite !choose_loop_spec.
  destruct (choose_adjustment _) as [ra_adjust|]; cbv beta iota; [ | exact I ].
  destruct (choose_adjustment _) as [dec_adjust|]; cbv beta iota; [ | exact I ].
  set (adjustment := if (ra_adjust <? dec_adjust)%nat then dec_adjust else ra_adjust).
  set (cmd0 := if negb _ then _ else _).
  assert (Hra :
    match (if (ra_adjust =? adjustment)%nat
           then adjust_axis ":Qe#" ":Qw#" ":Me#" ":Mw#"
                  (C.fmax (epsilon (adjustment_at adjustment)) RA_GRANULARITY)
                  (RA_degrees_to (currentPosition d) (targetPosition d))
                  cmd0 (east d) (west d)
           else Some (cmd0, east d, west d)) with
    | None => False
    | Some (_, e, w) => e && w = false
    end).
  { destruct (ra_adjust =? adjustment)%nat; [ | exact Hew ].
    match goal with |- match ?a with _ => _ end =>
      pose proof (adjust_axis_spec ":Qe#" ":Qw#" ":Me#" ":Mw#"
        (C.fmax (epsilon (adjustment_at adjustment)) RA_GRANULARITY)
        (RA_degrees_to (currentPosition d) (targetPosition d))
        cmd0 (east d) (west d)) as Hs;
      destruct a as [[[c e] w]|]
    end.
    - tauto.
    - rewrite go_exclusive_RA in Hs. discriminate Hs. }
  destruct (if (ra_adjust =? adjustment)%nat then _ else _)
    as [[[cmd1 east'] west']|]; [ | contradiction ].
  assert (Hdec :
    match (if (dec_adjust =? adjustment)%nat
           then adjust_axis ":Qs#" ":Qn#" ":Ms#" ":Mn#"
                  (C.fmax (epsilon (adjustment_at adjustment)) DEC_GRANULARITY)
                  (DEC_degrees_to (currentPosition d) (targetPosition d))
                  cmd1 (south d) (north d)
           else Some (cmd1, south d, north d)) with
    | None => False
    | Some (_, s, n) => n && s = false
    end).
  { destruct (dec_adjust =? adjustment)%nat;
      [ | exact Hns ].
    match goal with |- match ?a with _ => _ end =>
      pose proof (adjust_axis_spec ":Qs#" ":Qn#" ":Ms#" ":Mn#"
        (C.fmax (epsilon (adjustment_at adjustment)) DEC_GRANULARITY)
        (DEC_degrees_to (currentPosition d) (targetPosition d))
        cmd1 (south d) (north d)) as Hs;
      destruct a as [[[c s] n]|]
    end.
    - rewrite andb_comm. tauto.
    - rewrite go_exclusive_DEC in Hs. discriminate Hs. }
  destruct (if (dec_adjust =? adjustment)%nat then _ else _)
    as [[[cmd2 south'] north']|]; [ | contradiction ].
  rewrite Hra, Hdec. simpl orb. cbv iota.
  destruct (negb (String.eqb cmd2 "") && negb (write_ok env));
    [ simpl; split; assumption | ].
  destruct (negb east' && negb west' && negb north' && negb south');
    [ simpl; split; assumption | ].
  destruct (_ <=? 0)%Z; simpl; split; assumption.
Qed.

Lemma ReadScopeStatus_directions_safe (env : Environment) (d : Driver) :
  exclusive d -> directions_safe (ReadScopeStatus env d).
Proof.
  intro Hex. unfold ReadScopeStatus.
  destruct (negb (isConnected env)); [ exact Hex | ].
  destruct (getCurrentPosition env (currentPosition d)) as [[|] p];
    [ exact Hex | ].
  destruct (TrackState d);
    [ exact Hex | apply slewing_directions_safe; exact Hex | exact Hex ].
Qed.

Lemma Goto_markers (env : Environment) (d : Driver) (ra dec : Q) :
  let d' := snd (Goto env d ra dec) in
  east d' = east d /\ west d' = west d /\
  north d' = north d /\ south d' = south d /\
  previous_adjustment d' = previous_adjustment d.
Proof.
  unfold Goto.
  destruct (EqNP_busy env && negb (abortSlew_ok env));
    [ | destruct (setTargetPosition_error env) ]; simpl; tauto.
Qed.

Lemma reachable_exclusive (d : Driver) : reachable d -> exclusive d.
Proof.
  induction 1 as [d Hinit | env d ra dec Hr IH | env d d' result sent Hr IH Hstep].
  - destruct Hinit as (_ & He & _ & Hn & _).
    unfold exclusive. rewrite He, Hn. split; reflexivity.
  - destruct (Goto_markers env d ra dec) as (He & Hw & Hn & Hs & _).
    destruct IH as [IH1 IH2].
    unfold exclusive. rewrite He, Hw, Hn, Hs. split; assumption.
  - pose proof (ReadScopeStatus_directions_safe env d IH) as Hsafe.
    rewrite Hstep in Hsafe. exact Hsafe.
Qed.

(** C9: for any delta and any tier, the effective epsilon is at least the
    granularity of the axis, which is positive, so 'go east' and 'go west' are
    never both required, nor 'go south' and 'go north'; and in every state the
    driver can reach, a call of [ReadScopeStatus] fails none of the three
    assertions on directions and leaves the movement markers without east and
    west both set and without north and south both set. *)
Theorem C9_directions_are_exclusive (env : Environment) (d : Driver) :
  reachable d ->
  (forall tier delta,
      let ra_epsilon := C.fmax (epsilon (adjustment_at tier)) RA_GRANULARITY in
      (RA_GRANULARITY <= ra_epsilon)%Q /\
      go_forth ra_epsilon delta && go_back ra_epsilon delta = false) /\
  (forall tier delta,
      let dec_epsilon := C.fmax (epsilon (adjustment_at tier)) DEC_GRANULARITY in
      (DEC_GRANULARITY <= dec_epsilon)%Q /\
      go_forth dec_epsilon delta && go_back dec_epsilon delta = false) /\
  (forall granularity axis_epsilon delta,
      (0 < granularity)%Q -> (granularity <= axis_epsilon)%Q ->
      go_forth axis_epsilon delta && go_back axis_epsilon delta = false) /\
  (0 < RA_GRANULARITY)%Q /\ (0 < DEC_GRANULARITY)%Q /\
  ReadScopeStatus env d <> AssertionFailed assert_go_east_west /\
  ReadScopeStatus env d <> AssertionFailed assert_go_south_north /\
  ReadScopeStatus env d <> AssertionFailed assert_flags /\
  (forall result d' sent,
      ReadScopeStatus env d = Returned result d' sent ->
      east d' && west d' = false /\ north d' && south d' = false).
Proof.
  intro Hr.
  split; [ intros tier delta; split; [ apply fmax_ge_r | apply go_exclusive_RA ] | ].
  split; [ intros tier delta; split; [ apply fmax_ge_r | apply go_exclusive_DEC ] | ].
  split; [ exact go_exclusive_above | ].
  split; [ exact RA_GRANULARITY_pos | ].
  split; [ exact DEC_GRANULARITY_pos | ].
  pose proof (ReadScopeStatus_directions_safe env d (reachable_exclusive d Hr))
    as Hsafe.
  destruct (ReadScopeStatus env d) as [result d' sent | a | u].
  - split; [ discriminate | ].
    split; [ discriminate | ].
    split; [ discriminate | ].
    intros r d2 s2 E. inversion E; subst. exact Hsafe.
  - destruct a; simpl in Hsafe; try contradiction;
      (split; [ discriminate | ]);
      (split; [ discriminate | ]);
      (split; [ discriminate | ]);
      intros r d2 s2 E; discriminate E.
  - split; [ discriminate | ].
    split; [ discriminate | ].
    split; [ discriminate | ].
    intros r d2 s2 E. discriminate E.
Qed.

Lemma C9_directions_are_exclusive_witness :
  ReadScopeStatus (mount_replies "01:00:00" "+10:00:00")
    (snd (Goto (mount_replies "" "") driver_start 2 80))
  <> AssertionFailed assert_flags.
Proof.
  refine (proj1 (proj2 (proj2 (proj2 (proj2 (proj2 (proj2 (proj2
            (C9_directions_are_exclusive
               (mount_replies "01:00:00" "+10:00:00")
               (snd (Goto (mount_replies "" "") driver_start 2 80)) _))))))))).
  apply reachable_Goto. apply reachable_start.
  unfold statics_initial. simpl. repeat split; reflexivity.
Defined.

(** ** Reading the position *)

Lemma parseStringRA_ok (p r : MechanicalPoint) (buf : string) (n : Z) :
  parseStringRA p buf n = (false, r) ->
  _DECm r = _DECm p /\ _pierSide r = _pierSide p /\
  forall q, _pierSide q = _pierSide p ->
            parseStringRA q buf n = (false, set_RAm q (_RAm r)).
Proof.
  rewrite parseStringRA_eq.
  destruct (n <? 8) eqn:En; [ discriminate | ].
  destruct (fst (C.sscanf_3 buf) =? 3) eqn:Ek; [ | discriminate ].
  intro H. injection H as <-.
  split; [ reflexivity | split; [ reflexivity | ] ].
  intros q Hq. rewrite parseStringRA_eq, En, Ek, Hq. reflexivity.
Qed.

Lemma parseStringDEC_ok (p r : MechanicalPoint) (buf : string) (n : Z) :
  parseStringDEC p buf n = (false, r) ->
  _RAm r = _RAm p /\ _pierSide r = _pierSide p /\
  forall q, _pierSide q = _pierSide p ->
            parseStringDEC q buf n = (false, set_DECm q (_DECm r)).
Proof.
  rewrite parseStringDEC_eq.
  destruct (n <? 9) eqn:En; [ discriminate | ]. cbv zeta.
  destruct (_ || _) eqn:Er; [ discriminate | ].
  intro H. injection H as <-.
  split; [ reflexivity | split; [ reflexivity | ] ].
  intros q Hq. rewrite parseStringDEC_eq, En. cbv zeta. rewrite Er, Hq.
  reflexivity.
Qed.

(** The position read depends on the point it is read into only by the pier
    side of that point, which it keeps: reading again gives the same point. *)
Lemma getCurrentPosition_again (env : Environment) (p cur : MechanicalPoint) :
  getCurrentPosition env p = (false, cur) ->
  getCurrentPosition env cur = (false, cur).
Proof.
  unfold getCurrentPosition.
  destruct (reply_GR env) as [b|]; [ | discriminate ].
  destruct (parseStringRA p b 64) as [[|] r] eqn:Er; [ discriminate | ].
  destruct (reply_GD env) as [b'|]; [ | discriminate ].
  destruct (parseStringDEC r b' 64) as [[|] r'] eqn:Ed; [ discriminate | ].
  intro H. inversion H; subst r'. clear H.
  destruct (parseStringRA_ok p r b 64 Er) as (Hdec & Hside & Hra).
  destruct (parseStringDEC_ok r cur b' 64 Ed) as (Hra' & Hside' & Hd).
  rewrite (Hra cur) by congruence.
  rewrite (Hd (set_RAm cur (_RAm r))) by (simpl; congruence).
  f_equal. apply point_eta; simpl; congruence.
Qed.

(** ** Convergence *)

Lemma abs_ge_split (e delta : Q) :
  (e <= Qabs delta)%Q -> (e <= delta)%Q \/ (delta <= - e)%Q.
Proof.
  intro H. destruct (Qlt_le_dec delta 0) as [Hneg | Hpos].
  - right. rewrite Qabs_neg in H by lra. lra.
  - left. rewrite Qabs_pos in H by lra. exact H.
Qed.

Lemma go_some (e delta : Q) :
  (e <= Qabs delta)%Q -> go_forth e delta || go_back e delta = true.
Proof.
  intro H. unfold go_forth, go_back. apply orb_true_iff.
  destruct (abs_ge_split e delta H); [ left | right ]; now apply dle_spec.
Qed.

(** The slew rate chosen for a distance asks that axis to move, unless it is
    the guiding rate and the distance is below the granularity. *)
Lemma chosen_rate_moves (granularity delta : Q) (i : nat) :
  granularity = RA_GRANULARITY \/ granularity = DEC_GRANULARITY ->
  choose_adjustment (C.fabs delta) = Some i ->
  i <> 0%nat \/ C.dle granularity (C.fabs delta) = true ->
  let axis_epsilon := C.fmax (epsilon (adjustment_at i)) granularity in
  go_forth axis_epsilon delta || go_back axis_epsilon delta = true.
Proof.
  intros Hg Hc Hi. cbv zeta. apply go_some.
  unfold C.fabs in *. set (a := Qabs delta) in *.
  pose proof (choose_adjustment_cases a) as Hcases. rewrite Hc in Hcases.
  destruct Hcases as (Hlt & Hle & Hprev).
  destruct i as [|i'].
  - destruct Hi as [Hi | Hi]; [ contradiction | ]. apply dle_spec in Hi.
    destruct Hg; subst granularity.
    + replace (C.fmax (epsilon (adjustment_at 0)) RA_GRANULARITY)
        with RA_GRANULARITY by (vm_compute; reflexivity).
      exact Hi.
    + replace (C.fmax (epsilon (adjustment_at 0)) DEC_GRANULARITY)
        with DEC_GRANULARITY by (vm_compute; reflexivity).
      exact Hi.
  - apply Qle_trans with (distance (adjustment_at i'));
      [ | apply Qlt_le_weak, Hprev; lia ].
    do 4 (destruct i' as [|i'];
          [ destruct Hg; subst granularity; by_computation | ]).
    lia.
Qed.

Lemma choose_adjustment_lt (a : Q) (i : nat) :
  choose_adjustment a = Some i -> (i < 5)%nat.
Proof.
  intro H. pose proof (choose_adjustment_cases a) as Hc. rewrite H in Hc.
  apply Hc.
Qed.

Lemma slew_rate_length (i : nat) :
  (i < 5)%nat -> String.length (slew_rate (adjustment_at i)) = 4%nat.
Proof.
  intro H. do 5 (destruct i as [|i]; [ reflexivity | ]). lia.
Qed.

(** One block of [ReadScopeStatus], run or skipped: the assertion holds, the
    markers stay exclusive, and the command grows by whole tokens. *)
Lemma axis_block (run : bool) (Q_forth Q_back M_forth M_back : string)
    (axis_epsilon delta : Q) (CmdString : string) (forth back : bool) :
  (0 < axis_epsilon)%Q -> forth && back = false ->
  String.length Q_forth = 4%nat -> String.length Q_back = 4%nat ->
  String.length M_forth = 4%nat -> String.length M_back = 4%nat ->
  exists CmdString' forth' back' k,
    (if run
     then adjust_axis Q_forth Q_back M_forth M_back axis_epsilon delta
            CmdString forth back
     else Some (CmdString, forth, back))
    = Some (CmdString', forth', back') /\
    forth' && back' = false /\
    String.length CmdString' = (String.length CmdString + 4 * k)%nat /\
    (run = true -> forth' = go_forth axis_epsilon delta /\
                   back' = go_back axis_epsilon delta) /\
    (run = false -> forth' = forth /\ back' = back).
Proof.
  intros Hpos Hex L1 L2 L3 L4. destruct run.
  - pose proof (go_exclusive axis_epsilon delta Hpos) as Hgo.
    unfold adjust_axis. rewrite Hgo.
    destruct (go_forth axis_epsilon delta), (go_back axis_epsilon delta),
      forth, back; try discriminate; simpl;
      do 3 eexists;
      first
        [ exists 0%nat; repeat split; try discriminate;
          rewrite ?length_append; lia
        | exists 1%nat; repeat split; try discriminate;
          rewrite ?length_append; lia
        | exists 2%nat; repeat split; try discriminate;
          rewrite ?length_append; lia ].
  - exists CmdString, forth, back, 0%nat.
    repeat split; try discriminate; try assumption. lia.
Qed.

Lemma same_adjustment_true (previous : option nat) (adjustment : nat) :
  same_adjustment previous adjustment = true <-> previous = Some adjustment.
Proof.
  unfold same_adjustment. destruct previous as [q|].
  - rewrite Nat.eqb_eq. split; [ intros ->; reflexivity | intro H; now inversion H ].
  - split; discriminate.
Qed.

(** One slewing tick away from the target, when commands go through: some
    marker is set afterwards, the countdown loses one, and the tick ends in
    [slew_failure] when the countdown reaches zero. *)
Lemma slewing_away (env : Environment) (d : Driver) (i j : nat) :
  write_ok env = true ->
  exclusive d ->
  away (currentPosition d) (targetPosition d) = true ->
  choose_adjustment
    (C.fabs (RA_degrees_to (currentPosition d) (targetPosition d))) = Some i ->
  choose_adjustment
    (C.fabs (DEC_degrees_to (currentPosition d) (targetPosition d))) = Some j ->
  countdown d = MAX_CONVERGENCE_LOOPS
  \/ previous_adjustment d = Some (driving i j) ->
  exists e w n s cmds,
    ~ In ":Q#" cmds /\
    e || w || n || s = true /\
    e && w = false /\ n && s = false /\
    slewing env d
    = if countdown d - 1 <=? 0
      then Returned false
             (mkDriver SCOPE_TRACKING (countdown d - 1) 1000 (currentPosition d)
                (targetPosition d) (Some (driving i j)) e w n s)
             (cmds ++ [":Q#"])%list
      else Returned true
             (mkDriver (TrackState d) (countdown d - 1)
                (polling_interval (adjustment_at (driving i j)))
                (currentPosition d) (targetPosition d) (Some (driving i j))
                e w n s)
             cmds.
Proof.
  intros Hw [Hew Hns] Haway Hi Hj Hprev.
  unfold slewing. fold (away (currentPosition d) (targetPosition d)).
  rewrite Haway, !choose_loop_spec, Hi, Hj. cbv beta iota. fold (driving i j).
  set (adj := driving i j) in *.
  set (ra_delta := RA_degrees_to (currentPosition d) (targetPosition d)) in *.
  set (dec_delta := DEC_degrees_to (currentPosition d) (targetPosition d)) in *.
  assert (Hadj : (adj < 5)%nat).
  { subst adj. unfold driving. destruct (i <? j)%nat;
      [ exact (choose_adjustment_lt _ _ Hj) | exact (choose_adjustment_lt _ _ Hi) ]. }
  assert (Hcount :
    (if negb (same_adjustment (previous_adjustment d) adj)
        && below_previous adj (previous_adjustment d)
     then MAX_CONVERGENCE_LOOPS else countdown d) = countdown d).
  { destruct Hprev as [Hc | Hp].
    - rewrite Hc. destruct (negb _ && _); reflexivity.
    - apply same_adjustment_true in Hp. rewrite Hp. reflexivity. }
  assert (Hprev' :
    (if negb (same_adjustment (previous_adjustment d) adj)
     then Some adj else previous_adjustment d) = Some adj).
  { destruct (same_adjustment (previous_adjustment d) adj) eqn:Es;
      [ | reflexivity ].
    now apply same_adjustment_true. }
  rewrite Hcount, Hprev'.
  set (cmd0 := if negb (same_adjustment (previous_adjustment d) adj)
               then slew_rate (adjustment_at adj) else "").
  assert (Hlen0 : exists k0, String.length cmd0 = (4 * k0)%nat).
  { subst cmd0. destruct (negb _).
    - exists 1%nat. now rewrite slew_rate_length.
    - exists 0%nat. reflexivity. }
  destruct Hlen0 as [k0 Hlen0].
  destruct (axis_block (i =? adj)%nat ":Qe#" ":Qw#" ":Me#" ":Mw#"
              (C.fmax (epsilon (adjustment_at adj)) RA_GRANULARITY) ra_delta
              cmd0 (east d) (west d))
    as (cmd1 & e & w & k1 & E1 & Hew' & Hlen1 & Hrun1 & _);
    try reflexivity; try assumption.
  { apply Qlt_le_trans with RA_GRANULARITY;
      [ exact RA_GRANULARITY_pos | apply fmax_ge_r ]. }
  rewrite E1.
  destruct (axis_block (j =? adj)%nat ":Qs#" ":Qn#" ":Ms#" ":Mn#"
              (C.fmax (epsilon (adjustment_at adj)) DEC_GRANULARITY) dec_delta
              cmd1 (south d) (north d))
    as (cmd2 & s & n & k2 & E2 & Hsn' & Hlen2 & Hrun2 & _);
    try reflexivity; try assumption.
  { apply Qlt_le_trans with DEC_GRANULARITY;
      [ exact DEC_GRANULARITY_pos | apply fmax_ge_r ]. }
  { now rewrite andb_comm. }
  rewrite E2.
  assert (Hns' : n && s = false) by now rewrite andb_comm.
  rewrite Hew', Hns'. simpl orb. cbv iota.
  rewrite Hw. rewrite andb_false_r.
  assert (Hmove : e || w || n || s = true).
  { unfold away in Haway. fold ra_delta dec_delta in Haway.
    subst adj. unfold driving in *.
    destruct (i <? j)%nat eqn:Elt.
    - apply Nat.ltb_lt in Elt.
      rewrite Nat.eqb_refl in Hrun2. destruct (Hrun2 eq_refl) as [-> ->].
      assert (Hj0 : j <> 0%nat) by lia.
      pose proof (chosen_rate_moves DEC_GRANULARITY dec_delta j
                    (or_intror eq_refl) Hj (or_introl Hj0)) as Hm.
      cbv zeta in Hm. apply orb_true_iff in Hm.
      destruct Hm as [-> | ->]; now rewrite ?orb_true_r.
    - apply Nat.ltb_ge in Elt.
      rewrite Nat.eqb_refl in Hrun1. destruct (Hrun1 eq_refl) as [-> ->].
      destruct (C.dle RA_GRANULARITY (C.fabs ra_delta)) eqn:Era.
      + pose proof (chosen_rate_moves RA_GRANULARITY ra_delta i
                      (or_introl eq_refl) Hi (or_intror Era)) as Hm.
        cbv zeta in Hm. rewrite Hm. reflexivity.
      + simpl in Haway.
        destruct i as [|i'].
        * assert (j = 0%nat) by lia. subst j.
          destruct (Hrun2 eq_refl) as [-> ->].
          pose proof (chosen_rate_moves DEC_GRANULARITY dec_delta 0%nat
                        (or_intror eq_refl) Hj (or_intror Haway)) as Hm.
          cbv zeta in Hm. apply orb_true_iff in Hm.
          destruct Hm as [-> | ->]; now rewrite ?orb_true_r.
        * assert (Hi0 : S i' <> 0%nat) by lia.
          pose proof (chosen_rate_moves RA_GRANULARITY ra_delta (S i')
                        (or_introl eq_refl) Hi (or_introl Hi0)) as Hm.
          cbv zeta in Hm. rewrite Hm. reflexivity. }
  assert (Hclear : negb e && negb w && negb n && negb s = false).
  { destruct e, w, n, s; try reflexivity. discriminate Hmove. }
  rewrite Hclear.
  exists e, w, n, s.
  exists (match cmd2 with EmptyString => [] | _ => [cmd2] end).
  split.
  { destruct cmd2 as [|c r] eqn:Ecmd; [ intros [] | ].
    intros [H | []]. rewrite <- Ecmd in *. rewrite H in Hlen2.
    simpl in Hlen2. lia. }
  split; [ exact Hmove | ].
  split; [ exact Hew' | ].
  split; [ exact Hns' | ].
  destruct (countdown d - 1 <=? 0); reflexivity.
Qed.

(** Any slewing tick away from the target whose commands go through and
    which leaves a marker set takes one from the countdown (after the reset
    to the maximum, when the slew rate went down), and ends in [slew_failure]
    when the countdown reaches zero. *)
Lemma slewing_counts_down (env : Environment) (d d' : Driver)
    (result : bool) (sent : list string) :
  write_ok env = true ->
  away (currentPosition d) (targetPosition d) = true ->
  slewing env d = Returned result d' sent ->
  east d' || west d' || north d' || south d' = true ->
  (countdown d' = countdown d - 1
   \/ countdown d' = MAX_CONVERGENCE_LOOPS - 1) /\
  ((countdown d' <= 0 /\ result = false /\ TrackState d' = SCOPE_TRACKING /\
    exists cmds, sent = (cmds ++ [":Q#"])%list)
   \/ (0 < countdown d' /\ result = true /\ TrackState d' = TrackState d)).
Proof.
  intros Hw Haway. unfold slewing.
  fold (away (currentPosition d) (targetPosition d)). rewrite Haway.
  rewrite !choose_loop_spec.
  destruct (choose_adjustment _) as [ra_adjust|]; cbv beta iota; [ | discriminate ].
  destruct (choose_adjustment _) as [dec_adjust|]; cbv beta iota; [ | discriminate ].
  fold (driving ra_adjust dec_adjust).
  set (adj := driving ra_adjust dec_adjust).
  set (c0 := if negb (same_adjustment (previous_adjustment d) adj)
                && below_previous adj (previous_adjustment d)
             then MAX_CONVERGENCE_LOOPS else countdown d).
  assert (Hc0 : c0 = countdown d \/ c0 = MAX_CONVERGENCE_LOOPS)
    by (subst c0; destruct (negb _ && _); auto).
  destruct (if (ra_adjust =? adj)%nat then _ else _)
    as [[[cmd1 e] w]|]; [ | discriminate ].
  destruct (if (dec_adjust =? adj)%nat then _ else _)
    as [[[cmd2 s] n]|]; [ | discriminate ].
  destruct ((e && w) || (n && s)); [ discriminate | ].
  rewrite Hw, andb_false_r.
  destruct (negb e && negb w && negb n && negb s) eqn:Eclear.
  - intro H. inversion H; subst. simpl. intro Hset. exfalso.
    destruct e, w, n, s; discriminate.
  - destruct (c0 - 1 <=? 0) eqn:Ez.
    + apply Z.leb_le in Ez. unfold slew_failure.
      intro H. injection H as <- <- <-. cbn [countdown TrackState]. intros _.
      split; [ destruct Hc0 as [-> | ->]; auto | ]. left.
      split; [ exact Ez | ]. split; [ reflexivity | ].
      split; [ reflexivity | ]. eexists. reflexivity.
    + apply Z.leb_gt in Ez.
      intro H. injection H as <- <- <-. cbn [countdown TrackState]. intros _.
      split; [ destruct Hc0 as [-> | ->]; auto | ]. right.
      split; [ exact Ez | ]. split; reflexivity.
Qed.

Lemma ReadScopeStatus_counts_down (env : Environment) (d d' : Driver)
    (cur : MechanicalPoint) (result : bool) (sent : list string) :
  TrackState d = SCOPE_SLEWING ->
  isConnected env = true ->
  write_ok env = true ->
  getCurrentPosition env (currentPosition d) = (false, cur) ->
  away cur (targetPosition d) = true ->
  ReadScopeStatus env d = Returned result d' sent ->
  east d' || west d' || north d' || south d' = true ->
  (countdown d' = countdown d - 1
   \/ countdown d' = MAX_CONVERGENCE_LOOPS - 1) /\
  ((countdown d' <= 0 /\ result = false /\ TrackState d' = SCOPE_TRACKING /\
    exists cmds, sent = (cmds ++ [":Q#"])%list)
   \/ (0 < countdown d' /\ result = true /\ TrackState d' = SCOPE_SLEWING)).
Proof.
  intros Hs Hc Hw Hread Haway. unfold ReadScopeStatus.
  rewrite Hc, Hread, Hs. cbn [negb]. cbv iota.
  intros Hstep Hset.
  apply (slewing_counts_down env _ d' result sent Hw) in Hstep;
    [ | exact Haway | exact Hset ].
  exact Hstep.
Qed.

Section HeldAway.

Variable env : Environment.
Variables cur tgt : MechanicalPoint.
Variables i j : nat.

Hypothesis connected : isConnected env = true.
Hypothesis writes : write_ok env = true.
Hypothesis held_away : away cur tgt = true.
Hypothesis ra_rate :
  choose_adjustment (C.fabs (RA_degrees_to cur tgt)) = Some i.
Hypothesis dec_rate :
  choose_adjustment (C.fabs (DEC_degrees_to cur tgt)) = Some j.

Lemma tick_held (d : Driver) :
  holding env cur tgt i j d ->
  exists e w n s cmds,
    ~ In ":Q#" cmds /\ e && w = false /\ n && s = false /\
    ReadScopeStatus env d
    = if countdown d - 1 <=? 0
      then Returned false
             (mkDriver SCOPE_TRACKING (countdown d - 1) 1000 cur tgt
                (Some (driving i j)) e w n s)
             (cmds ++ [":Q#"])%list
      else Returned true
             (mkDriver SCOPE_SLEWING (countdown d - 1)
                (polling_interval (adjustment_at (driving i j))) cur tgt
                (Some (driving i j)) e w n s)
             cmds.
Proof.
  intros (Hslew & Hex & Hread & Htgt & Hprev).
  unfold ReadScopeStatus. rewrite connected, Hread, Hslew. simpl negb. cbv iota.
  destruct (slewing_away env
              (mkDriver SCOPE_SLEWING (countdown d) (POLLMS d) cur
                 (targetPosition d) (previous_adjustment d)
                 (east d) (west d) (north d) (south d)) i j)
    as (e & w & n & s & cmds & Hq & _ & Hew & Hns & E);
    simpl; try rewrite Htgt; try assumption.
  exists e, w, n, s, cmds.
  repeat (split; [ assumption | ]).
  rewrite <- Htgt. exact E.
Qed.

Lemma poll_held (k : nat) :
  forall d,
    holding env cur tgt i j d -> Z.of_nat k < countdown d ->
    exists d' log,
      poll k env d = Some (d', log) /\
      holding env cur tgt i j d' /\
      countdown d' = countdown d - Z.of_nat k /\
      List.length log = k /\
      Forall quiet log.
Proof.
  induction k as [|k IH]; intros d Hd Hk.
  - exists d, []. simpl. repeat split; try apply Hd; try lia. constructor.
  - destruct (tick_held d Hd) as (e & w & n & s & cmds & Hq & Hew & Hns & E).
    replace (countdown d - 1 <=? 0) with false in E
      by (symmetry; apply Z.leb_gt; lia).
    set (d1 := mkDriver SCOPE_SLEWING (countdown d - 1)
                 (polling_interval (adjustment_at (driving i j))) cur tgt
                 (Some (driving i j)) e w n s) in *.
    assert (Hd1 : holding env cur tgt i j d1).
    { destruct Hd as (_ & _ & Hread & _ & _).
      unfold holding, exclusive. simpl.
      repeat split; try assumption.
      - exact (getCurrentPosition_again env _ _ Hread).
      - right. reflexivity. }
    destruct (IH d1 Hd1) as (d' & log & Ep & Hd' & Hc & Hlen & Hall).
    { simpl. lia. }
    exists d', ((true, cmds) :: log).
    cbn [poll]. rewrite E, Ep.
    split; [ reflexivity | ].
    split; [ exact Hd' | ].
    split; [ rewrite Hc; simpl; lia | ].
    split; [ simpl; now rewrite Hlen | ].
    constructor; [ split; [ reflexivity | exact Hq ] | exact Hall ].
Qed.

End HeldAway.

Lemma poll_app (n m : nat) (env : Environment) (d d' d'' : Driver)
    (log log' : list (bool * list string)) :
  poll n env d = Some (d', log) ->
  poll m env d' = Some (d'', log') ->
  poll (n + m) env d = Some (d'', (log ++ log')%list).
Proof.
  revert d log. induction n as [|n IH]; intros d log Hn Hm.
  - simpl in Hn. inversion Hn; subst. exact Hm.
  - cbn [poll Nat.add] in *.
    destruct (ReadScopeStatus env d) as [r d1 sent| |];
      [ | discriminate | discriminate ].
    destruct (poll n env d1) as [[d2 l2]|] eqn:E; [ | discriminate ].
    inversion Hn; subst.
    rewrite (IH d1 l2 E Hm). reflexivity.
Qed.

Lemma quiet_count (log : list (bool * list string)) :
  Forall quiet log ->
  count_occ string_dec (List.concat (map snd log)) ":Q#" = 0%nat.
Proof.
  induction 1 as [|entry log [_ Hq] _ IH]; [ reflexivity | ].
  simpl. rewrite count_occ_app, IH.
  apply (count_occ_not_In string_dec) in Hq. rewrite Hq. reflexivity.
Qed.

Lemma Goto_started (env : Environment) (d0 d : Driver) (ra dec : Q) :
  Goto env d0 ra dec = (true, d) ->
  countdown d = MAX_CONVERGENCE_LOOPS /\ TrackState d = SCOPE_SLEWING /\
  currentPosition d = currentPosition d0 /\
  east d = east d0 /\ west d = west d0 /\
  north d = north d0 /\ south d = south d0.
Proof.
  unfold Goto.
  destruct (EqNP_busy env && negb (abortSlew_ok env)); [ discriminate | ].
  destruct (setTargetPosition_error env); [ discriminate | ].
  intro H. inversion H; subst. simpl. repeat split; reflexivity.
Qed.

(** C8: a goto that starts sets the countdown to 144 and the state to
    slewing.  Any slewing tick whose position is read away from the target,
    whose commands go through and which leaves some movement marker set takes
    one from the countdown (reset to 144 first when the slew rate went down);
    when the countdown reaches zero the tick sends the stop-all command last,
    returns [false] and leaves the slewing state, else it returns [true] and
    stays slewing.  If then the mount keeps answering one position away from the
    target (a slew rate exists for both distances) and the commands go
    through, every one of the next 143 calls of [ReadScopeStatus] returns
    [true] without sending the stop-all command, leaves the driver slewing and
    takes one from the countdown; the 144th call brings the countdown to zero,
    sends the stop-all command [":Q#"] as its last command, returns [false]
    and leaves the slewing state.  The stop-all command is sent exactly once
    over the 144 calls. *)
Theorem C8_convergence_timeout
    (envG env : Environment) (d0 d : Driver) (ra dec : Q)
    (cur : MechanicalPoint) (i j : nat) :
  exclusive d0 ->
  Goto envG d0 ra dec = (true, d) ->
  isConnected env = true ->
  write_ok env = true ->
  getCurrentPosition env (currentPosition d) = (false, cur) ->
  away cur (targetPosition d) = true ->
  choose_adjustment (C.fabs (RA_degrees_to cur (targetPosition d))) = Some i ->
  choose_adjustment (C.fabs (DEC_degrees_to cur (targetPosition d))) = Some j ->
  countdown d = 144 /\ TrackState d = SCOPE_SLEWING /\
  (forall env' s cur' result s' sent',
     TrackState s = SCOPE_SLEWING ->
     isConnected env' = true -> write_ok env' = true ->
     getCurrentPosition env' (currentPosition s) = (false, cur') ->
     away cur' (targetPosition s) = true ->
     ReadScopeStatus env' s = Returned result s' sent' ->
     east s' || west s' || north s' || south s' = true ->
     (countdown s' = countdown s - 1 \/ countdown s' = 144 - 1) /\
     ((countdown s' <= 0 /\ result = false /\
       TrackState s' = SCOPE_TRACKING /\
       exists cmds, sent' = (cmds ++ [":Q#"])%list)
      \/ (0 < countdown s' /\ result = true /\
          TrackState s' = SCOPE_SLEWING))) /\
  (forall k, (k <= 143)%nat ->
     exists dk logk,
       poll k env d = Some (dk, logk) /\
       TrackState dk = SCOPE_SLEWING /\
       countdown dk = 144 - Z.of_nat k /\
       List.length logk = k /\ Forall quiet logk) /\
  exists d143 log d144 cmds,
    poll 143 env d = Some (d143, log) /\
    TrackState d143 = SCOPE_SLEWING /\ countdown d143 = 1 /\
    ReadScopeStatus env d143 = Returned false d144 (cmds ++ [":Q#"])%list /\
    ~ In ":Q#" cmds /\
    TrackState d144 = SCOPE_TRACKING /\ countdown d144 = 0 /\
    poll 144 env d = Some (d144, (log ++ [(false, (cmds ++ [":Q#"])%list)])%list) /\
    count_occ string_dec
      (List.concat (map snd (log ++ [(false, (cmds ++ [":Q#"])%list)])%list)) ":Q#"
    = 1%nat.
Proof.
  intros Hex0 Hgoto Hconn Hwrite Hread Haway Hi Hj.
  destruct (Goto_started envG d0 d ra dec Hgoto)
    as (Hc & Hs & _ & He & Hw & Hn & Hso).
  unfold MAX_CONVERGENCE_LOOPS in Hc.
  assert (Hhold : holding env cur (targetPosition d) i j d).
  { unfold holding. repeat split; try assumption.
    - unfold exclusive in *. rewrite He, Hw. apply Hex0.
    - unfold exclusive in *. rewrite Hn, Hso. apply Hex0.
    - left. exact Hc. }
  split; [ exact Hc | ]. split; [ exact Hs | ].
  split; [ intros env' s cur' r s' sent';
           exact (ReadScopeStatus_counts_down env' s s' cur' r sent') | ].
  assert (Hpoll : forall k, (k <= 143)%nat ->
            exists dk logk,
              poll k env d = Some (dk, logk) /\
              holding env cur (targetPosition d) i j dk /\
              countdown dk = 144 - Z.of_nat k /\
              List.length logk = k /\ Forall quiet logk).
  { intros k Hk.
    destruct (poll_held env cur (targetPosition d) i j Hconn Hwrite Haway Hi Hj
                k d Hhold ltac:(lia))
      as (dk & logk & Ep & Hdk & Hck & Hlen & Hall).
    exists dk, logk. rewrite Hck, Hc. repeat split; try assumption; apply Hdk. }
  split.
  { intros k Hk. destruct (Hpoll k Hk) as (dk & logk & Ep & Hdk & Hck & Hlen & Hall).
    exists dk, logk. repeat split; try assumption; apply Hdk. }
  destruct (Hpoll 143%nat (le_n _)) as (d143 & log & Ep & Hd143 & Hck & Hlen & Hall).
  destruct (tick_held env cur (targetPosition d) i j Hconn Hwrite Haway Hi Hj
              d143 Hd143)
    as (e & w & n & s & cmds & Hq & Hew & Hns & E).
  replace (countdown d143 - 1 <=? 0) with true in E
    by (symmetry; apply Z.leb_le; lia).
  eexists d143, log, _, cmds.
  split; [ exact Ep | ].
  split; [ apply Hd143 | ].
  split; [ lia | ].
  split; [ exact E | ].
  split; [ exact Hq | ].
  split; [ reflexivity | ].
  split; [ simpl; lia | ].
  split.
  - change 144%nat with (143 + 1)%nat.
    apply (poll_app 143 1 env d d143 _ log _ Ep).
    cbn [poll]. rewrite E. reflexivity.
  - rewrite map_app, List.concat_app, count_occ_app, (quiet_count log Hall).
    simpl. rewrite app_nil_r, count_occ_app.
    apply (count_occ_not_In string_dec) in Hq. rewrite Hq. reflexivity.
Qed.

Lemma C8_convergence_timeout_witness :
  let d := snd (Goto (mount_replies "" "") driver_start 2 80) in
  let env := mount_replies "01:00:00" "+10:00:00" in
  countdown d = 144 /\
  exists d144 log,
    poll 144 env d = Some (d144, log) /\ TrackState d144 = SCOPE_TRACKING.
Proof.
  cbv zeta.
  destruct (C8_convergence_timeout
              (mount_replies "" "") (mount_replies "01:00:00" "+10:00:00")
              driver_start (snd (Goto (mount_replies "" "") driver_start 2 80))
              2 80 (mkPoint 3600 288000 PIER_EAST) 4 0)
    as (Hc & _ & _ & _ & d143 & log & d144 & cmds & _ & _ & _ & _ & _ & Ht & _ & Ep & _).
  - split; reflexivity.
  - vm_compute. reflexivity.
  - reflexivity.
  - reflexivity.
  - vm_compute. reflexivity.
  - vm_compute. reflexivity.
  - vm_compute. reflexivity.
  - vm_compute. reflexivity.
  - split; [ exact Hc | ].
    exists d144, (log ++ [(false, (cmds ++ [":Q#"])%list)])%list.
    split; [ exact Ep | exact Ht ].
Defined.

(** * Further properties of the code *)

(** ** Encoding and decoding of RA *)

Lemma RA_fields_bound (p : MechanicalPoint) :
  RA_normalized p ->
  0 <= RA_hours p < 24 /\ 0 <= RA_minutes p < 60 /\ 0 <= RA_seconds p < 60.
Proof.
  unfold RA_normalized, RA_hours, RA_minutes, RA_seconds. intro H.
  assert (H1 : 0 <= _RAm p ÷ 3600 < 24)
    by (Z.to_euclidean_division_equations; lia).
  assert (H2 : 0 <= _RAm p ÷ 60 < 1440)
    by (Z.to_euclidean_division_equations; lia).
  rewrite !to_int_small by lia.
  destruct (pier_eqb _ _); Z.to_euclidean_division_equations; lia.
Qed.

Lemma toStringRA_fields (p : MechanicalPoint) (n : Z) :
  toStringRA p n
  = snprintf_result
      (C.fmt_02d (RA_hours p) ++ ":" ++ C.fmt_02d (RA_minutes p) ++ ":"
       ++ C.fmt_02d (RA_seconds p)) n.
Proof. reflexivity. Qed.

(** Three numbers below 100 written with [%02d:%02d:%02d] make a text of the
    exact pattern, of eight characters, which [sscanf] reads back. *)
Lemma triplet_written (h m s : Z) :
  0 <= h < 100 -> 0 <= m < 100 -> 0 <= s < 100 ->
  let text := C.fmt_02d h ++ ":" ++ C.fmt_02d m ++ ":" ++ C.fmt_02d s in
  is_HH_MM_SS text = true /\
  String.length text = 8%nat /\
  C.sscanf_3 text = (3, (h, m, s)).
Proof.
  intros Hh Hm Hs.
  destruct (fmt_02d_digits h Hh) as (h1 & h2 & Eh & Dh1 & Dh2 & Vh).
  destruct (fmt_02d_digits m Hm) as (m1 & m2 & Em & Dm1 & Dm2 & Vm).
  destruct (fmt_02d_digits s Hs) as (s1 & s2 & Es & Ds1 & Ds2 & Vs).
  cbv zeta. rewrite Eh, Em, Es. cbn [append].
  assert (Hpat : is_HH_MM_SS
            (String h1 (String h2 (String ":" (String m1 (String m2
               (String ":" (String s1 (String s2 EmptyString)))))))) = true).
  { unfold is_HH_MM_SS. rewrite Dh1, Dh2, Dm1, Dm2, Ds1, Ds2. reflexivity. }
  split; [ exact Hpat | ]. split; [ reflexivity | ].
  destruct (sscanf_3_exact _ Hpat)
    as (a1 & a2 & b1 & b2 & c1 & c2 & Eq & Escan & _).
  injection Eq as <- <- <- <- <- <-.
  rewrite Escan, Vh, Vm, Vs. reflexivity.
Qed.




(** X2: for an RA within one turn, [toStringRA] returns the null pointer
    exactly when the buffer is shorter than 9 bytes (the eight characters and
    the terminator); in a longer buffer the text is the eight characters of
    the hours, shifted by 12 when the pier side is WEST, the minutes and the
    seconds. *)
Theorem X2_toStringRA_buffer (p : MechanicalPoint) (n : Z) :
  RA_normalized p -> 0 <= n < 2147483648 ->
  (toStringRA p n = None <-> n < 9) /\
  (9 <= n ->
   toStringRA p n
   = Some (C.fmt_02d (RA_hours p) ++ ":" ++ C.fmt_02d (RA_minutes p) ++ ":"
           ++ C.fmt_02d (RA_seconds p)) /\
   RA_hours p
   = ((if pier_eqb (_pierSide p) PIER_WEST then 12 else 0) + _RAm p / 3600)
     mod 24 /\
   RA_minutes p = (_RAm p / 60) mod 60 /\
   RA_seconds p = _RAm p mod 60).
Proof.
  intros Hp Hn.
  pose proof (RA_fields_bound p Hp) as (Hh & Hmi & Hs).
  destruct (triplet_written (RA_hours p) (RA_minutes p) (RA_seconds p))
    as (_ & Hlen & _); try lia.
  cbv zeta in Hlen. rewrite toStringRA_fields.
  split.
  - unfold snprintf_result. rewrite Hlen, to_int_small by lia.
    change (Z.of_nat 8) with 8. cbn [Z.ltb Z.compare andb].
    destruct (8 <? n) eqn:E.
    + apply Z.ltb_lt in E. split; [ discriminate | lia ].
    + apply Z.ltb_ge in E. split; [ lia | reflexivity ].
  - intro H9. split; [ apply snprintf_result_fits; rewrite Hlen; lia | ].
    unfold RA_normalized, RA_hours, RA_minutes, RA_seconds in *.
    assert (H1 : 0 <= _RAm p ÷ 3600 < 24)
      by (Z.to_euclidean_division_equations; lia).
    assert (H2 : 0 <= _RAm p ÷ 60 < 1440)
      by (Z.to_euclidean_division_equations; lia).
    rewrite !to_int_small by lia.
    rewrite !Z.quot_div_nonneg in * by lia.
    assert (H3 : 0 <= _RAm p / 60) by (apply Z.div_pos; lia).
    rewrite !Z.rem_mod_nonneg by (try lia; destruct (pier_eqb _ _); lia).
    split; [ | split; reflexivity ].
    replace ((if pier_eqb (_pierSide p) PIER_WEST then 12 else 0) + 24
             + _RAm p / 3600)
      with ((if pier_eqb (_pierSide p) PIER_WEST then 12 else 0)
            + _RAm p / 3600 + 1 * 24) by lia.
    apply Z.mod_add. lia.
Qed.

Lemma X2_toStringRA_buffer_witness :
  toStringRA (mkPoint 45296 0 PIER_WEST) 8 = None <-> 8 < 9.
Proof.
  refine (proj1 (X2_toStringRA_buffer (mkPoint 45296 0 PIER_WEST) 8 _ _));
    unfold RA_normalized; simpl; lia.
Defined.

(** ** Encoding and decoding of DEC *)

(** What [parseStringDEC] reads in a text that [toStringDEC] wrote: the
    magnitude of the value, with the sign of its truncated degrees. *)
Lemma DEC_written_then_read (p : MechanicalPoint) (n m : Z) :
  Z.abs (DEC_value p) < 256 * 3600 ->
  10 <= n < 2147483648 -> 9 <= m ->
  exists text,
    toStringDEC p n = Some text /\
    String.length text = 9%nat /\
    parseStringDEC p text m
    = (false,
       set_DECm p
         (90 * 3600
          + (if pier_eqb (_pierSide p) PIER_EAST then -1 else 1)
            * (if 0 <=? DEC_degrees p then 1 else -1)
            * Z.abs (DEC_value p))).
Proof.
  intros Hv Hn Hm.
  assert (Hr : DEC_in_range p) by (unfold DEC_in_range; lia).
  rewrite (toStringDEC_total p n Hr Hn). eexists. split; [ reflexivity | ].
  destruct (DEC_fields_value p Hv) as [Hdeg Hsum].
  destruct (fmt_02d_digits (DEC_minutes p)) as (a & b & Em & Ha & Hb & Hab);
    [ pose proof (DEC_minutes_bound p Hr); lia | ].
  destruct (fmt_02d_digits (DEC_seconds p)) as (c & e & Es & Hc & He & Hce);
    [ pose proof (DEC_seconds_bound p Hr); lia | ].
  rewrite Em, Es.
  split; [ reflexivity | ].
  pose proof (degrees_read_back_all (Z.abs (DEC_degrees p))
                ltac:(pose proof (DEC_degrees_bound p); lia)) as Hback.
  unfold degrees_read_back in Hback.
  set (high := high_digit_of (Z.abs (DEC_degrees p))) in *.
  set (low := C.char_of (48 + Z.rem (Z.abs (DEC_degrees p)) 10)) in *.
  destruct (hundreds_switch high) as [h t] eqn:Eh.
  do 4 (apply andb_true_iff in Hback; destruct Hback as [Hback ?]).
  apply negb_true_iff in Hback.
  repeat match goal with
         | H : negb _ = true |- _ => apply negb_true_iff in H
         | H : (_ <=? _) = true |- _ => apply Z.leb_le in H
         | H : (_ =? _) = true |- _ => apply Z.eqb_eq in H
         end.
  rewrite parseStringDEC_eq.
  replace (m <? 9) with false by (symmetry; apply Z.ltb_ge; lia).
  cbv zeta. cbn [append].
  rewrite strncpy_9;
    try (apply digit_not_NUL; assumption); try assumption; try reflexivity;
    [ | destruct (0 <=? DEC_degrees p); reflexivity ].
  cbn [byte_at String.get].
  replace ((C.code_of high <? 48) || (73 <? C.code_of high)) with false
    by (symmetry; apply orb_false_iff; split; apply Z.ltb_ge; lia).
  f_equal. f_equal.
  unfold DEC_ticks_of. cbn [byte_at String.get]. rewrite Eh.
  rewrite !atoi_two_digits by assumption.
  match goal with H : C.atoi _ = _ |- _ => rewrite H end.
  rewrite Hab, Hce, Hsum.
  destruct (0 <=? DEC_degrees p); reflexivity.
Qed.





(** X5: for a value between -1 degree and 0 the text written carries the sign
    of the truncated degrees, which is [+]; read back under the same pier
    side it gives the mirror image of the DEC through the pole,
    [2 * 90 * 3600 - ticks], at twice the distance to the pole from the
    original. *)
Theorem X5_DEC_last_degree_is_mirrored (p : MechanicalPoint) (n : Z) :
  -3600 < DEC_value p < 0 ->
  10 <= n < 2147483648 ->
  exists text,
    toStringDEC p n = Some text /\
    String.get 0 text = Some "+"%char /\
    parseStringDEC p text n = (false, set_DECm p (2 * (90 * 3600) - _DECm p)).
Proof.
  intros Hv Hn.
  destruct (DEC_written_then_read p n n) as (text & Et & Hlen & Ep); try lia.
  destruct (DEC_fields_value p ltac:(lia)) as [Hdeg _].
  assert (Hz : DEC_degrees p = 0)
    by (rewrite Hdeg; Z.to_euclidean_division_equations; lia).
  exists text. split; [ exact Et | ].
  split.
  - assert (Hr : DEC_in_range p) by (unfold DEC_in_range; lia).
    rewrite (toStringDEC_total p n Hr Hn) in Et. injection Et as <-.
    rewrite Hz. reflexivity.
  - rewrite Ep, Hz. cbn [Z.leb Z.compare]. f_equal. f_equal.
    unfold DEC_value in *.
    destruct (pier_eqb (_pierSide p) PIER_EAST); lia.
Qed.

Lemma X5_DEC_last_degree_is_mirrored_witness :
  exists text,
    toStringDEC (mkPoint 0 322200 PIER_WEST) 10 = Some text /\
    String.get 0 text = Some "+"%char /\
    parseStringDEC (mkPoint 0 322200 PIER_WEST) text 10
    = (false, set_DECm (mkPoint 0 322200 PIER_WEST) (2 * (90 * 3600) - 322200)).
Proof.
  apply (X5_DEC_last_degree_is_mirrored (mkPoint 0 322200 PIER_WEST) 10);
    unfold DEC_value; simpl; lia.
Defined.

(** X6: for a DEC value within the range of an [int], [toStringDEC] returns
    the null pointer exactly when the buffer is shorter than 10 bytes (the
    nine characters and the terminator); in particular it never fails for
    want of a digit, whatever the number of degrees. *)
Theorem X6_toStringDEC_buffer (p : MechanicalPoint) (n : Z) :
  DEC_in_range p -> 0 <= n < 2147483648 ->
  (toStringDEC p n = None <-> n < 10) /\
  (forall text, toStringDEC p n = Some text -> String.length text = 9%nat).
Proof.
  intros Hr Hn.
  pose proof (DEC_degrees_bound p) as Hd.
  pose proof (DEC_minutes_bound p Hr) as Hm.
  pose proof (DEC_seconds_bound p Hr) as Hs.
  assert (Hfmt : toStringDEC p n
                 = snprintf_result
                     (String (if 0 <=? DEC_degrees p then "+"%char else "-"%char)
                        (String (high_digit_of (Z.abs (DEC_degrees p)))
                           (String (C.char_of (48 + Z.rem (Z.abs (DEC_degrees p)) 10))
                              (":" ++ C.fmt_02d (DEC_minutes p) ++ ":"
                               ++ C.fmt_02d (DEC_seconds p))))) n).
  { unfold toStringDEC, formatDEC.
    replace (DEC_degrees p <? -255) with false by (symmetry; apply Z.ltb_ge; lia).
    replace (255 <? DEC_degrees p) with false by (symmetry; apply Z.ltb_ge; lia).
    cbn [orb]. rewrite (high_digit_table (DEC_degrees p)) by lia. reflexivity. }
  rewrite Hfmt. unfold snprintf_result.
  cbn [String.length append]. rewrite length_append. cbn [String.length].
  rewrite !fmt_02d_length by lia. rewrite to_int_small by lia.
  change (Z.of_nat (S (S (S (S (2 + S 2)))))) with 9.
  cbn [Z.ltb Z.compare andb].
  destruct (9 <? n) eqn:E.
  - apply Z.ltb_lt in E. split; [ split; [ discriminate | lia ] | ].
    intros text H. injection H as <-.
    cbn [String.length append]. rewrite length_append. cbn [String.length].
    rewrite !fmt_02d_length by lia. reflexivity.
  - apply Z.ltb_ge in E. split; [ split; [ lia | reflexivity ] | ].
    intros text H. discriminate H.
Qed.

Lemma X6_toStringDEC_buffer_witness :
  toStringDEC (mkPoint 0 322200 PIER_WEST) 9 = None <-> 9 < 10.
Proof.
  refine (proj1 (X6_toStringDEC_buffer (mkPoint 0 322200 PIER_WEST) 9 _ _)).
  - unfold DEC_in_range, DEC_value. simpl. lia.
  - lia.
Defined.

(** ** The setters and the getters *)

Lemma Qtrunc_nonpos (q : Q) : (q <= 0)%Q -> C.Qtrunc q = Qceiling q.
Proof.
  destruct q as [num den]. unfold Qle, C.Qtrunc, Qceiling, Qfloor. simpl.
  intro H. Z.to_euclidean_division_equations. nia.
Qed.

Lemma fmod_nonpos (x y : Q) :
  (x <= 0)%Q -> (0 < y)%Q -> (- y < C.fmod x y /\ C.fmod x y <= 0)%Q.
Proof.
  intros Hx Hy. unfold C.fmod.
  assert (Hq : (x / y <= 0)%Q).
  { apply Qle_shift_div_r; [ exact Hy | lra ]. }
  rewrite (Qtrunc_nonpos _ Hq).
  pose proof (Qle_ceiling (x / y)) as H1.
  pose proof (Qceiling_lt (x / y)) as H2.
  unfold Z.sub in H2. rewrite inject_Z_plus in H2.
  change (inject_Z (- (1))) with (- (1))%Q in H2.
  set (k := inject_Z (Qceiling (x / y))) in *.
  assert (Hxy : (x / y * y == x)%Q)
    by (field; intro Hz; rewrite Hz in Hy; discriminate Hy).
  assert (H3 : (x / y * y <= k * y)%Q) by (apply Qmult_le_compat_r; lra).
  assert (H4 : ((k + - (1)) * y < x / y * y)%Q)
    by (apply Qmult_lt_compat_r; lra).
  rewrite Hxy in H3, H4. split; lra.
Qed.

Lemma lround_between_neg (q : Q) (lo hi : Z) :
  hi <= 0 -> (inject_Z lo <= q)%Q -> (q <= inject_Z hi)%Q ->
  lo <= C.lround q <= hi.
Proof.
  intros Hhi0 Hlo Hhi.
  assert (H0 : (q <= 0)%Q).
  { apply Qle_trans with (inject_Z hi); [ exact Hhi | ].
    change 0%Q with (inject_Z 0). now rewrite <- Zle_Qle. }
  unfold C.lround.
  destruct (Qle_bool 0 q) eqn:E.
  - apply Qle_bool_iff in E.
    pose proof (Qfloor_le (q + (1 # 2))) as H1.
    pose proof (Qlt_floor (q + (1 # 2))) as H2.
    assert (Hh : (0 <= inject_Z hi)%Q) by lra.
    change 0%Q with (inject_Z 0) in Hh. rewrite <- Zle_Qle in Hh.
    assert (Hl : (inject_Z lo <= inject_Z 0)%Q) by (change (inject_Z 0) with 0%Q; lra).
    rewrite <- Zle_Qle in Hl.
    assert (Ha : (inject_Z 0 < inject_Z (Qfloor (q + (1 # 2)) + 1))%Q)
      by (change (inject_Z 0) with 0%Q; lra).
    assert (Hb : (inject_Z (Qfloor (q + (1 # 2))) < inject_Z 1)%Q)
      by (change (inject_Z 1) with 1%Q; lra).
    rewrite <- Zlt_Qlt in Ha, Hb. lia.
  - pose proof (Qle_ceiling (q - (1 # 2))) as H1.
    pose proof (Qceiling_lt (q - (1 # 2))) as H2.
    unfold Z.sub in H2. rewrite inject_Z_plus in H2.
    change (inject_Z (- (1))) with (- (1))%Q in H2.
    assert (Ha : (inject_Z (lo - 1) < inject_Z (Qceiling (q - (1 # 2))))%Q).
    { unfold Z.sub. rewrite inject_Z_plus.
      change (inject_Z (- (1))) with (- (1))%Q. lra. }
    assert (Hb : (inject_Z (Qceiling (q - (1 # 2)) - 1) < inject_Z hi)%Q).
    { unfold Z.sub. rewrite inject_Z_plus.
      change (inject_Z (- (1))) with (- (1))%Q. lra. }
    rewrite <- Zlt_Qlt in Ha, Hb. lia.
Qed.

Lemma setter_ticks_bound (value turn : Q) (ticks : Z) :
  (0 < turn)%Q -> (inject_Z ticks == turn * 3600)%Q -> 0 <= ticks <= 2 ^ 53 ->
  - ticks <= C.lround (C.dmul (C.fmod (C.dadd value turn) turn) 3600) <= ticks /\
  ((- turn <= value)%Q ->
   0 <= C.lround (C.dmul (C.fmod (C.dadd value turn) turn) 3600)).
Proof.
  intros Hturn Hticks Hpos.
  split; [ | intro H; apply (setter_nonneg value turn ticks); assumption ].
  unfold C.dmul, C.dadd. set (s := C.b64 (value + turn)).
  destruct (Qlt_le_dec s 0) as [Hneg | Hnn].
  - destruct (fmod_nonpos s turn) as [H1 H2]; [ lra | exact Hturn | ].
    destruct (b64_between (C.fmod s turn * 3600) (- ticks) 0)
      as [B1 B2]; [ lia | by_computation | | | ].
    + rewrite inject_Z_opp. lra.
    + change (inject_Z 0) with 0%Q. lra.
    + pose proof (lround_between_neg _ (- ticks) 0 ltac:(lia) B1 B2). lia.
  - destruct (fmod_nonneg s turn Hnn Hturn) as [H1 H2].
    destruct (b64_between (C.fmod s turn * 3600) 0 ticks)
      as [B1 B2]; [ by_computation | lia | | | ].
    + change (inject_Z 0) with 0%Q. lra.
    + lra.
    + pose proof (lround_between _ 0 ticks ltac:(lia) B1 B2). lia.
Qed.

(** X7: whatever the value given, the setters store at most one turn in
    magnitude: RA ticks within [-86400, 86400] and DEC ticks within
    [-256*3600, 256*3600]; for a value from -24 hours (resp. -256 degrees) on
    the ticks are not negative.  A setter changes no other member. *)
Theorem X7_setters_within_one_turn (p : MechanicalPoint) (value : Q) :
  (- (24 * 3600) <= _RAm (RAm_set p value) <= 24 * 3600 /\
   ((-24 <= value)%Q -> 0 <= _RAm (RAm_set p value)) /\
   _DECm (RAm_set p value) = _DECm p /\
   _pierSide (RAm_set p value) = _pierSide p) /\
  (- (256 * 3600) <= _DECm (DECm_set p value) <= 256 * 3600 /\
   ((-256 <= value)%Q -> 0 <= _DECm (DECm_set p value)) /\
   _RAm (DECm_set p value) = _RAm p /\
   _pierSide (DECm_set p value) = _pierSide p).
Proof.
  unfold RAm_set, DECm_set. cbn [_RAm _DECm _pierSide set_RAm set_DECm].
  destruct (setter_ticks_bound value 24 (24 * 3600)) as [H1 H2];
    [ reflexivity | reflexivity | split; by_computation | ].
  destruct (setter_ticks_bound value 256 (256 * 3600)) as [H3 H4];
    [ reflexivity | reflexivity | split; by_computation | ].
  repeat split; try apply H1; try apply H3; try assumption.
Qed.

Lemma lround_near (q : Q) (t : Z) :
  0 <= t -> (inject_Z t - (1 # 2) < q)%Q -> (q < inject_Z t + (1 # 2))%Q ->
  C.lround q = t.
Proof.
  intros Ht Hlo Hhi.
  destruct (Z.eq_dec t 0) as [-> | Hne].
  - change (inject_Z 0) with 0%Q in *. unfold C.lround.
    destruct (Qle_bool 0 q) eqn:E.
    + apply Qfloor_unique.
      * change (inject_Z 0) with 0%Q. apply Qle_bool_iff in E. lra.
      * change (inject_Z (0 + 1)) with 1%Q. lra.
    + assert (Hq : (q < 0)%Q).
      { apply Qnot_le_lt. intro H. apply Qle_bool_iff in H. congruence. }
      pose proof (Qle_ceiling (q - (1 # 2))) as C1.
      pose proof (Qceiling_lt (q - (1 # 2))) as C2.
      rewrite inject_Z_pred in C2.
      assert (A : (inject_Z (-1) < inject_Z (Qceiling (q - (1 # 2))))%Q)
        by (change (inject_Z (-1)) with (-1)%Q; lra).
      assert (B : (inject_Z (Qceiling (q - (1 # 2))) < inject_Z 1)%Q)
        by (change (inject_Z 1) with 1%Q; lra).
      rewrite <- Zlt_Qlt in A, B. lia.
  - assert (H1 : (1 <= inject_Z t)%Q)
      by (change 1%Q with (inject_Z 1); rewrite <- Zle_Qle; lia).
    unfold C.lround.
    replace (Qle_bool 0 q) with true
      by (symmetry; apply Qle_bool_iff; lra).
    apply Qfloor_unique; [ lra | rewrite inject_Z_succ; lra ].
Qed.

(** The setter gives back the ticks whose getter value it is given: the four
    roundings on the way move the result by far less than half a tick. *)
Lemma getter_then_setter (ticks turn_ticks : Z) (turn : Q) :
  (1 <= turn)%Q -> (turn <= 256)%Q -> (C.b64 turn == turn)%Q ->
  (inject_Z turn_ticks == turn * 3600)%Q ->
  0 <= ticks < turn_ticks ->
  C.lround
    (C.dmul (C.fmod (C.dadd (C.ddiv (C.of_long ticks) 3600) turn) turn) 3600)
  = ticks.
Proof.
  intros Hturn1 Hturn2 Hrep Ht Hticks.
  assert (T0 : (0 <= inject_Z ticks)%Q)
    by (change 0%Q with (inject_Z 0); rewrite <- Zle_Qle; lia).
  assert (T1 : (inject_Z ticks + 1 <= inject_Z turn_ticks)%Q).
  { rewrite <- inject_Z_succ, <- Zle_Qle. lia. }
  assert (Hsmall : Z.abs ticks <= 2 ^ 53).
  { assert (B : (inject_Z turn_ticks <= inject_Z 921600)%Q)
      by (change (inject_Z 921600) with 921600%Q; lra).
    rewrite <- Zle_Qle in B.
    assert (921600 <= 2 ^ 53) by by_computation. lia. }
  destruct (ticks_over_3600 ticks Hsmall) as [_ E1].
  set (r1 := C.ddiv (C.of_long ticks) 3600) in *.
  assert (Ex : (inject_Z ticks / 3600 * 3600 == inject_Z ticks)%Q)
    by (field; discriminate).
  set (x0 := (inject_Z ticks / 3600)%Q) in *.
  assert (X0 : (0 <= x0)%Q) by lra.
  rewrite (Qabs_pos x0 X0) in E1.
  apply Qabs_Qle_condition in E1. destruct E1 as [E1a E1b].
  change (1 # 2 ^ 53)%Q with (1 # 9007199254740992)%Q in *.
  unfold C.dadd, C.dmul.
  assert (S0 : (turn <= r1 + turn)%Q) by lra.
  assert (S1 : (turn <= C.b64 (r1 + turn))%Q).
  { rewrite <- Hrep at 1. apply b64_le, S0. }
  assert (Hnorm : (2 ^ (-1022) <= 1 # 2)%Q) by by_computation.
  assert (E2 : (Qabs (C.b64 (r1 + turn) - (r1 + turn))
                <= Qabs (r1 + turn) * (1 # 9007199254740992))%Q).
  { apply (b64_error (r1 + turn)). rewrite Qabs_pos by lra. lra. }
  rewrite (Qabs_pos (r1 + turn)) in E2 by lra.
  apply Qabs_Qle_condition in E2. destruct E2 as [E2a E2b].
  set (s := C.b64 (r1 + turn)) in *.
  assert (S2 : (s < 2 * turn)%Q) by lra.
  pose proof (fmod_once s turn ltac:(lra) S1 S2) as Ef.
  destruct (Z.eq_dec ticks 0) as [Ez | Hne].
  - subst ticks. change (inject_Z 0) with 0%Q in *.
    assert (R0 : (r1 == 0)%Q) by lra.
    assert (Es : (s == turn)%Q).
    { unfold s. rewrite (b64_comp (r1 + turn) turn) by lra. exact Hrep. }
    assert (Ep : (C.fmod s turn * 3600 == 0)%Q) by lra.
    rewrite (lround_near (C.b64 (C.fmod s turn * 3600)) 0); [ reflexivity | lia | | ];
      rewrite (b64_comp _ _ Ep); change (inject_Z 0) with 0%Q;
      rewrite b64_0; lra.
  - assert (T2 : (1 <= inject_Z ticks)%Q)
      by (change 1%Q with (inject_Z 1); rewrite <- Zle_Qle; lia).
    assert (P0 : (1 # 2 <= C.fmod s turn * 3600)%Q) by lra.
    assert (E3 : (Qabs (C.b64 (C.fmod s turn * 3600) - C.fmod s turn * 3600)
                  <= Qabs (C.fmod s turn * 3600) * (1 # 9007199254740992))%Q).
    { apply (b64_error (C.fmod s turn * 3600)). rewrite Qabs_pos by lra. lra. }
    rewrite (Qabs_pos (C.fmod s turn * 3600)) in E3 by lra.
    apply Qabs_Qle_condition in E3. destruct E3 as [E3a E3b].
    apply lround_near; [ lia | lra | lra ].
Qed.

(** X8: giving a setter the value its getter returns stores the same ticks
    again, for RA ticks in [0, 86400) and DEC ticks in [0, 256*3600); at the
    upper ends 86400 and 256*3600, which the setters can store, the ticks
    become 0. *)
Theorem X8_getter_then_setter (p q : MechanicalPoint) :
  (0 <= _RAm p < 24 * 3600 -> _RAm (RAm_set q (RAm p)) = _RAm p) /\
  (0 <= _DECm p < 256 * 3600 -> _DECm (DECm_set q (DECm p)) = _DECm p) /\
  (_RAm p = 24 * 3600 -> _RAm (RAm_set q (RAm p)) = 0) /\
  (_DECm p = 256 * 3600 -> _DECm (DECm_set q (DECm p)) = 0).
Proof.
  unfold RAm_set, DECm_set, RAm, DECm. cbn [_RAm _DECm set_RAm set_DECm].
  split; [ intro H; apply (getter_then_setter _ (24 * 3600) 24);
           [ by_computation | by_computation | vm_compute; reflexivity
           | reflexivity | exact H ] | ].
  split; [ intro H; apply (getter_then_setter _ (256 * 3600) 256);
           [ by_computation | by_computation | vm_compute; reflexivity
           | reflexivity | exact H ] | ].
  split; intros ->; vm_compute; reflexivity.
Qed.

(** ** The two sides of the pier *)

Lemma RA_ticks_of_west (h m s : Z) :
  -9 <= h <= 99 -> -9 <= m <= 99 -> -9 <= s <= 99 ->
  RA_ticks_of PIER_WEST h m s
  = (RA_ticks_of PIER_EAST h m s + 12 * 3600) mod (24 * 3600).
Proof.
  intros Hh Hm Hs. unfold RA_ticks_of. cbn [pier_eqb].
  Z.to_euclidean_division_equations. lia.
Qed.

(** X9: a text read under pier side WEST gives the RA read under pier side
    EAST plus 12 hours, modulo 24 hours, and the DEC read under pier side EAST
    mirrored through the pole (the two DEC ticks add up to 2 * 90 * 3600);
    it is accepted under one pier side exactly when it is under the other. *)
Theorem X9_pier_side_flips_the_reading
    (p : MechanicalPoint) (buf : string) (n : Z) :
  let e := setPierSide p PIER_EAST in
  let w := setPierSide p PIER_WEST in
  fst (parseStringRA w buf n) = fst (parseStringRA e buf n) /\
  (fst (parseStringRA e buf n) = false ->
   _RAm (snd (parseStringRA w buf n))
   = (_RAm (snd (parseStringRA e buf n)) + 12 * 3600) mod (24 * 3600)) /\
  fst (parseStringDEC w buf n) = fst (parseStringDEC e buf n) /\
  (fst (parseStringDEC e buf n) = false ->
   _DECm (snd (parseStringDEC w buf n)) + _DECm (snd (parseStringDEC e buf n))
   = 2 * (90 * 3600)).
Proof.
  intros e w. subst e w.
  rewrite !parseStringRA_eq, !parseStringDEC_eq. cbn [_pierSide setPierSide].
  split; [ destruct (n <? 8); [ reflexivity | ];
           destruct (_ =? 3); reflexivity | ].
  split.
  - destruct (n <? 8); [ discriminate | ].
    destruct (fst (C.sscanf_3 buf) =? 3) eqn:E; [ | discriminate ].
    intros _. cbn [snd _RAm set_RAm].
    apply Z.eqb_eq in E.
    destruct (C.sscanf_3 buf) as [k [[h m] s]] eqn:Es. cbn [fst snd] in *.
    subst k. pose proof (sscanf_3_bound buf h m s Es) as (Hh & Hm & Hs).
    apply RA_ticks_of_west; assumption.
  - cbv zeta.
    split; [ destruct (n <? 9); [ reflexivity | ];
             destruct (_ || _); reflexivity | ].
    destruct (n <? 9); [ discriminate | ].
    destruct (_ || _); [ discriminate | ].
    intros _. cbn [snd _DECm set_DECm]. unfold DEC_ticks_of.
    destruct (hundreds_switch _) as [h t]. cbn [pier_eqb]. lia.
Qed.

(** ** Distances and equality *)

(** X10: between two points whose RA ticks are within one turn, the RA
    distance changes sign when the two points are exchanged, is zero exactly
    when the ticks are the same, and is at most 180 degrees in magnitude. *)
Theorem X10_RA_distance (a b : MechanicalPoint) :
  RA_normalized a -> RA_normalized b ->
  RA_delta_ticks b a = - RA_delta_ticks a b /\
  (RA_degrees_to b a == - RA_degrees_to a b)%Q /\
  (RA_delta_ticks a b = 0 <-> _RAm a = _RAm b) /\
  (Qabs (RA_degrees_to a b) <= 180)%Q.
Proof.
  unfold RA_normalized. intros Ha Hb.
  pose proof (RA_delta_ticks_cases a b) as Hab.
  pose proof (RA_delta_ticks_cases b a) as Hba. cbv zeta in Hab, Hba.
  assert (Hanti : RA_delta_ticks b a = - RA_delta_ticks a b) by lia.
  split; [ exact Hanti | ].
  split.
  - unfold RA_degrees_to. rewrite Hanti.
    replace (- RA_delta_ticks a b * 15) with (- (RA_delta_ticks a b * 15)) by lia.
    apply ticks_over_3600_opp.
  - split; [ lia | ].
    unfold RA_degrees_to. apply Qabs_Qle_condition.
    assert (E180 : (C.ddiv (C.of_long (12 * 3600 * 15)) 3600 == 180)%Q)
      by (vm_compute; reflexivity).
    pose proof (ticks_over_3600_le (- (12 * 3600 * 15))
                  (RA_delta_ticks a b * 15) ltac:(lia)) as H1.
    pose proof (ticks_over_3600_le (RA_delta_ticks a b * 15)
                  (12 * 3600 * 15) ltac:(lia)) as H2.
    rewrite ticks_over_3600_opp in H1. rewrite E180 in H1, H2.
    split; assumption.
Qed.

Lemma X10_RA_distance_witness :
  RA_delta_ticks (mkPoint 1 0 PIER_EAST) (mkPoint 86399 0 PIER_EAST)
  = - RA_delta_ticks (mkPoint 86399 0 PIER_EAST) (mkPoint 1 0 PIER_EAST).
Proof.
  refine (proj1 (X10_RA_distance (mkPoint 86399 0 PIER_EAST)
                   (mkPoint 1 0 PIER_EAST) _ _));
    unfold RA_normalized; simpl; lia.
Defined.

(** A distance of [k] steps of [g] seconds of arc is below the granularity of
    [g] seconds of arc exactly when [k] is zero. *)
Lemma below_granularity (k g : Z) :
  0 < g ->
  C.dle (C.ddiv (C.of_long g) 3600)
    (C.fabs (C.ddiv (C.of_long (k * g)) 3600)) = false
  <-> k = 0.
Proof.
  intro Hg. rewrite dle_false. unfold C.fabs.
  assert (Hpos : (0 < C.ddiv (C.of_long g) 3600)%Q).
  { apply Qlt_le_trans with (C.ddiv (C.of_long 1) 3600);
      [ vm_compute; reflexivity | apply ticks_over_3600_le; lia ]. }
  split.
  - intro H.
    destruct (Z.eq_dec k 0) as [E | N]; [ exact E | exfalso ].
    pose proof (ticks_over_3600_abs (k * g) g ltac:(lia) ltac:(nia)) as L.
    lra.
  - intros ->. change (0 * g) with 0.
    rewrite ticks_over_3600_0. change (Qabs 0) with 0%Q. exact Hpos.
Qed.

Lemma RA_GRANULARITY_eq : RA_GRANULARITY = C.ddiv (C.of_long 15) 3600.
Proof. vm_compute. reflexivity. Qed.

Lemma DEC_GRANULARITY_eq : DEC_GRANULARITY = C.ddiv (C.of_long 1) 3600.
Proof. vm_compute. reflexivity. Qed.

(** The mount is at the target, for [ReadScopeStatus], exactly when the RA
    ticks agree up to whole turns and the DEC ticks are the same. *)
Lemma away_false (a b : MechanicalPoint) :
  away a b = false <-> RA_delta_ticks a b = 0 /\ _DECm a = _DECm b.
Proof.
  unfold away. rewrite orb_false_iff.
  unfold RA_degrees_to, DEC_degrees_to.
  rewrite RA_GRANULARITY_eq, DEC_GRANULARITY_eq.
  rewrite (below_granularity (RA_delta_ticks a b) 15) by lia.
  replace (_DECm b - _DECm a) with ((_DECm b - _DECm a) * 1) by lia.
  rewrite (below_granularity (_DECm b - _DECm a) 1) by lia.
  lia.
Qed.

(** X11: the equality of two points within the granularity of the mount is
    the equality of their ticks: [operator ==] holds exactly when the pier
    sides are the same, the RA ticks agree up to whole turns (are the same,
    when both are within one turn) and the DEC ticks are the same;
    [operator !=] is its negation. *)
Theorem X11_equality_is_equality_of_ticks (a b : MechanicalPoint) :
  (point_eq a b = true <->
   _pierSide a = _pierSide b /\ RA_delta_ticks a b = 0 /\ _DECm a = _DECm b) /\
  (RA_normalized a -> RA_normalized b -> (point_eq a b = true <-> a = b)) /\
  point_neq a b = negb (point_eq a b).
Proof.
  assert (Hside : pier_eqb (_pierSide a) (_pierSide b) = true
                  <-> _pierSide a = _pierSide b)
    by (destruct (_pierSide a), (_pierSide b); simpl;
        split; intro H; try reflexivity; discriminate H).
  assert (Hmain : point_eq a b = true <->
            _pierSide a = _pierSide b /\ RA_delta_ticks a b = 0
            /\ _DECm a = _DECm b).
  { unfold point_eq, point_neq. rewrite negb_true_iff.
    rewrite <- orb_assoc. fold (away a b).
    rewrite orb_false_iff, negb_false_iff, Hside, away_false. tauto. }
  split; [ exact Hmain | ].
  split; [ | unfold point_eq; now rewrite negb_involutive ].
  unfold RA_normalized. intros Ha Hb. rewrite Hmain.
  pose proof (RA_delta_ticks_cases a b) as Hc. cbv zeta in Hc.
  split.
  - intros (H1 & H2 & H3). apply point_eta; [ lia | exact H3 | exact H1 ].
  - intros <-. split; [ reflexivity | ]. split; [ lia | reflexivity ].
Qed.

(** ** The choice of the slew rate *)


(** ** Assertions on the slew rate *)



Lemma getCurrentPosition_RA (env : Environment) (p cur : MechanicalPoint) :
  getCurrentPosition env p = (false, cur) ->
  0 <= _RAm cur < 24 * 3600 /\ _pierSide cur = _pierSide p.
Proof.
  unfold getCurrentPosition.
  destruct (reply_GR env) as [b|]; [ | discriminate ].
  destruct (parseStringRA p b 64) as [[|] r] eqn:Er; [ discriminate | ].
  destruct (reply_GD env) as [b'|]; [ | discriminate ].
  destruct (parseStringDEC r b' 64) as [[|] r'] eqn:Ed; [ discriminate | ].
  intro H. injection H as <-.
  destruct (parseStringDEC_ok r r' b' 64 Ed) as (Hra & Hside & _).
  destruct (parseStringRA_cases p b 64) as [[E _] | (h & m & s & _ & Hs & E)];
    rewrite E in Er; [ discriminate | ].
  injection Er as <-. cbn [_RAm _pierSide set_RAm] in *.
  rewrite Hra, Hside. split; [ | reflexivity ].
  pose proof (sscanf_3_bound _ h m s Hs) as (Hh & Hm & Hsec).
  apply RA_ticks_of_bound; assumption.
Qed.






(** ** The countdown *)

Lemma slewing_countdown_bounded (env : Environment) (d d' : Driver)
    (result : bool) (sent : list string) :
  1 <= countdown d <= MAX_CONVERGENCE_LOOPS ->
  slewing env d = Returned result d' sent ->
  TrackState d' = SCOPE_TRACKING
  \/ (TrackState d' = TrackState d /\
      1 <= countdown d' <= MAX_CONVERGENCE_LOOPS).
Proof.
  intro Hc. unfold slewing.
  destruct (C.dle _ _ || C.dle _ _);
    [ | intro H; injection H as <- <- <-; left; reflexivity ].
  rewrite !choose_loop_spec.
  destruct (choose_adjustment _) as [ra_adjust|]; cbv beta iota; [ | discriminate ].
  destruct (choose_adjustment _) as [dec_adjust|]; cbv beta iota; [ | discriminate ].
  set (adj := if (ra_adjust <? dec_adjust)%nat then dec_adjust else ra_adjust).
  remember (if negb (same_adjustment (previous_adjustment d) adj)
               && below_previous adj (previous_adjustment d)
            then MAX_CONVERGENCE_LOOPS else countdown d) as c0 eqn:Ec0.
  assert (Hc0 : c0 = countdown d \/ c0 = MAX_CONVERGENCE_LOOPS)
    by (subst c0; destruct (negb _ && _); auto).
  clear Ec0.
  destruct (if (ra_adjust =? adj)%nat then _ else _)
    as [[[cmd1 e] w]|]; [ | discriminate ].
  destruct (if (dec_adjust =? adj)%nat then _ else _)
    as [[[cmd2 s] n]|]; [ | discriminate ].
  destruct ((e && w) || (n && s)); [ discriminate | ].
  unfold MAX_CONVERGENCE_LOOPS in *.
  destruct (negb (String.eqb cmd2 "") && negb (write_ok env)).
  { intro H. injection H as <- <- <-. cbn [countdown TrackState].
    right. split; [ reflexivity | ]. lia. }
  destruct (negb e && negb w && negb n && negb s).
  { intro H. injection H as <- <- <-. cbn [countdown TrackState].
    right. split; [ reflexivity | ]. lia. }
  destruct (c0 - 1 <=? 0) eqn:Ez.
  - unfold slew_failure. intro H. injection H as <- <- <-. left. reflexivity.
  - apply Z.leb_gt in Ez.
    intro H. injection H as <- <- <-. cbn [countdown TrackState].
    right. split; [ reflexivity | ]. lia.
Qed.

(** X14: while the driver is slewing the countdown stays between 1 and 144.
    The bound holds after every [Goto], whatever it returns, and after every
    [ReadScopeStatus] that returns, if it held before; a driver that is not
    slewing satisfies it. *)
Theorem X14_countdown_is_bounded (env : Environment) (d : Driver) :
  countdown_bounded d ->
  (forall ra dec, countdown_bounded (snd (Goto env d ra dec))) /\
  (forall result d' sent,
      ReadScopeStatus env d = Returned result d' sent ->
      countdown_bounded d').
Proof.
  unfold countdown_bounded. intro Hd. split.
  - intros ra dec. unfold Goto.
    destruct (EqNP_busy env && negb (abortSlew_ok env)); [ exact Hd | ].
    destruct (setTargetPosition_error env); [ exact Hd | ].
    cbn [snd countdown]. intros _. unfold MAX_CONVERGENCE_LOOPS. lia.
  - intros result d' sent. unfold ReadScopeStatus.
    destruct (negb (isConnected env));
      [ intro H; injection H as <- <- <-; exact Hd | ].
    destruct (getCurrentPosition env (currentPosition d)) as [[|] p];
      [ intro H; injection H as <- <- <-; exact Hd | ].
    destruct (TrackState d) eqn:Et;
      [ intro H; injection H as <- <- <-; cbn [TrackState];
        intro H'; discriminate H'
      | intro H
      | intro H; injection H as <- <- <-; cbn [TrackState];
        intro H'; discriminate H' ].
    apply slewing_countdown_bounded in H; [ | exact (Hd eq_refl) ].
    destruct H as [H | (_ & H)]; [ rewrite H; discriminate | ].
    intros _. exact H.
Qed.

Lemma X14_countdown_is_bounded_witness :
  countdown_bounded (snd (Goto (mount_replies "" "") driver_start 2 80)).
Proof.
  refine (proj1 (X14_countdown_is_bounded (mount_replies "" "") driver_start _)
            2%Q 80%Q).
  unfold countdown_bounded, driver_start. simpl. discriminate.
Defined.

(** ** The commands *)

Lemma adjust_axis_length (Q_forth Q_back M_forth M_back : string)
    (axis_epsilon delta : Q) (CmdString CmdString' : string)
    (forth back forth' back' : bool) :
  String.length Q_forth = 4%nat -> String.length Q_back = 4%nat ->
  String.length M_forth = 4%nat -> String.length M_back = 4%nat ->
  adjust_axis Q_forth Q_back M_forth M_back axis_epsilon delta
    CmdString forth back = Some (CmdString', forth', back') ->
  (String.length CmdString <= String.length CmdString'
   <= String.length CmdString + 8)%nat.
Proof.
  intros L1 L2 L3 L4. unfold adjust_axis.
  destruct (go_forth axis_epsilon delta), (go_back axis_epsilon delta),
    forth, back; simpl; intro H; try discriminate H;
    injection H as <- <- <-; rewrite ?length_append; lia.
Qed.

Lemma slewing_commands_fit (env : Environment) (d d' : Driver)
    (result : bool) (sent : list string) :
  slewing env d = Returned result d' sent ->
  Forall fits_CmdString sent /\ (List.length sent <= 2)%nat.
Proof.
  unfold slewing, fits_CmdString.
  destruct (C.dle _ _ || C.dle _ _);
    [ | intro H; injection H as <- <- <-; split;
        [ repeat constructor | simpl; lia ] ].
  rewrite !choose_loop_spec.
  destruct (choose_adjustment
              (C.fabs (RA_degrees_to (currentPosition d) (targetPosition d))))
    as [ra_adjust|] eqn:Era; cbv beta iota; [ | discriminate ].
  destruct (choose_adjustment
              (C.fabs (DEC_degrees_to (currentPosition d) (targetPosition d))))
    as [dec_adjust|] eqn:Edec; cbv beta iota; [ | discriminate ].
  set (adj := if (ra_adjust <? dec_adjust)%nat then dec_adjust else ra_adjust).
  assert (Hadj : (adj < 5)%nat).
  { subst adj. destruct (ra_adjust <? dec_adjust)%nat;
      [ exact (choose_adjustment_lt _ _ Edec)
      | exact (choose_adjustment_lt _ _ Era) ]. }
  set (cmd0 := if negb (same_adjustment (previous_adjustment d) adj)
               then slew_rate (adjustment_at adj) else "").
  assert (H0 : (String.length cmd0 <= 4)%nat).
  { subst cmd0. destruct (negb _);
      [ rewrite slew_rate_length by exact Hadj; lia | simpl; lia ]. }
  destruct (if (ra_adjust =? adj)%nat then _ else _)
    as [[[cmd1 e] w]|] eqn:E1; [ | discriminate ].
  assert (H1 : (String.length cmd1 <= String.length cmd0 + 8)%nat).
  { destruct (ra_adjust =? adj)%nat.
    - apply adjust_axis_length in E1; try reflexivity. lia.
    - injection E1 as <- <- <-. lia. }
  destruct (if (dec_adjust =? adj)%nat then _ else _)
    as [[[cmd2 s] n]|] eqn:E2; [ | discriminate ].
  assert (H2 : (String.length cmd2 <= String.length cmd1 + 8)%nat).
  { destruct (dec_adjust =? adj)%nat.
    - apply adjust_axis_length in E2; try reflexivity. lia.
    - injection E2 as <- <- <-. lia. }
  destruct ((e && w) || (n && s)); [ discriminate | ].
  assert (Hsent : Forall (fun c => (0 < String.length c <= 20)%nat)
                    match cmd2 with EmptyString => [] | _ => [cmd2] end).
  { destruct cmd2 as [|c r] eqn:Ec; [ constructor | ].
    rewrite <- Ec in *. constructor; [ | constructor ].
    split; [ rewrite Ec; simpl; lia | lia ]. }
  assert (Hlen : (List.length match cmd2 with EmptyString => [] | _ => [cmd2] end
                  <= 1)%nat) by (destruct cmd2; simpl; lia).
  destruct (negb (String.eqb cmd2 "") && negb (write_ok env));
    [ intro H; injection H as <- <- <-; split; [ exact Hsent | lia ] | ].
  destruct (negb e && negb w && negb n && negb s);
    [ intro H; injection H as <- <- <-; split; [ exact Hsent | lia ] | ].
  destruct (_ <=? 0).
  - unfold slew_failure. intro H. injection H as <- <- <-. split.
    + apply Forall_app. split; [ exact Hsent | ].
      constructor; [ simpl; lia | constructor ].
    + rewrite length_app. simpl. lia.
  - intro H. injection H as <- <- <-. split; [ exact Hsent | lia ].
Qed.

(** X15: every command that a call of [ReadScopeStatus] hands to [sendCmd] is
    not empty and has at most 20 characters, so that the tokens appended by
    [strcat] always fit in [CmdString[32]]; a call sends at most two commands
    (the movement commands, and the stop-all command when the slew fails). *)
Theorem X15_commands_fit_the_buffer (env : Environment) (d d' : Driver)
    (result : bool) (sent : list string) :
  ReadScopeStatus env d = Returned result d' sent ->
  Forall fits_CmdString sent /\ (List.length sent <= 2)%nat.
Proof.
  unfold ReadScopeStatus.
  destruct (negb (isConnected env));
    [ intro H; injection H as <- <- <-; split; [ constructor | simpl; lia ] | ].
  destruct (getCurrentPosition env (currentPosition d)) as [[|] p];
    [ intro H; injection H as <- <- <-; split; [ constructor | simpl; lia ] | ].
  destruct (TrackState d);
    [ intro H; injection H as <- <- <-; split; [ constructor | simpl; lia ]
    | apply slewing_commands_fit
    | intro H; injection H as <- <- <-; split; [ constructor | simpl; lia ] ].
Qed.

Lemma X15_commands_fit_the_buffer_witness :
  Forall fits_CmdString [":RS#:Me#"] /\ (List.length [":RS#:Me#"] <= 2)%nat.
Proof.
  apply (X15_commands_fit_the_buffer
           (mount_replies "01:00:00" "+10:00:00")
           (snd (Goto (mount_replies "" "") driver_start 2 80))
           (mkDriver SCOPE_SLEWING 143 1000 (mkPoint 3600 288000 PIER_EAST)
              (mkPoint 7200 288000 PIER_EAST) (Some 4%nat)
              true false false false)
           true).
  vm_compute. reflexivity.
Defined.

(** X16: in the block of an axis, with a positive epsilon: when the axis is
    moving one way and the other way is now required, the stop command of the
    first is appended before the start command of the other; when a movement
    is no longer required, only its stop command is appended; and when the
    markers already are what is required, nothing is appended, as after any
    run of the block. *)
Theorem X16_stop_before_reversing
    (Q_forth Q_back M_forth M_back : string) (axis_epsilon delta : Q)
    (CmdString : string) :
  (0 < axis_epsilon)%Q ->
  let block := adjust_axis Q_forth Q_back M_forth M_back axis_epsilon delta in
  (go_back axis_epsilon delta = true ->
   block CmdString true false
   = Some ((CmdString ++ Q_forth) ++ M_back, false, true)) /\
  (go_forth axis_epsilon delta = true ->
   block CmdString false true
   = Some ((CmdString ++ Q_back) ++ M_forth, true, false)) /\
  (go_forth axis_epsilon delta = false -> go_back axis_epsilon delta = false ->
   block CmdString true false = Some (CmdString ++ Q_forth, false, false) /\
   block CmdString false true = Some (CmdString ++ Q_back, false, false)) /\
  (forall forth back CmdString' forth' back' CmdString2,
      block CmdString forth back = Some (CmdString', forth', back') ->
      block CmdString2 forth' back' = Some (CmdString2, forth', back')).
Proof.
  intros Hpos block. subst block.
  pose proof (go_exclusive axis_epsilon delta Hpos) as Hex.
  unfold adjust_axis.
  destruct (go_forth axis_epsilon delta), (go_back axis_epsilon delta);
    try discriminate Hex; cbn [andb orb negb];
    (split; [ intro H; try discriminate H; reflexivity | ]);
    (split; [ intro H; try discriminate H; reflexivity | ]);
    (split; [ intros H1 H2; try discriminate H1; try discriminate H2;
              split; reflexivity | ]);
    intros forth back c' f' b' c2; destruct forth, back; cbn [andb orb negb];
    intro H; injection H as <- <- <-; reflexivity.
Qed.

Lemma X16_stop_before_reversing_witness :
  adjust_axis ":Qe#" ":Qw#" ":Me#" ":Mw#" (15 # 3600) (-1) ":RS#" true false
  = Some ((":RS#" ++ ":Qe#") ++ ":Mw#", false, true).
Proof.
  refine (proj1 (X16_stop_before_reversing ":Qe#" ":Qw#" ":Me#" ":Mw#"
                   (15 # 3600) (-1) ":RS#" _) _); reflexivity.
Defined.

(** ** The end of a slew *)

(** X17: a slewing driver that reads a position whose ticks are those of the
    target (the RA up to whole turns) sends the one command [":Q#:RG#"], goes
    to tracking with a polling period of 1000 ms and returns [true], leaving
    the countdown, the previous slew rate and the movement markers as they
    were; and a call that takes a slewing driver to tracking and returns
    [true] has read such a position. *)
Theorem X17_end_of_slew (env : Environment) (d : Driver) (cur : MechanicalPoint) :
  TrackState d = SCOPE_SLEWING ->
  isConnected env = true ->
  getCurrentPosition env (currentPosition d) = (false, cur) ->
  (RA_delta_ticks cur (targetPosition d) = 0 /\
   _DECm cur = _DECm (targetPosition d) ->
   ReadScopeStatus env d
   = Returned true
       (mkDriver SCOPE_TRACKING (countdown d) 1000 cur (targetPosition d)
          (previous_adjustment d) (east d) (west d) (north d) (south d))
       [":Q#:RG#"]) /\
  (forall d' sent,
      ReadScopeStatus env d = Returned true d' sent ->
      TrackState d' = SCOPE_TRACKING ->
      RA_delta_ticks cur (targetPosition d) = 0 /\
      _DECm cur = _DECm (targetPosition d)).
Proof.
  intros Hs Hc Hread. unfold ReadScopeStatus.
  rewrite Hc, Hread, Hs. cbn [negb]. cbv iota.
  unfold slewing. cbn [currentPosition targetPosition TrackState countdown
                         POLLMS previous_adjustment east west north south].
  fold (away cur (targetPosition d)).
  destruct (away cur (targetPosition d)) eqn:Ea.
  - split.
    + intro H. apply away_false in H. congruence.
    + intros d' sent.
      rewrite !choose_loop_spec.
      destruct (choose_adjustment _) as [i|]; cbv beta iota; [ | discriminate ].
      destruct (choose_adjustment _) as [j|]; cbv beta iota; [ | discriminate ].
      destruct (if (i =? _)%nat then _ else _) as [[[c1 e1] w1]|];
        [ | discriminate ].
      destruct (if (j =? _)%nat then _ else _) as [[[c2 s2] n2]|];
        [ | discriminate ].
      destruct ((e1 && w1) || (n2 && s2)); [ discriminate | ].
      destruct (negb (String.eqb c2 "") && negb (write_ok env));
        [ discriminate | ].
      destruct (negb e1 && negb w1 && negb n2 && negb s2);
        [ intro H; injection H as <- <-; cbn [TrackState];
          intro H'; discriminate H' | ].
      destruct (_ <=? 0); [ discriminate | ].
      intro H; injection H as <- <-; cbn [TrackState].
      intro H'; discriminate H'.
  - apply away_false in Ea. split; [ reflexivity | ].
    intros d' sent _ _. exact Ea.
Qed.

Lemma X17_end_of_slew_witness :
  ReadScopeStatus (mount_replies "02:00:00" "+10:00:00")
    (snd (Goto (mount_replies "" "") driver_start 2 80))
  = Returned true
      (mkDriver SCOPE_TRACKING 144 1000 (mkPoint 7200 288000 PIER_EAST)
         (mkPoint 7200 288000 PIER_EAST) None false false false false)
      [":Q#:RG#"].
Proof.
  refine (proj1 (X17_end_of_slew (mount_replies "02:00:00" "+10:00:00")
                   (snd (Goto (mount_replies "" "") driver_start 2 80))
                   (mkPoint 7200 288000 PIER_EAST) _ _ _) _).
  - reflexivity.
  - reflexivity.
  - vm_compute. reflexivity.
  - split; reflexivity.
Defined.

(** ** The target sent to the mount *)

Lemma toStringDEC_nine (p : MechanicalPoint) :
  DEC_in_range p ->
  exists dec, toStringDEC p 10 = Some dec /\ String.length dec = 9%nat.
Proof.
  intro Hr. rewrite (toStringDEC_total p 10 Hr) by lia.
  eexists. split; [ reflexivity | ].
  pose proof (DEC_minutes_bound p Hr). pose proof (DEC_seconds_bound p Hr).
  cbn [String.length append]. rewrite length_append. cbn [String.length].
  rewrite !fmt_02d_length by lia. reflexivity.
Qed.

Lemma substring_whole (s : string) (n : nat) :
  (String.length s <= n)%nat -> substring 0 n s = s.
Proof.
  revert n. induction s as [|c s IH]; intros n H.
  - destruct n; reflexivity.
  - destruct n as [|n]; [ simpl in H; lia | ].
    simpl. rewrite IH by (simpl in H; lia). reflexivity.
Qed.

(** X18: for a point whose RA ticks are within one turn and whose DEC value is
    within the range of an [int], the command of [setTargetPosition] is
    [":Sr"], the eight characters of the RA, ["#:Sd"], the nine characters of
    the DEC and ["#"]: 25 characters, which fill [CmdString] exactly, no null
    pointer being printed; the error value is returned unless the command was
    written and the two bytes read are ["11"]. *)
Theorem X18_setTargetPosition_command
    (p : MechanicalPoint) (sent_ok : bool) (reply : option string) :
  RA_normalized p -> DEC_in_range p ->
  exists ra dec,
    toStringRA p 9 = Some ra /\ is_HH_MM_SS ra = true /\
    toStringDEC p 10 = Some dec /\ String.length dec = 9%nat /\
    String.length (":Sr" ++ ra ++ "#:Sd" ++ dec ++ "#") = 25%nat /\
    setTargetPosition sent_ok reply p
    = Some (negb (sent_ok
                  && match reply with
                     | Some buf => Ascii.eqb (byte_at buf 0) "1"
                                   && Ascii.eqb (byte_at buf 1) "1"
                     | None => false
                     end),
            ":Sr" ++ ra ++ "#:Sd" ++ dec ++ "#").
Proof.
  intros Hra Hdec.
  pose proof (RA_fields_bound p Hra) as (Hh & Hm & Hs).
  destruct (triplet_written (RA_hours p) (RA_minutes p) (RA_seconds p))
    as (Hpat & Hlen & _); try lia. cbv zeta in Hpat, Hlen.
  assert (Era : toStringRA p 9
                = Some (C.fmt_02d (RA_hours p) ++ ":" ++ C.fmt_02d (RA_minutes p)
                        ++ ":" ++ C.fmt_02d (RA_seconds p))).
  { rewrite toStringRA_fields. apply snprintf_result_fits; rewrite Hlen; lia. }
  destruct (toStringDEC_nine p Hdec) as (dec & Edec & Hlend).
  set (ra := C.fmt_02d (RA_hours p) ++ ":" ++ C.fmt_02d (RA_minutes p)
             ++ ":" ++ C.fmt_02d (RA_seconds p)) in *.
  exists ra, dec.
  assert (Hcmd : String.length (":Sr" ++ ra ++ "#:Sd" ++ dec ++ "#") = 25%nat).
  { rewrite !length_append. rewrite Hlen, Hlend. reflexivity. }
  repeat (split; [ assumption | ]).
  unfold setTargetPosition, setTargetPosition_command. rewrite Era, Edec.
  rewrite substring_whole by (rewrite Hcmd; lia).
  f_equal. f_equal.
  destruct sent_ok; [ | reflexivity ]. destruct reply; reflexivity.
Qed.

Lemma X18_setTargetPosition_command_witness :
  exists ra dec,
    toStringRA (mkPoint 7200 288000 PIER_EAST) 9 = Some ra /\
    is_HH_MM_SS ra = true /\
    toStringDEC (mkPoint 7200 288000 PIER_EAST) 10 = Some dec /\
    String.length dec = 9%nat /\
    String.length (":Sr" ++ ra ++ "#:Sd" ++ dec ++ "#") = 25%nat /\
    setTargetPosition true (Some "11") (mkPoint 7200 288000 PIER_EAST)
    = Some (negb (true && (Ascii.eqb (byte_at "11" 0) "1"
                           && Ascii.eqb (byte_at "11" 1) "1")),
            ":Sr" ++ ra ++ "#:Sd" ++ dec ++ "#").
Proof.
  apply (X18_setTargetPosition_command (mkPoint 7200 288000 PIER_EAST)
           true (Some "11")).
  - unfold RA_normalized. simpl. lia.
  - unfold DEC_in_range, DEC_value. simpl. lia.
Defined.

(** ** Synchronisation *)

Lemma getter_then_setter_RA (q p : MechanicalPoint) :
  0 <= _RAm p < 24 * 3600 -> _RAm (RAm_set q (RAm p)) = _RAm p.
Proof.
  intro H. unfold RAm_set, RAm. cbn [_RAm set_RAm].
  apply (getter_then_setter _ (24 * 3600) 24);
    [ by_computation | by_computation | vm_compute; reflexivity
    | reflexivity | exact H ].
Qed.

Lemma getter_then_setter_top_RA (q p : MechanicalPoint) :
  _RAm p = 24 * 3600 -> _RAm (RAm_set q (RAm p)) = 0.
Proof.
  intro H. unfold RAm_set, RAm. cbn [_RAm set_RAm]. rewrite H.
  vm_compute. reflexivity.
Qed.

Lemma getter_then_setter_DEC (q p : MechanicalPoint) :
  0 <= _DECm p < 256 * 3600 -> _DECm (DECm_set q (DECm p)) = _DECm p.
Proof.
  intro H. unfold DECm_set, DECm. cbn [_DECm set_DECm].
  apply (getter_then_setter _ (256 * 3600) 256);
    [ by_computation | by_computation | vm_compute; reflexivity
    | reflexivity | exact H ].
Qed.

Lemma synced_RA (c t : MechanicalPoint) (ra dec dec' : Q) :
  (-24 <= ra)%Q ->
  RA_delta_ticks (DECm_set (RAm_set c (RAm (RAm_set t ra))) dec')
    (DECm_set (RAm_set t ra) dec) = 0.
Proof.
  intro Hge. pose proof (RAm_set_bounds t ra Hge) as H0.
  unfold RA_delta_ticks. cbn [_RAm DECm_set set_DECm].
  destruct (Z.eq_dec (_RAm (RAm_set t ra)) (24 * 3600)) as [E | E].
  - rewrite (getter_then_setter_top_RA c (RAm_set t ra) E), E. reflexivity.
  - rewrite (getter_then_setter_RA c (RAm_set t ra)) by lia.
    rewrite Z.sub_diag. reflexivity.
Qed.

Lemma synced_DEC (c t : MechanicalPoint) (dec : Q) :
  (-256 <= dec)%Q -> _DECm (DECm_set t dec) < 256 * 3600 ->
  _DECm (DECm_set c (DECm (DECm_set t dec))) = _DECm (DECm_set t dec).
Proof.
  intros Hge Hlt. pose proof (DECm_set_bounds t dec Hge) as H0.
  apply getter_then_setter_DEC. lia.
Qed.


(** X19: [Sync] changes the state only when it returns [false], which it does
    exactly when the target was accepted by the mount and the answer to
    [":CM#"] was read and is not ["No name"]; it then gives the target the
    ticks of the two setters, and the current position the ticks of the
    target (the RA up to whole turns, for an RA from -24 hours on; the DEC,
    for a DEC from -256 degrees on that does not round to 256 degrees), so
    that the mount is at the target; pier sides, countdown and movement
    markers are kept. *)
Theorem X19_Sync (init : MechanicalPoint) (sent_ok : bool)
    (reply reply_CM : option string) (d d' : Driver) (ra dec : Q)
    (result : bool) :
  Sync init sent_ok reply reply_CM d ra dec = Some (result, d') ->
  (result = false <->
   (exists cmd,
       setTargetPosition sent_ok reply (MechanicalPoint_of init ra dec)
       = Some (false, cmd)) /\
   (exists b, reply_CM = Some b /\ C.cstr b <> "No name")) /\
  (result = true -> d' = d) /\
  (result = false ->
   _RAm (targetPosition d') = _RAm (RAm_set (targetPosition d) ra) /\
   _DECm (targetPosition d') = _DECm (DECm_set (targetPosition d) dec) /\
   _pierSide (targetPosition d') = _pierSide (targetPosition d) /\
   _pierSide (currentPosition d') = _pierSide (currentPosition d) /\
   TrackState d' = TrackState d /\ countdown d' = countdown d /\
   east d' = east d /\ west d' = west d /\
   north d' = north d /\ south d' = south d /\
   ((-24 <= ra)%Q ->
    RA_delta_ticks (currentPosition d') (targetPosition d') = 0) /\
   ((-256 <= dec)%Q -> _DECm (targetPosition d') < 256 * 3600 ->
    _DECm (currentPosition d') = _DECm (targetPosition d')) /\
   ((-24 <= ra)%Q -> (-256 <= dec)%Q ->
    _DECm (targetPosition d') < 256 * 3600 ->
    away (currentPosition d') (targetPosition d') = false)).
Proof.
  unfold Sync.
  destruct (setTargetPosition sent_ok reply (MechanicalPoint_of init ra dec))
    as [[[|] cmd]|]; [ | | discriminate ].
  { intro H. injection H as <- <-.
    split; [ split; [ discriminate | intros [[c Hc] _]; discriminate Hc ] | ].
    split; [ reflexivity | discriminate ]. }
  destruct reply_CM as [b|].
  2:{ intro H. injection H as <- <-.
      split; [ split; [ discriminate | intros [_ [b [Hb _]]]; discriminate Hb ] | ].
      split; [ reflexivity | discriminate ]. }
  destruct (String.eqb (C.cstr b) "No name") eqn:Eb.
  { apply String.eqb_eq in Eb. intro H. injection H as <- <-.
    split; [ split; [ discriminate
                    | intros [_ [b' [Hb' Hn]]]; injection Hb' as <-;
                      contradiction ] | ].
    split; [ reflexivity | discriminate ]. }
  apply String.eqb_neq in Eb. intro H. injection H as <- <-.
  split.
  { split; [ intros _ | reflexivity ].
    split; [ exists cmd; reflexivity | exists b; split; [ reflexivity | exact Eb ] ]. }
  split; [ discriminate | ]. intros _.
  cbn [targetPosition currentPosition TrackState countdown
         east west north south].
  set (t := targetPosition d). set (c := currentPosition d).
  assert (Hra : (-24 <= ra)%Q ->
            RA_delta_ticks
              (DECm_set (RAm_set c (RAm (RAm_set t ra)))
                 (DECm (DECm_set (RAm_set t ra) dec)))
              (DECm_set (RAm_set t ra) dec) = 0)
    by apply synced_RA.
  assert (Hdec : (-256 <= dec)%Q ->
            _DECm (DECm_set (RAm_set t ra) dec) < 256 * 3600 ->
            _DECm (DECm_set (RAm_set c (RAm (RAm_set t ra)))
                     (DECm (DECm_set (RAm_set t ra) dec)))
            = _DECm (DECm_set (RAm_set t ra) dec))
    by apply synced_DEC.
  repeat (split; [ reflexivity | ]).
  split; [ exact Hra | ]. split; [ exact Hdec | ].
  intros H1 H2 H3. apply away_false. split; [ apply Hra, H1 | apply Hdec; assumption ].
Qed.

Lemma RA_fields_bound_turn (p : MechanicalPoint) :
  0 <= _RAm p <= 24 * 3600 ->
  0 <= RA_hours p < 24 /\ 0 <= RA_minutes p < 60 /\ 0 <= RA_seconds p < 60.
Proof.
  unfold RA_hours, RA_minutes, RA_seconds. intro H.
  assert (H1 : 0 <= _RAm p ÷ 3600 <= 24)
    by (Z.to_euclidean_division_equations; lia).
  assert (H2 : 0 <= _RAm p ÷ 60 <= 1440)
    by (Z.to_euclidean_division_equations; lia).
  rewrite !to_int_small by lia.
  destruct (pier_eqb _ _); Z.to_euclidean_division_equations; lia.
Qed.

Lemma setTargetPosition_prints (p : MechanicalPoint) (sent_ok : bool)
    (reply : option string) :
  0 <= _RAm p <= 24 * 3600 -> DEC_in_range p ->
  exists error cmd,
    setTargetPosition sent_ok reply p = Some (error, cmd) /\
    String.length cmd = 25%nat.
Proof.
  intros Hra Hdec.
  pose proof (RA_fields_bound_turn p Hra) as (Hh & Hm & Hs).
  destruct (triplet_written (RA_hours p) (RA_minutes p) (RA_seconds p))
    as (_ & Hlen & _); try lia. cbv zeta in Hlen.
  assert (Era : toStringRA p 9
                = Some (C.fmt_02d (RA_hours p) ++ ":" ++ C.fmt_02d (RA_minutes p)
                        ++ ":" ++ C.fmt_02d (RA_seconds p))).
  { rewrite toStringRA_fields. apply snprintf_result_fits; rewrite Hlen; lia. }
  destruct (toStringDEC_nine p Hdec) as (dec & Edec & Hlend).
  set (ra := C.fmt_02d (RA_hours p) ++ ":" ++ C.fmt_02d (RA_minutes p)
             ++ ":" ++ C.fmt_02d (RA_seconds p)) in *.
  assert (Hcmd : String.length (":Sr" ++ ra ++ "#:Sd" ++ dec ++ "#") = 25%nat).
  { rewrite !length_append. rewrite Hlen, Hlend. reflexivity. }
  unfold setTargetPosition, setTargetPosition_command. rewrite Era, Edec.
  rewrite substring_whole by (rewrite Hcmd; lia).
  eexists. eexists. split; [ reflexivity | exact Hcmd ].
Qed.

Lemma DECm_set_in_range (p : MechanicalPoint) (value : Q) :
  DEC_in_range (DECm_set p value).
Proof.
  unfold DEC_in_range, DEC_value, DECm_set. cbn [_DECm _pierSide set_DECm].
  destruct (setter_ticks_bound value 256 (256 * 3600)) as [H _];
    [ reflexivity | reflexivity | lia | ].
  destruct (pier_eqb _ _); lia.
Qed.

Lemma Sync_some (init : MechanicalPoint) (sent_ok : bool)
    (reply reply_CM : option string) (d : Driver) (ra dec : Q) :
  (-24 <= ra)%Q ->
  exists result d', Sync init sent_ok reply reply_CM d ra dec = Some (result, d').
Proof.
  intro Hra.
  destruct (setTargetPosition_prints (MechanicalPoint_of init ra dec)
              sent_ok reply) as (error & cmd & E & _).
  - unfold MechanicalPoint_of. cbn [_RAm DECm_set set_DECm].
    apply RAm_set_bounds, Hra.
  - apply DECm_set_in_range.
  - unfold Sync. rewrite E.
    destruct error; [ eexists; eexists; reflexivity | ].
    destruct reply_CM as [b|]; [ | eexists; eexists; reflexivity ].
    destruct (String.eqb (C.cstr b) "No name"); eexists; eexists; reflexivity.
Qed.

(** X20: for an RA from -24 hours on, [Sync] always has a command to print:
    neither [toStringRA] nor [toStringDEC] returns the null pointer for the
    point that the constructor makes, whatever the DEC. *)
Theorem X20_Sync_prints_its_target (init : MechanicalPoint) (sent_ok : bool)
    (reply reply_CM : option string) (d : Driver) (ra dec : Q) :
  (-24 <= ra)%Q ->
  (exists error cmd,
      setTargetPosition sent_ok reply (MechanicalPoint_of init ra dec)
      = Some (error, cmd) /\ String.length cmd = 25%nat) /\
  exists result d', Sync init sent_ok reply reply_CM d ra dec = Some (result, d').
Proof.
  intro Hra.
  assert (Hcmd : exists error cmd,
             setTargetPosition sent_ok reply (MechanicalPoint_of init ra dec)
             = Some (error, cmd) /\ String.length cmd = 25%nat).
  { apply setTargetPosition_prints.
    - unfold MechanicalPoint_of. cbn [_RAm DECm_set set_DECm].
      apply RAm_set_bounds, Hra.
    - apply DECm_set_in_range. }
  split; [ exact Hcmd | ].
  apply Sync_some, Hra.
Qed.

Lemma X20_Sync_prints_its_target_witness :
  (exists error cmd,
      setTargetPosition true (Some "11")
        (MechanicalPoint_of (mkPoint 0 0 PIER_EAST) 2 80)
      = Some (error, cmd) /\ String.length cmd = 25%nat) /\
  exists result d',
    Sync (mkPoint 0 0 PIER_EAST) true (Some "11") (Some "M31") driver_start 2 80
    = Some (result, d').
Proof.
  apply (X20_Sync_prints_its_target (mkPoint 0 0 PIER_EAST) true (Some "11")
           (Some "M31") driver_start 2 80).
  vm_compute. discriminate.
Defined.

Lemma X19_Sync_witness :
  Sync (mkPoint 0 0 PIER_EAST) true (Some "11") (Some "M31") driver_start 2 80
  = Some (false,
          mkDriver SCOPE_TRACKING 0 1000 (mkPoint 7200 288000 PIER_EAST)
            (mkPoint 7200 288000 PIER_EAST) None false false false false) /\
  away (mkPoint 7200 288000 PIER_EAST) (mkPoint 7200 288000 PIER_EAST) = false.
Proof.
  assert (E : Sync (mkPoint 0 0 PIER_EAST) true (Some "11") (Some "M31")
                driver_start 2 80
              = Some (false,
                      mkDriver SCOPE_TRACKING 0 1000
                        (mkPoint 7200 288000 PIER_EAST)
                        (mkPoint 7200 288000 PIER_EAST)
                        None false false false false))
    by (vm_compute; reflexivity).
  split; [ exact E | ].
  destruct (X19_Sync _ _ _ _ _ _ _ _ _ E) as (_ & _ & H).
  destruct (H eq_refl) as (_ & _ & _ & _ & _ & _ & _ & _ & _ & _ & _ & _ & Haway).
  apply Haway.
  - vm_compute. discriminate.
  - vm_compute. discriminate.
  - vm_compute. reflexivity.
Defined.

(** ** Reading the position *)

Lemma getCurrentPosition_accepts (env : Environment) (p q : MechanicalPoint) :
  fst (getCurrentPosition env p) = fst (getCurrentPosition env q).
Proof.
  unfold getCurrentPosition.
  destruct (reply_GR env) as [b|]; [ | reflexivity ].
  rewrite !parseStringRA_eq.
  change (64 <? 8) with false. cbv iota.
  destruct (fst (C.sscanf_3 b) =? 3); [ | reflexivity ].
  destruct (reply_GD env) as [b'|]; [ | reflexivity ].
  rewrite !parseStringDEC_eq.
  change (64 <? 9) with false. cbv iota zeta.
  destruct (_ || _); reflexivity.
Qed.

Lemma getCurrentPosition_side (env : Environment) (p q cur : MechanicalPoint) :
  getCurrentPosition env p = (false, cur) ->
  _pierSide q = _pierSide p ->
  getCurrentPosition env q = (false, cur).
Proof.
  unfold getCurrentPosition.
  destruct (reply_GR env) as [b|]; [ | discriminate ].
  destruct (parseStringRA p b 64) as [[|] r] eqn:Er; [ discriminate | ].
  destruct (reply_GD env) as [b'|]; [ | discriminate ].
  destruct (parseStringDEC r b' 64) as [[|] r'] eqn:Ed; [ discriminate | ].
  intros H Hq. injection H as <-.
  destruct (parseStringRA_ok p r b 64 Er) as (Hdec & Hside & Hany).
  destruct (parseStringDEC_ok r r' b' 64 Ed) as (Hra' & Hside' & Hany').
  rewrite (Hany q Hq).
  rewrite (Hany' (set_RAm q (_RAm r)))
    by (cbn [_pierSide set_RAm]; congruence).
  f_equal. apply point_eta; cbn [_RAm _DECm _pierSide set_RAm set_DECm];
    congruence.
Qed.

Lemma getCurrentPosition_keeps_side (env : Environment) (p : MechanicalPoint) :
  _pierSide (snd (getCurrentPosition env p)) = _pierSide p.
Proof.
  destruct (getCurrentPosition env p) as [[|] cur] eqn:E.
  - unfold getCurrentPosition in E.
    destruct (reply_GR env) as [b|]; [ | injection E as <-; reflexivity ].
    destruct (parseStringRA p b 64) as [[|] r];
      [ injection E as <-; reflexivity | ].
    destruct (reply_GD env) as [b'|]; [ | injection E as <-; reflexivity ].
    destruct (parseStringDEC r b' 64) as [[|] r'];
      [ injection E as <-; reflexivity | discriminate E ].
  - exact (proj2 (getCurrentPosition_RA env p cur E)).
Qed.

(** X21: whether [getCurrentPosition] accepts the two answers of the mount
    does not depend on the point it is given; the point it stores has the pier
    side of that point, RA ticks within one turn, and depends on the point
    given through its pier side only, so that reading the same answers again
    changes nothing. *)
Theorem X21_getCurrentPosition (env : Environment) (p cur : MechanicalPoint) :
  getCurrentPosition env p = (false, cur) ->
  _pierSide cur = _pierSide p /\
  RA_normalized cur /\
  (forall q, fst (getCurrentPosition env q) = false) /\
  (forall q, _pierSide q = _pierSide p ->
             getCurrentPosition env q = (false, cur)) /\
  getCurrentPosition env cur = (false, cur).
Proof.
  intro H. destruct (getCurrentPosition_RA env p cur H) as [Hra Hside].
  split; [ exact Hside | ]. split; [ exact Hra | ].
  split; [ intro q; rewrite (getCurrentPosition_accepts env q p), H;
           reflexivity | ].
  split; [ intros q Hq; exact (getCurrentPosition_side env p q cur H Hq) | ].
  exact (getCurrentPosition_side env p cur cur H Hside).
Qed.

Lemma X21_getCurrentPosition_witness :
  _pierSide (mkPoint 21600 162000 PIER_EAST)
  = _pierSide (mkPoint 0 0 PIER_EAST) /\
  RA_normalized (mkPoint 21600 162000 PIER_EAST) /\
  (forall q,
      fst (getCurrentPosition (mount_replies "06:00:00" "+45:00:00") q)
      = false) /\
  (forall q, _pierSide q = _pierSide (mkPoint 0 0 PIER_EAST) ->
             getCurrentPosition (mount_replies "06:00:00" "+45:00:00") q
             = (false, mkPoint 21600 162000 PIER_EAST)) /\
  getCurrentPosition (mount_replies "06:00:00" "+45:00:00")
    (mkPoint 21600 162000 PIER_EAST)
  = (false, mkPoint 21600 162000 PIER_EAST).
Proof.
  apply (X21_getCurrentPosition (mount_replies "06:00:00" "+45:00:00")
           (mkPoint 0 0 PIER_EAST) (mkPoint 21600 162000 PIER_EAST)).
  vm_compute. reflexivity.
Defined.

(** ** The check of the connection *)

(** X22: [checkConnection] succeeds exactly when the port is open and the
    second reading of the position does, whatever the first gives; the
    position it then holds is what the second answers alone give, read with
    the pier side the driver had.  A check that fails on an open port leaves
    the position of the first reading, and in every case only the current
    position changes and its pier side is kept. *)
Theorem X22_checkConnection (PortFD : Z) (first second : Environment)
    (d : Driver) :
  let ok := fst (checkConnection PortFD first second d) in
  let d' := snd (checkConnection PortFD first second d) in
  (ok = true <->
   0 < PortFD /\ fst (getCurrentPosition second (currentPosition d)) = false) /\
  (ok = true ->
   getCurrentPosition second (currentPosition d) = (false, currentPosition d')) /\
  (ok = false -> 0 < PortFD ->
   currentPosition d' = snd (getCurrentPosition first (currentPosition d))) /\
  (PortFD <= 0 -> d' = d) /\
  _pierSide (currentPosition d') = _pierSide (currentPosition d) /\
  targetPosition d' = targetPosition d /\
  TrackState d' = TrackState d /\ countdown d' = countdown d /\
  POLLMS d' = POLLMS d /\ previous_adjustment d' = previous_adjustment d /\
  east d' = east d /\ west d' = west d /\
  north d' = north d /\ south d' = south d.
Proof.
  cbv zeta. unfold checkConnection.
  destruct (PortFD <=? 0) eqn:Eport.
  { apply Z.leb_le in Eport. cbn [fst snd].
    split; [ split; [ discriminate | lia ] | ].
    split; [ discriminate | ]. split; [ lia | ].
    repeat (split; [ reflexivity | ]). reflexivity. }
  apply Z.leb_gt in Eport.
  set (p1 := snd (getCurrentPosition first (currentPosition d))).
  assert (Hside1 : _pierSide p1 = _pierSide (currentPosition d))
    by apply getCurrentPosition_keeps_side.
  pose proof (getCurrentPosition_accepts second p1 (currentPosition d)) as Hacc.
  pose proof (getCurrentPosition_keeps_side second p1) as Hside2.
  destruct (getCurrentPosition second p1) as [[|] p2] eqn:E2;
    cbn [fst snd negb currentPosition targetPosition TrackState countdown POLLMS
           previous_adjustment east west north south] in *.
  - split; [ split; [ discriminate | intros [_ H]; congruence ] | ].
    split; [ discriminate | ].
    split.
    { intros _ _. unfold getCurrentPosition in E2.
      destruct (reply_GR second) as [b|]; [ | congruence ].
      destruct (parseStringRA p1 b 64) as [[|] r]; [ congruence | ].
      destruct (reply_GD second) as [b'|]; [ | congruence ].
      destruct (parseStringDEC r b' 64) as [[|] r']; congruence. }
    split; [ lia | ].
    split; [ congruence | ].
    repeat (split; [ reflexivity | ]). reflexivity.
  - split; [ split; [ intros _; split; [ lia | congruence ] | reflexivity ] | ].
    split; [ intros _;
             exact (getCurrentPosition_side second p1 (currentPosition d) p2 E2
                      (eq_sym Hside1)) | ].
    split; [ discriminate | ].
    split; [ lia | ].
    split; [ congruence | ].
    repeat (split; [ reflexivity | ]). reflexivity.
Qed.

(** ** The parking position *)

Lemma pole_ticks (init : MechanicalPoint) :
  MechanicalPoint_of init 0 90 = mkPoint 0 (90 * 3600) (_pierSide init).
Proof. destruct init. reflexivity. Qed.

Lemma pier_eqb_eq (a b : TelescopePierSide) : pier_eqb a b = true <-> a = b.
Proof. destruct a, b; simpl; split; intro H; try reflexivity; discriminate H. Qed.

Lemma atParkingPosition_ticks (init p : MechanicalPoint) :
  atParkingPosition init p = true <->
  _pierSide p = _pierSide init /\
  (_RAm p = 0 \/ _RAm p = 24 * 3600 \/ _RAm p = - (24 * 3600)) /\
  _DECm p = 90 * 3600.
Proof.
  unfold atParkingPosition. rewrite pole_ticks.
  unfold point_eq, point_neq. rewrite negb_true_iff.
  rewrite <- orb_assoc. fold (away p (mkPoint 0 (90 * 3600) (_pierSide init))).
  rewrite orb_false_iff, negb_false_iff, pier_eqb_eq, away_false.
  cbn [_RAm _DECm _pierSide].
  pose proof (RA_delta_ticks_cases p (mkPoint 0 (90 * 3600) (_pierSide init)))
    as Hc. cbv zeta in Hc. cbn [_RAm] in Hc.
  assert (Hra : RA_delta_ticks p (mkPoint 0 (90 * 3600) (_pierSide init)) = 0
                <-> _RAm p = 0 \/ _RAm p = 24 * 3600 \/ _RAm p = - (24 * 3600))
    by lia.
  rewrite Hra. tauto.
Qed.

(** X23: a point is at the parking position exactly when it has the pier side
    of a point made by the constructor, DEC ticks of 90 degrees, and RA ticks
    that are 0 or one whole turn away from 0; among the points whose RA is
    within one turn the parking position is one point. *)
Theorem X23_atParkingPosition (init p : MechanicalPoint) :
  (atParkingPosition init p = true <->
   _pierSide p = _pierSide init /\
   (_RAm p = 0 \/ _RAm p = 24 * 3600 \/ _RAm p = - (24 * 3600)) /\
   _DECm p = 90 * 3600) /\
  (RA_normalized p ->
   (atParkingPosition init p = true <->
    p = mkPoint 0 (90 * 3600) (_pierSide init))).
Proof.
  split; [ apply atParkingPosition_ticks | ].
  unfold RA_normalized. intro Hp. rewrite atParkingPosition_ticks. split.
  - intros (H1 & H2 & H3). apply point_eta; cbn [_RAm _DECm _pierSide];
      [ lia | exact H3 | exact H1 ].
  - intros ->. cbn [_RAm _DECm _pierSide].
    split; [ reflexivity | ]. split; [ left; reflexivity | reflexivity ].
Qed.

(** ** The location of the observer *)



(** ** The ways out of [ReadScopeStatus] *)

Lemma slewing_returns (env : Environment) (d d' : Driver) (result : bool)
    (sent : list string) :
  slewing env d = Returned result d' sent ->
  currentPosition d' = currentPosition d /\
  targetPosition d' = targetPosition d /\
  ((away (currentPosition d) (targetPosition d) = false /\ result = true /\
    TrackState d' = SCOPE_TRACKING /\ sent = [":Q#:RG#"]) \/
   (away (currentPosition d) (targetPosition d) = true /\
    ((result = false /\ write_ok env = false /\
      TrackState d' = TrackState d /\ POLLMS d' = POLLMS d /\
      exists c, sent = [c] /\ c <> "") \/
     (result = false /\ countdown d' <= 0 /\
      TrackState d' = SCOPE_TRACKING /\ POLLMS d' = 1000 /\
      exists before, sent = (before ++ [":Q#"])%list) \/
     (result = true /\ TrackState d' = TrackState d)))).
Proof.
  unfold slewing. fold (away (currentPosition d) (targetPosition d)).
  destruct (away (currentPosition d) (targetPosition d)).
  2:{ intro H. injection H as <- <- <-.
      split; [ reflexivity | ]. split; [ reflexivity | ].
      left. repeat split; reflexivity. }
  rewrite !choose_loop_spec.
  destruct (choose_adjustment _) as [ra_adjust|]; cbv beta iota; [ | discriminate ].
  destruct (choose_adjustment _) as [dec_adjust|]; cbv beta iota; [ | discriminate ].
  destruct (if (ra_adjust =? _)%nat then _ else _)
    as [[[cmd1 e] w]|]; [ | discriminate ].
  destruct (if (dec_adjust =? _)%nat then _ else _)
    as [[[cmd2 s] n]|]; [ | discriminate ].
  destruct ((e && w) || (n && s)); [ discriminate | ].
  destruct (negb (String.eqb cmd2 "") && negb (write_ok env)) eqn:Ew.
  { intro H. injection H as <- <- <-.
    split; [ reflexivity | ]. split; [ reflexivity | ].
    right. split; [ reflexivity | ]. left.
    apply andb_true_iff in Ew. destruct Ew as [Ecmd Eok].
    apply negb_true_iff in Ecmd, Eok. apply String.eqb_neq in Ecmd.
    split; [ reflexivity | ]. split; [ exact Eok | ].
    split; [ reflexivity | ]. split; [ reflexivity | ].
    exists cmd2. split; [ | exact Ecmd ].
    destruct cmd2; [ contradiction Ecmd; reflexivity | reflexivity ]. }
  destruct (negb e && negb w && negb n && negb s).
  { intro H. injection H as <- <- <-.
    split; [ reflexivity | ]. split; [ reflexivity | ].
    right. split; [ reflexivity | ]. right. right. split; reflexivity. }
  destruct (_ - 1 <=? 0) eqn:Ez.
  - unfold slew_failure. intro H. injection H as <- <- <-.
    apply Z.leb_le in Ez.
    split; [ reflexivity | ]. split; [ reflexivity | ].
    right. split; [ reflexivity | ]. right. left.
    split; [ reflexivity | ]. split; [ exact Ez | ].
    split; [ reflexivity | ]. split; [ reflexivity | ].
    eexists. reflexivity.
  - intro H. injection H as <- <- <-.
    split; [ reflexivity | ]. split; [ reflexivity | ].
    right. split; [ reflexivity | ]. right. right. split; reflexivity.
Qed.

(** X25: [ReadScopeStatus] returns [false] in three ways only.  Without a
    connection or without a position read, it leaves the state as it was and
    sends nothing.  When the write of the command fails, the driver stays
    slewing with its polling period, and the command was the only one handed
    over.  When the countdown is used up, the last command is [":Q#"] and the
    driver tracks with a polling period of 1000 ms.  The last two happen only
    to a slewing driver that reads a position away from the target. *)
Theorem X25_ReadScopeStatus_failures (env : Environment) (d d' : Driver)
    (sent : list string) :
  ReadScopeStatus env d = Returned false d' sent ->
  (d' = d /\ sent = [] /\
   (isConnected env = false \/
    fst (getCurrentPosition env (currentPosition d)) = true)) \/
  (TrackState d = SCOPE_SLEWING /\ isConnected env = true /\
   getCurrentPosition env (currentPosition d) = (false, currentPosition d') /\
   away (currentPosition d') (targetPosition d) = true /\
   ((write_ok env = false /\ TrackState d' = SCOPE_SLEWING /\
     POLLMS d' = POLLMS d /\ exists c, sent = [c] /\ c <> "") \/
    (countdown d' <= 0 /\ TrackState d' = SCOPE_TRACKING /\ POLLMS d' = 1000 /\
     exists before, sent = (before ++ [":Q#"])%list))).
Proof.
  unfold ReadScopeStatus.
  destruct (isConnected env); cbn [negb].
  2:{ intro H. injection H as <- <-. left.
      split; [ reflexivity | ]. split; [ reflexivity | left; reflexivity ]. }
  destruct (getCurrentPosition env (currentPosition d)) as [[|] p].
  { intro H. injection H as <- <-. left.
    split; [ reflexivity | ]. split; [ reflexivity | right; reflexivity ]. }
  destruct (TrackState d) eqn:Et; [ discriminate | | discriminate ].
  intro H. apply slewing_returns in H.
  cbn [currentPosition targetPosition TrackState POLLMS] in H.
  destruct H as (Hcur & Htgt & [(_ & Hr & _) | (Ha & Hcases)]);
    [ discriminate Hr | ].
  right. split; [ reflexivity | ]. split; [ reflexivity | ].
  rewrite Hcur. split; [ reflexivity | ]. split; [ exact Ha | ].
  destruct Hcases as [(_ & Hw & Ht & Hp & Hc) | [(_ & Hz & Ht & Hp & Hb)
                                                 | (Hr & _)]].
  - left. repeat (split; [ assumption | ]). exact Hc.
  - right. repeat (split; [ assumption | ]). exact Hb.
  - discriminate Hr.
Qed.

Lemma X25_ReadScopeStatus_failures_witness :
  ReadScopeStatus (mount_replies "00:00:00" "+00:00:00")
    (mkDriver SCOPE_SLEWING 1 1000 (mkPoint 0 0 PIER_EAST)
       (mkPoint 7200 288000 PIER_EAST) None false false false false)
  = Returned false
      (mkDriver SCOPE_TRACKING 0 1000 (mkPoint 0 324000 PIER_EAST)
         (mkPoint 7200 288000 PIER_EAST) (Some 4%nat) true false false false)
      [":RS#:Me#"; ":Q#"] /\
  away (mkPoint 0 324000 PIER_EAST) (mkPoint 7200 288000 PIER_EAST) = true.
Proof.
  assert (E : ReadScopeStatus (mount_replies "00:00:00" "+00:00:00")
                (mkDriver SCOPE_SLEWING 1 1000 (mkPoint 0 0 PIER_EAST)
                   (mkPoint 7200 288000 PIER_EAST) None
                   false false false false)
              = Returned false
                  (mkDriver SCOPE_TRACKING 0 1000 (mkPoint 0 324000 PIER_EAST)
                     (mkPoint 7200 288000 PIER_EAST) (Some 4%nat)
                     true false false false)
                  [":RS#:Me#"; ":Q#"])
    by (vm_compute; reflexivity).
  split; [ exact E | ].
  destruct (X25_ReadScopeStatus_failures _ _ _ _ E)
    as [(H & _) | (_ & _ & _ & H & _)].
  - discriminate H.
  - exact H.
Defined.

(** X26: whatever it returns, [ReadScopeStatus] leaves the target and the
    pier side of the current position as they were and never takes a driver
    that is not slewing to slewing; it returns [true] only with the position
    just read from the mount as the current position.  On a driver that is
    not slewing it sends nothing, changes nothing but the current position,
    and returns [true] exactly when it is connected and the position is
    read. *)
Theorem X26_ReadScopeStatus_keeps (env : Environment) (d d' : Driver)
    (result : bool) (sent : list string) :
  ReadScopeStatus env d = Returned result d' sent ->
  targetPosition d' = targetPosition d /\
  _pierSide (currentPosition d') = _pierSide (currentPosition d) /\
  (TrackState d' = SCOPE_SLEWING -> TrackState d = SCOPE_SLEWING) /\
  (result = true ->
   isConnected env = true /\
   getCurrentPosition env (currentPosition d) = (false, currentPosition d')) /\
  (TrackState d <> SCOPE_SLEWING ->
   sent = [] /\ TrackState d' = TrackState d /\ countdown d' = countdown d /\
   POLLMS d' = POLLMS d /\ previous_adjustment d' = previous_adjustment d /\
   east d' = east d /\ west d' = west d /\
   north d' = north d /\ south d' = south d /\
   (result = true <->
    isConnected env = true /\
    fst (getCurrentPosition env (currentPosition d)) = false)).
Proof.
  unfold ReadScopeStatus.
  destruct (isConnected env); cbn [negb].
  2:{ intro H. injection H as <- <- <-.
      split; [ reflexivity | ]. split; [ reflexivity | ].
      split; [ exact (fun H => H) | ]. split; [ discriminate | ].
      intros _. repeat (split; [ reflexivity | ]).
      split; [ discriminate | intros [H _]; discriminate H ]. }
  destruct (getCurrentPosition env (currentPosition d)) as [[|] p] eqn:Eread.
  { intro H. injection H as <- <- <-.
    split; [ reflexivity | ]. split; [ reflexivity | ].
    split; [ exact (fun H => H) | ]. split; [ discriminate | ].
    intros _. repeat (split; [ reflexivity | ]).
    split; [ discriminate | intros [_ H]; discriminate H ]. }
  pose proof (proj2 (getCurrentPosition_RA env _ _ Eread)) as Hside.
  assert (Hidle : TrackState d <> SCOPE_SLEWING ->
            Returned true
              (mkDriver (TrackState d) (countdown d) (POLLMS d) p
                 (targetPosition d) (previous_adjustment d)
                 (east d) (west d) (north d) (south d)) []
            = Returned result d' sent ->
            targetPosition d' = targetPosition d /\
            _pierSide (currentPosition d') = _pierSide (currentPosition d) /\
            (TrackState d' = SCOPE_SLEWING -> TrackState d = SCOPE_SLEWING) /\
            (result = true ->
             true = true /\ (false, p) = (false, currentPosition d')) /\
            (TrackState d <> SCOPE_SLEWING ->
             sent = [] /\ TrackState d' = TrackState d /\
             countdown d' = countdown d /\
             POLLMS d' = POLLMS d /\
             previous_adjustment d' = previous_adjustment d /\
             east d' = east d /\ west d' = west d /\
             north d' = north d /\ south d' = south d /\
             (result = true <-> true = true /\ fst (false, p) = false))).
  { intros Hn H. injection H as <- <- <-.
    cbn [currentPosition targetPosition TrackState countdown POLLMS
           previous_adjustment east west north south].
    split; [ reflexivity | ]. split; [ exact Hside | ].
    split; [ exact (fun H => H) | ].
    split; [ intros _; split; reflexivity | ].
    intros _. repeat (split; [ reflexivity | ]).
    split; [ intros _; split; reflexivity | reflexivity ]. }
  destruct (TrackState d) eqn:Et;
    [ apply Hidle; discriminate | | apply Hidle; discriminate ].
  clear Hidle. intro H. apply slewing_returns in H.
  cbn [currentPosition targetPosition TrackState POLLMS] in H.
  destruct H as (Hcur & Htgt & _).
  split; [ exact Htgt | ]. split; [ rewrite Hcur; exact Hside | ].
  split; [ reflexivity | ].
  split; [ intros _; split; [ reflexivity | rewrite Hcur; reflexivity ] | ].
  intro Hn. contradiction Hn. reflexivity.
Qed.

Lemma X26_ReadScopeStatus_keeps_witness :
  targetPosition
    (mkDriver SCOPE_TRACKING 0 1000 (mkPoint 21600 162000 PIER_EAST)
       (mkPoint 0 (90 * 3600) PIER_EAST) None false false false false)
  = targetPosition driver_start /\
  ReadScopeStatus (mount_replies "06:00:00" "+45:00:00") driver_start
  = Returned true
      (mkDriver SCOPE_TRACKING 0 1000 (mkPoint 21600 162000 PIER_EAST)
         (mkPoint 0 (90 * 3600) PIER_EAST) None false false false false) [].
Proof.
  assert (E : ReadScopeStatus (mount_replies "06:00:00" "+45:00:00")
                driver_start
              = Returned true
                  (mkDriver SCOPE_TRACKING 0 1000
                     (mkPoint 21600 162000 PIER_EAST)
                     (mkPoint 0 (90 * 3600) PIER_EAST) None
                     false false false false) [])
    by (vm_compute; reflexivity).
  split; [ | exact E ].
  exact (proj1 (X26_ReadScopeStatus_keeps _ _ _ _ _ E)).
Defined.

(** ** The target of a goto *)

Lemma Goto_target (env : Environment) (d : Driver) (ra dec : Q) :
  targetPosition (snd (Goto env d ra dec))
  = setPierSide (DECm_set (RAm_set (targetPosition d) ra) dec)
      (Goto_pierSide (getLST env) ra).
Proof.
  unfold Goto.
  destruct (EqNP_busy env && negb (abortSlew_ok env));
    [ | destruct (setTargetPosition_error env) ]; reflexivity.
Qed.

(** X27: [Goto] stores the new target before anything can fail: a goto that
    returns [false] has given the target the ticks of the two setters, and
    kept the tracking state, the countdown and the polling period; the
    current position is kept in every case.  For
    an RA from -24 hours on, the target it stores is one that
    [setTargetPosition] can print, in a command of 25 characters, whatever
    the pier side chosen: its RA ticks are within [0, 24 * 3600] and its DEC
    value within the range of an [int]. *)
Theorem X27_Goto_target_is_sent (env : Environment) (d : Driver) (ra dec : Q)
    (sent_ok : bool) (reply : option string) :
  (-24 <= ra)%Q ->
  let d' := snd (Goto env d ra dec) in
  0 <= _RAm (targetPosition d') <= 24 * 3600 /\
  DEC_in_range (targetPosition d') /\
  (exists error cmd,
      setTargetPosition sent_ok reply (targetPosition d') = Some (error, cmd) /\
      String.length cmd = 25%nat) /\
  currentPosition d' = currentPosition d /\
  (fst (Goto env d ra dec) = false ->
   TrackState d' = TrackState d /\ countdown d' = countdown d /\
   POLLMS d' = POLLMS d /\
   _RAm (targetPosition d') = _RAm (RAm_set (targetPosition d) ra) /\
   _DECm (targetPosition d') = _DECm (DECm_set (targetPosition d) dec)).
Proof.
  intros Hra d'. subst d'. rewrite Goto_target.
  assert (H1 : 0 <= _RAm (setPierSide
                            (DECm_set (RAm_set (targetPosition d) ra) dec)
                            (Goto_pierSide (getLST env) ra)) <= 24 * 3600).
  { cbn [_RAm setPierSide DECm_set set_DECm]. apply RAm_set_bounds, Hra. }
  assert (H2 : DEC_in_range (setPierSide
                               (DECm_set (RAm_set (targetPosition d) ra) dec)
                               (Goto_pierSide (getLST env) ra))).
  { unfold DEC_in_range, DEC_value, DECm_set.
    cbn [_DECm _pierSide set_DECm setPierSide].
    destruct (setter_ticks_bound dec 256 (256 * 3600)) as [H _];
      [ reflexivity | reflexivity | lia | ].
    destruct (pier_eqb _ _); lia. }
  split; [ exact H1 | ]. split; [ exact H2 | ].
  split; [ apply setTargetPosition_prints; assumption | ].
  unfold Goto.
  destruct (EqNP_busy env && negb (abortSlew_ok env)).
  { cbn [fst snd currentPosition TrackState countdown POLLMS].
    split; [ reflexivity | ]. intros _. repeat split; reflexivity. }
  destruct (setTargetPosition_error env).
  { cbn [fst snd currentPosition TrackState countdown POLLMS].
    split; [ reflexivity | ]. intros _. repeat split; reflexivity. }
  cbn [fst snd currentPosition]. split; [ reflexivity | discriminate ].
Qed.

Lemma X27_Goto_target_is_sent_witness :
  0 <= _RAm (targetPosition (snd (Goto (mount_replies "" "") driver_start 2 80)))
  <= 24 * 3600.
Proof.
  refine (proj1 (X27_Goto_target_is_sent (mount_replies "" "") driver_start
                   2 80 true (Some "11") _)).
  vm_compute. discriminate.
Defined.
